(** * Event-driven notification service: worker pipeline

    A shallow embedding of the consumer pipeline of the repository
    (src/worker/retry.py, src/worker/consumer.py, src/app/models/event.py,
    src/app/services/redis_client.py, src/app/services/rate_limiter.py,
    src/app/config.py) together with the properties of its retry policy,
    failure classifier, rate limiter, queue serialization and consumer loop.

    Conventions.
    - A Python [str] is a [string]; each character stands for the code point
      of the same number (0..255).  [lower] is Python's [str.lower] on that
      range.
    - A Python [int] is a [Z].
    - JSON-like values ([dict[str, Any]] payloads, queue records) are the
      trees of [Json]; objects are association lists in insertion order.
      Floating-point numbers are not part of the model.
    - Exceptions are values of [Exn]; code that may raise returns a
      [Result]. *)

From Stdlib Require Import ZArith NArith Ascii String List Bool Lia.
From Stdlib Require Import DecimalString DecimalN DecimalZ DecimalFacts.
From stdpp Require Import base option gmap strings list.

Set Warnings "-register-all".
Local Open Scope string_scope.
Local Open Scope Z_scope.
Local Open Scope list_scope.

(** ** Python strings *)

Module Str.

(** [str.lower()] on one code point below 256: the letters A..Z and the
    capital letters U+00C0..U+00DE (U+00D7, the multiplication sign, is not
    a letter) move up by 32; everything else is unchanged. *)
Definition lower_char (c : ascii) : ascii :=
  let n := N_of_ascii c in
  if ((65 <=? n) && (n <=? 90))%N then ascii_of_N (n + 32)
  else if ((192 <=? n) && (n <=? 222) && negb (n =? 215))%N
       then ascii_of_N (n + 32)
  else c.

Fixpoint lower (s : string) : string :=
  match s with
  | EmptyString => EmptyString
  | String c t => String (lower_char c) (lower t)
  end.

(** [needle in hay] *)
Fixpoint contains (needle hay : string) : bool :=
  if String.prefix needle hay then true
  else match hay with
       | EmptyString => false
       | String _ t => contains needle t
       end.

Definition is_digit (c : ascii) : bool :=
  let n := N_of_ascii c in ((48 <=? n) && (n <=? 57))%N.

Fixpoint all_digits (s : string) : bool :=
  match s with
  | String c r => is_digit c && all_digits r
  | EmptyString => true
  end.

(** JSON whitespace: space, tab, line feed, carriage return. *)
Definition is_space (c : ascii) : bool :=
  let n := N_of_ascii c in
  ((n =? 32) || (n =? 9) || (n =? 10) || (n =? 13))%N.

(** The digit of value [d] below 16, in lower case. *)
Definition digit_char (d : N) : ascii :=
  if (d <? 10)%N then ascii_of_N (48 + d) else ascii_of_N (87 + d).

(** The value of a decimal or hexadecimal digit of either case. *)
Definition digit_val (c : ascii) : option N :=
  let n := N_of_ascii c in
  if ((48 <=? n) && (n <=? 57))%N then Some (n - 48)%N
  else if ((97 <=? n) && (n <=? 102))%N then Some (n - 87)%N
  else if ((65 <=? n) && (n <=? 70))%N then Some (n - 55)%N
  else None.

(** [n] on exactly [width] digits in [base], as [format(n, "04d")] or
    [format(n, "08x")] print it. *)
Fixpoint fixed (base : N) (width : nat) (n : N) : string :=
  match width with
  | O => EmptyString
  | S w =>
      String (digit_char (n / base ^ N.of_nat w))
             (fixed base w (n mod base ^ N.of_nat w))
  end.

(** Reads exactly [width] digits in [base] off the front of [s]. *)
Fixpoint read_fixed (base : N) (width : nat) (s : string) (acc : N)
  : option (N * string) :=
  match width with
  | O => Some (acc, s)
  | S w =>
      match s with
      | String c r =>
          match digit_val c with
          | Some d =>
              if (d <? base)%N then read_fixed base w r (acc * base + d)%N
              else None
          | None => None
          end
      | EmptyString => None
      end
  end.

(** [s] without its prefix [p], when it has it. *)
Fixpoint strip_prefix (p s : string) : option string :=
  match p with
  | EmptyString => Some s
  | String a p' =>
      match s with
      | String b s' => if Ascii.eqb a b then strip_prefix p' s' else None
      | EmptyString => None
      end
  end.

(** Requires [c] at the front of [s]. *)
Definition expect (c : ascii) (s : string) : option string :=
  match s with
  | String c' r => if Ascii.eqb c c' then Some r else None
  | EmptyString => None
  end.

(** [sep.join(l)] *)
Fixpoint join_more (sep : string) (l : list string) : string :=
  match l with
  | [] => EmptyString
  | y :: t => sep +:+ y +:+ join_more sep t
  end.

Definition join (sep : string) (l : list string) : string :=
  match l with
  | [] => EmptyString
  | x :: t => x +:+ join_more sep t
  end.

(** [str(n)] for an [int] *)
Definition of_int (n : Z) : string := NilZero.string_of_int (Z.to_int n).

(** The integer a text is the canonical form of: no sign but a minus, no
    padding, no spaces. *)
Definition to_int_strict (s : string) : option Z :=
  match NilZero.int_of_string s with
  | Some d =>
      let n := Z.of_int d in
      if String.eqb (of_int n) s then Some n else None
  | None => None
  end.

(** Python whitespace below U+0080: tab to carriage return, the four
    separators U+001C..U+001F, and the space. *)
Definition is_py_space (c : ascii) : bool :=
  let n := N_of_ascii c in
  (((9 <=? n) && (n <=? 13)) || ((28 <=? n) && (n <=? 32)))%N.

Fixpoint lstrip (s : string) : string :=
  match s with
  | String c r => if is_py_space c then lstrip r else s
  | EmptyString => s
  end.

(** [s.rstrip()] *)
Fixpoint rstrip (s : string) : string :=
  match s with
  | String c r =>
      match rstrip r with
      | EmptyString => if is_py_space c then EmptyString else String c EmptyString
      | r' => String c r'
      end
  | EmptyString => s
  end.

(** [int(s)] for a [str]: spaces around the number are dropped, a sign may
    come first, then decimal digits; [None] stands for [ValueError].
    (Underscores between digits, which Python also allows, are refused.) *)
Definition py_int (s : string) : option Z :=
  let t := rstrip (lstrip s) in
  let '(negative, ds) :=
    match expect "-" t with
    | Some r => (true, r)
    | None =>
        match expect "+" t with
        | Some r => (false, r)
        | None => (false, t)
        end
    end in
  match ds with
  | EmptyString => None
  | _ =>
      match NilZero.uint_of_string ds with
      | Some d => Some (Z.of_int (if negative : bool then Decimal.Neg d
                                  else Decimal.Pos d))
      | None => None
      end
  end.

(** What the substring test decides. *)
Definition occurs (needle hay : string) : Prop :=
  exists pre post, hay = pre +:+ needle +:+ post.

(** A case-insensitive occurrence: some substring of [hay] equals [needle]
    up to the case of its letters. *)
Definition occurs_ci (needle hay : string) : Prop :=
  exists pre mid post, hay = pre +:+ mid +:+ post /\ lower mid = lower needle.

End Str.

(** ** Exceptions and results *)

(** Where an exception class sits relative to the two [except] clauses of the
    worker: [except asyncio.CancelledError] and [except Exception]. *)
Inductive ExnBase := StdException | CancelledError | OtherBaseException.

(** An exception value: [type(e).__name__] and [str(e)]. *)
Record Exn := mkExn {
  exn_base : ExnBase;
  exn_type : string;
  exn_msg : string
}.

Inductive Result (A : Type) :=
| Ok (a : A)
| Raise (e : Exn).
Arguments Ok {A} a.
Arguments Raise {A} e.

#[global] Instance ExnBase_eq_dec : EqDecision ExnBase.
Proof. solve_decision. Defined.
#[global] Instance Exn_eq_dec : EqDecision Exn.
Proof. solve_decision. Defined.

(** ** JSON-like values *)

Inductive Json :=
| JNull
| JBool (b : bool)
| JInt (n : Z)
| JStr (s : string)
| JArr (l : list Json)
| JObj (l : list (string * Json)).

(** [d.get(k)] on a dict held as an association list. *)
Fixpoint dict_get (k : string) (d : list (string * Json)) : option Json :=
  match d with
  | [] => None
  | (k', v) :: t => if String.eqb k k' then Some v else dict_get k t
  end.

(** Python truthiness of a JSON-like value ([not x] is its negation). *)
Definition truthy (v : Json) : bool :=
  match v with
  | JNull => false
  | JBool b => b
  | JInt n => negb (n =? 0)
  | JStr s => negb (String.eqb s EmptyString)
  | JArr l => match l with [] => false | _ => true end
  | JObj l => match l with [] => false | _ => true end
  end.

(** ** src/app/config.py *)

Module Settings.

Record t := mk {
  redis_queue_name : string;
  redis_dlq_name : string;
  max_retries : Z;
  retry_delay_seconds : Z;
  smtp_user : string;
  smtp_password : string;
  daily_email_limit : Z;
  alert_email : string
}.

(** The defaults of the [Settings] class. *)
Definition default : t :=
  {| redis_queue_name := "events:queue";
     redis_dlq_name := "events:dlq";
     max_retries := 3;
     retry_delay_seconds := 1;
     smtp_user := EmptyString;
     smtp_password := EmptyString;
     daily_email_limit := 20;
     alert_email := EmptyString |}.

End Settings.

(** ** src/app/models/event.py *)

Inductive EventType :=
| USER_NOTIFICATION
| SYSTEM_ALERT
| EMAIL_NOTIFICATION
| SMS_NOTIFICATION.

Definition EventType_value (t : EventType) : string :=
  match t with
  | USER_NOTIFICATION => "USER_NOTIFICATION"
  | SYSTEM_ALERT => "SYSTEM_ALERT"
  | EMAIL_NOTIFICATION => "EMAIL_NOTIFICATION"
  | SMS_NOTIFICATION => "SMS_NOTIFICATION"
  end.

(** A [uuid.UUID], by the five groups of its canonical text form. *)
Record UUID := mkUUID {
  time_low : N;          (* 32 bits *)
  time_mid : N;          (* 16 bits *)
  time_hi_version : N;   (* 16 bits *)
  clock_seq : N;         (* 16 bits *)
  node : N               (* 48 bits *)
}.

(** A naive [datetime.datetime]. *)
Record datetime := mkDatetime {
  year : N;
  month : N;
  day : N;
  hour : N;
  minute : N;
  second : N;
  microsecond : N
}.

Record Event := mkEvent {
  event_id : UUID;
  event_type : EventType;
  user_id : string;
  payload : list (string * Json);
  created_at : datetime;
  retry_count : Z;
  version : string
}.

(** [Event.increment_retry]:
    [self.model_copy(update={"retry_count": self.retry_count + 1})]. *)
Definition increment_retry (self : Event) : Event :=
  {| event_id := event_id self;
     event_type := event_type self;
     user_id := user_id self;
     payload := payload self;
     created_at := created_at self;
     retry_count := retry_count self + 1;
     version := version self |}.

(** Python objects live in a store and are handed around by reference;
    [model_copy] allocates a new object next to the one it copies. *)
Module Heap.

Definition ref := positive.

(** [updated = original.increment_retry()] on references: the value at
    [original] is read, the copy is stored at a new reference, which is
    returned. *)
Definition increment_retry (original : ref) (h : gmap positive Event)
  : option (ref * gmap positive Event) :=
  match h !! original with
  | Some self =>
      let updated := fresh (dom h) in
      Some (updated, <[updated := increment_retry self]> h)
  | None => None
  end.

End Heap.

(** ** src/worker/retry.py *)

Inductive FailureType := TRANSIENT | PERMANENT | UNKNOWN.

Definition FailureType_value (t : FailureType) : string :=
  match t with
  | TRANSIENT => "transient"
  | PERMANENT => "permanent"
  | UNKNOWN => "unknown"
  end.

#[global] Instance FailureType_eq_dec : EqDecision FailureType.
Proof. solve_decision. Defined.

Module RetryDecision.
Record t := mk { should_retry : bool; reason : string }.
End RetryDecision.

Module RetryHandler.

Record t := mk { max_retries : Z }.

(** [__init__]: [self.max_retries = max_retries or settings.max_retries];
    an argument of 0 is falsy and gives way to the configured value. *)
Definition init (settings : Settings.t) (max_retries : option Z) : t :=
  mk (match max_retries with
      | Some m => if m =? 0 then Settings.max_retries settings else m
      | None => Settings.max_retries settings
      end).

Definition transient_indicators : list string :=
  ["timeout"; "connection"; "temporary"; "unavailable"; "retry"; "network"].

Definition permanent_indicators : list string :=
  ["validation"; "invalid"; "malformed"; "not found"; "unauthorized";
   "forbidden"].

Definition transient_types : list string :=
  ["ConnectionError"; "TimeoutError"; "OSError"].

Definition permanent_types : list string :=
  ["ValueError"; "KeyError"; "TypeError"].

Definition classify_failure (error : Exn) : FailureType :=
  let error_type := exn_type error in
  let error_message := Str.lower (exn_msg error) in
  if existsb (fun indicator => Str.contains indicator error_message)
       transient_indicators
  then TRANSIENT
  else if existsb (fun indicator => Str.contains indicator error_message)
            permanent_indicators
  then PERMANENT
  else if existsb (String.eqb error_type) transient_types then TRANSIENT
  else if existsb (String.eqb error_type) permanent_types then PERMANENT
  else UNKNOWN.

Definition should_retry (self : t) (event : Event) (error : Exn)
  : RetryDecision.t :=
  let failure_type := classify_failure error in
  if decide (failure_type = PERMANENT) then
    RetryDecision.mk false
      ("Permanent failure: " +:+ exn_type error +:+ ": " +:+ exn_msg error)
  else if retry_count event >=? max_retries self then
    RetryDecision.mk false
      ("Max retries (" +:+ Str.of_int (max_retries self) +:+ ") exceeded")
  else
    RetryDecision.mk true
      (FailureType_value failure_type +:+ " failure, retry "
       +:+ Str.of_int (retry_count event + 1) +:+ "/"
       +:+ Str.of_int (max_retries self)).

End RetryHandler.

(** ** Text forms of identifiers and timestamps *)

(** [str(u)] for a [UUID]: 8-4-4-4-12 hexadecimal digits in lower case. *)
Definition UUID_str (u : UUID) : string :=
  Str.fixed 16 8 (time_low u) +:+ "-" +:+ Str.fixed 16 4 (time_mid u) +:+ "-"
  +:+ Str.fixed 16 4 (time_hi_version u) +:+ "-"
  +:+ Str.fixed 16 4 (clock_seq u) +:+ "-" +:+ Str.fixed 16 12 (node u).

(** Reads the hyphenated form back; the digits may be of either case. *)
Definition UUID_parse (s : string) : option UUID :=
  '(a, s) ← Str.read_fixed 16 8 s 0%N;
  s ← Str.expect "-" s;
  '(b, s) ← Str.read_fixed 16 4 s 0%N;
  s ← Str.expect "-" s;
  '(c, s) ← Str.read_fixed 16 4 s 0%N;
  s ← Str.expect "-" s;
  '(d, s) ← Str.read_fixed 16 4 s 0%N;
  s ← Str.expect "-" s;
  '(e, s) ← Str.read_fixed 16 12 s 0%N;
  match s with
  | EmptyString => Some (mkUUID a b c d e)
  | _ => None
  end.

Definition UUID_ok (u : UUID) : bool :=
  ((time_low u <? 2 ^ 32) && (time_mid u <? 2 ^ 16)
   && (time_hi_version u <? 2 ^ 16) && (clock_seq u <? 2 ^ 16)
   && (node u <? 2 ^ 48))%N.

Definition is_leap (y : N) : bool :=
  ((y mod 4 =? 0) && (negb (y mod 100 =? 0) || (y mod 400 =? 0)))%N.

Definition days_in_month (y m : N) : N :=
  (if (m =? 2) then (if is_leap y then 29 else 28)
   else if (m =? 4) || (m =? 6) || (m =? 9) || (m =? 11) then 30
   else 31)%N.

(** The values a [datetime] can hold. *)
Definition datetime_ok (d : datetime) : bool :=
  ((1 <=? year d) && (year d <=? 9999) && (1 <=? month d) && (month d <=? 12)
   && (1 <=? day d) && (day d <=? days_in_month (year d) (month d))
   && (hour d <? 24) && (minute d <? 60) && (second d <? 60)
   && (microsecond d <? 1000000))%N.

(** The ISO 8601 text of a naive [datetime]: the microseconds are printed, on
    six digits, only when they are not zero. *)
Definition isoformat (d : datetime) : string :=
  Str.fixed 10 4 (year d) +:+ "-" +:+ Str.fixed 10 2 (month d) +:+ "-"
  +:+ Str.fixed 10 2 (day d) +:+ "T" +:+ Str.fixed 10 2 (hour d) +:+ ":"
  +:+ Str.fixed 10 2 (minute d) +:+ ":" +:+ Str.fixed 10 2 (second d)
  +:+ (if (microsecond d =? 0)%N then EmptyString
       else "." +:+ Str.fixed 10 6 (microsecond d)).

Definition datetime_parse (s : string) : option datetime :=
  '(y, s) ← Str.read_fixed 10 4 s 0%N;
  s ← Str.expect "-" s;
  '(mo, s) ← Str.read_fixed 10 2 s 0%N;
  s ← Str.expect "-" s;
  '(d, s) ← Str.read_fixed 10 2 s 0%N;
  s ← Str.expect "T" s;
  '(h, s) ← Str.read_fixed 10 2 s 0%N;
  s ← Str.expect ":" s;
  '(mi, s) ← Str.read_fixed 10 2 s 0%N;
  s ← Str.expect ":" s;
  '(se, s) ← Str.read_fixed 10 2 s 0%N;
  '(us, s) ← match Str.expect "." s with
             | Some r => Str.read_fixed 10 6 r 0%N
             | None => Some (0%N, s)
             end;
  match s with
  | EmptyString =>
      let dt := mkDatetime y mo d h mi se us in
      if datetime_ok dt then Some dt else None
  | _ => None
  end.

(** ** JSON text *)

Module JSON.

(** How a document is laid out: [model_dump_json] writes the compact form
    and leaves characters above U+007E as they are; [json.dumps] puts a
    space after each separator and, with [ensure_ascii] left at its
    default, escapes every character outside the printable ASCII range. *)
Record style := mkStyle {
  item_separator : string;
  key_separator : string;
  ensure_ascii : bool
}.

Definition compact : style := mkStyle "," ":" false.
Definition python_default : style := mkStyle ", " ": " true.

Definition dquote : ascii := "034"%char.
Definition backslash : ascii := "092"%char.

Definition escape_char (st : style) (c : ascii) : string :=
  let n := N_of_ascii c in
  if (n =? 34)%N then String backslash (String dquote EmptyString)
  else if (n =? 92)%N then String backslash (String backslash EmptyString)
  else if (n =? 10)%N then String backslash "n"
  else if (n =? 13)%N then String backslash "r"
  else if (n =? 9)%N then String backslash "t"
  else if (n =? 8)%N then String backslash "b"
  else if (n =? 12)%N then String backslash "f"
  else if ((n <? 32) || (ensure_ascii st && (126 <? n)))%N
       then String backslash ("u" +:+ Str.fixed 16 4 n)
  else String c EmptyString.

Fixpoint escape (st : style) (s : string) : string :=
  match s with
  | EmptyString => EmptyString
  | String c t => escape_char st c +:+ escape st t
  end.

Definition quote (st : style) (s : string) : string :=
  String dquote (escape st s +:+ String dquote EmptyString).

Fixpoint dumps (st : style) (v : Json) : string :=
  match v with
  | JNull => "null"
  | JBool true => "true"
  | JBool false => "false"
  | JInt n => Str.of_int n
  | JStr s => quote st s
  | JArr l =>
      "[" +:+ Str.join (item_separator st) (map (dumps st) l) +:+ "]"
  | JObj l =>
      "{" +:+
      Str.join (item_separator st)
        (map (fun kv => quote st (fst kv) +:+ key_separator st
                        +:+ dumps st (snd kv)) l)
      +:+ "}"
  end.

(** *** Reading *)

Fixpoint skip_ws (s : string) : string :=
  match s with
  | String c r => if Str.is_space c then skip_ws r else s
  | EmptyString => s
  end.

(** The character a one-letter escape stands for. *)
Definition unescape (e : ascii) : option ascii :=
  let n := N_of_ascii e in
  if (n =? 34)%N then Some dquote
  else if (n =? 92)%N then Some backslash
  else if (n =? 47)%N then Some "/"%char
  else if (n =? 98)%N then Some "008"%char
  else if (n =? 102)%N then Some "012"%char
  else if (n =? 110)%N then Some "010"%char
  else if (n =? 114)%N then Some "013"%char
  else if (n =? 116)%N then Some "009"%char
  else None.

(** The code point of a [\uXXXX] escape, when it is one the model has a
    character for. *)
Definition code_point (h1 h2 h3 h4 : ascii) : option ascii :=
  a ← Str.digit_val h1; b ← Str.digit_val h2;
  c ← Str.digit_val h3; d ← Str.digit_val h4;
  let n := (((a * 16 + b) * 16 + c) * 16 + d)%N in
  if (n <? 256)%N then Some (ascii_of_N n) else None.

(** The body of a string literal, after its opening quote.  A raw control
    character is refused, as [json.loads] does in its strict mode. *)
Fixpoint read_string (s : string) : option (string * string) :=
  match s with
  | EmptyString => None
  | String c r =>
      if Ascii.eqb c dquote then Some (EmptyString, r)
      else if Ascii.eqb c backslash then
        match r with
        | String e r' =>
            if Ascii.eqb e "u" then
              match r' with
              | String h1 (String h2 (String h3 (String h4 r''))) =>
                  ch ← code_point h1 h2 h3 h4;
                  '(t, rest) ← read_string r'';
                  Some (String ch t, rest)
              | _ => None
              end
            else
              ch ← unescape e;
              '(t, rest) ← read_string r';
              Some (String ch t, rest)
        | EmptyString => None
        end
      else if (N_of_ascii c <? 32)%N then None
      else
        '(t, rest) ← read_string r;
        Some (String c t, rest)
  end.

(** The longest run of digits at the front of [s], and what follows. *)
Fixpoint span_digits (s : string) : string * string :=
  match s with
  | String c r =>
      if Str.is_digit c then
        let '(ds, rest) := span_digits r in (String c ds, rest)
      else (EmptyString, s)
  | EmptyString => (EmptyString, s)
  end.

(** Does a fraction or an exponent follow?  Then the literal is a float. *)
Definition float_follows (s : string) : bool :=
  match s with
  | String c _ =>
      Ascii.eqb c "." || Ascii.eqb c "e" || Ascii.eqb c "E"
  | EmptyString => false
  end.

(** A number literal stops in front of [s]. *)
Definition number_ends (s : string) : bool :=
  match s with
  | String c _ => negb (Str.is_digit c) && negb (float_follows s)
  | EmptyString => true
  end.

(** An integer literal: an optional minus sign, then either a single 0
    or a run of digits that does not start with 0. *)
Definition read_int (s : string) : option (Z * string) :=
  let '(negative, s1) :=
    match Str.expect "-" s with
    | Some r => (true, r)
    | None => (false, s)
    end in
  '(ds, rest) ←
    match s1 with
    | String c r =>
        if Ascii.eqb c "0" then Some ("0", r)
        else if Str.is_digit c then Some (span_digits s1)
        else None
    | EmptyString => None
    end;
  d ← NilZero.uint_of_string ds;
  if float_follows rest then None
  else Some (Z.of_int (if negative : bool then Decimal.Neg d else Decimal.Pos d),
             rest).

(** [d[k] = v]: an existing key keeps its place and takes the new value. *)
Fixpoint dict_set (k : string) (v : Json) (d : list (string * Json))
  : list (string * Json) :=
  match d with
  | [] => [(k, v)]
  | (k', v') :: t =>
      if String.eqb k k' then (k', v) :: t else (k', v') :: dict_set k v t
  end.

Definition read_literal (s : string) : option (Json * string) :=
  match Str.strip_prefix "null" s with
  | Some rest => Some (JNull, rest)
  | None =>
      match Str.strip_prefix "true" s with
      | Some rest => Some (JBool true, rest)
      | None =>
          match Str.strip_prefix "false" s with
          | Some rest => Some (JBool false, rest)
          | None => '(n, rest) ← read_int s; Some (JInt n, rest)
          end
      end
  end.

(** One value off the front of [s]; [fuel] bounds the nesting and the
    number of items. *)
Fixpoint read_value (fuel : nat) (s : string) : option (Json * string) :=
  match fuel with
  | O => None
  | S fuel =>
      match skip_ws s with
      | String c r =>
          if Ascii.eqb c dquote then
            '(t, rest) ← read_string r; Some (JStr t, rest)
          else if Ascii.eqb c "[" then
            match Str.expect "]" (skip_ws r) with
            | Some r' => Some (JArr [], r')
            | None => '(l, rest) ← read_items fuel r; Some (JArr l, rest)
            end
          else if Ascii.eqb c "{" then
            match Str.expect "}" (skip_ws r) with
            | Some r' => Some (JObj [], r')
            | None => '(l, rest) ← read_members fuel r []; Some (JObj l, rest)
            end
          else read_literal (String c r)
      | EmptyString => None
      end
  end
with read_items (fuel : nat) (s : string) : option (list Json * string) :=
  match fuel with
  | O => None
  | S fuel =>
      '(v, rest) ← read_value fuel s;
      match Str.expect "," (skip_ws rest) with
      | Some r => '(l, rest') ← read_items fuel r; Some (v :: l, rest')
      | None =>
          match Str.expect "]" (skip_ws rest) with
          | Some r => Some ([v], r)
          | None => None
          end
      end
  end
with read_members (fuel : nat) (s : string) (acc : list (string * Json))
  : option (list (string * Json) * string) :=
  match fuel with
  | O => None
  | S fuel =>
      r ← Str.expect dquote (skip_ws s);
      '(k, rest) ← read_string r;
      r2 ← Str.expect ":" (skip_ws rest);
      '(v, rest2) ← read_value fuel r2;
      let acc' := dict_set k v acc in
      match Str.expect "," (skip_ws rest2) with
      | Some r3 => read_members fuel r3 acc'
      | None =>
          match Str.expect "}" (skip_ws rest2) with
          | Some r3 => Some (acc', r3)
          | None => None
          end
      end
  end.

(** The characters a value can start with. *)
Definition value_start (c : ascii) : bool :=
  Str.is_digit c || Ascii.eqb c "-" || Ascii.eqb c dquote || Ascii.eqb c "["
  || Ascii.eqb c "{" || Ascii.eqb c "n" || Ascii.eqb c "t" || Ascii.eqb c "f".

(** One member of an object, as [dumps] writes it. *)
Definition member_text (st : style) (kv : string * Json) : string :=
  quote st (fst kv) +:+ key_separator st +:+ dumps st (snd kv).

(** The items of a list and the members of an object, between the
    brackets. *)
Definition items_text (st : style) (x : Json) (t : list Json) : string :=
  dumps st x +:+ Str.join_more (item_separator st) (map (dumps st) t).

Definition members_text (st : style) (kv : string * Json)
    (t : list (string * Json)) : string :=
  member_text st kv +:+ Str.join_more (item_separator st) (map (member_text st) t).

(** The two layouts in use. *)
Definition known_style (st : style) : Prop :=
  st = compact \/ st = python_default.

(** [json.loads]: one value, with nothing but whitespace around it. *)
Definition loads (s : string) : option Json :=
  '(v, rest) ← read_value (S (String.length s)) s;
  match skip_ws rest with
  | EmptyString => Some v
  | _ => None
  end.

End JSON.

(** ** Queue records *)

Definition ValidationError (msg : string) : Exn :=
  mkExn StdException "ValidationError" msg.

Definition JSONDecodeError (msg : string) : Exn :=
  mkExn StdException "JSONDecodeError" msg.

#[global] Instance Result_ret : MRet Result := fun _ a => Ok a.
#[global] Instance Result_bind : MBind Result := fun _ _ f m =>
  match m with
  | Ok a => f a
  | Raise e => Raise e
  end.

(** [self.model_dump(mode="json")]: the fields in the order of their
    declaration, identifiers and timestamps as text. *)
Definition model_dump (self : Event) : Json :=
  JObj [("event_id", JStr (UUID_str (event_id self)));
        ("event_type", JStr (EventType_value (event_type self)));
        ("user_id", JStr (user_id self));
        ("payload", JObj (payload self));
        ("created_at", JStr (isoformat (created_at self)));
        ("retry_count", JInt (retry_count self));
        ("version", JStr (version self))].

Definition model_dump_json (self : Event) : string :=
  JSON.dumps JSON.compact (model_dump self).

Definition EventType_parse (s : string) : option EventType :=
  if String.eqb s "USER_NOTIFICATION" then Some USER_NOTIFICATION
  else if String.eqb s "SYSTEM_ALERT" then Some SYSTEM_ALERT
  else if String.eqb s "EMAIL_NOTIFICATION" then Some EMAIL_NOTIFICATION
  else if String.eqb s "SMS_NOTIFICATION" then Some SMS_NOTIFICATION
  else None.

(** One field of the model: a missing key takes the default when there is
    one; a value of the wrong shape is a validation error. *)
Definition field {A : Type} (d : list (string * Json)) (name : string)
    (default : option A) (convert : Json -> option A) : Result A :=
  match dict_get name d with
  | None =>
      match default with
      | Some a => Ok a
      | None => Raise (ValidationError ("Field required: " +:+ name))
      end
  | Some v =>
      match convert v with
      | Some a => Ok a
      | None => Raise (ValidationError ("Input should be valid: " +:+ name))
      end
  end.

(** [Event.model_validate(event_data)].  [uuid4] and [utcnow] are the values
    the two default factories would produce.  The text forms accepted for
    [event_id] and [created_at] are the ones [model_dump] writes; keys the
    model does not declare are ignored. *)
Definition model_validate (uuid4 : UUID) (utcnow : datetime) (data : Json)
  : Result Event :=
  match data with
  | JObj d =>
      id ← field d "event_id" (Some uuid4)
             (fun v => match v with JStr s => UUID_parse s | _ => None end);
      ty ← field d "event_type" None
             (fun v => match v with JStr s => EventType_parse s | _ => None end);
      uid ← field d "user_id" None
              (fun v => match v with JStr s => Some s | _ => None end);
      pl ← field d "payload" (Some [])
             (fun v => match v with JObj l => Some l | _ => None end);
      at_ ← field d "created_at" (Some utcnow)
              (fun v => match v with JStr s => datetime_parse s | _ => None end);
      rc ← field d "retry_count" (Some 0)
             (fun v => match v with
                       | JInt n => if 0 <=? n then Some n else None
                       | _ => None
                       end);
      ver ← field d "version" (Some "1.0")
              (fun v => match v with JStr s => Some s | _ => None end);
      Ok (mkEvent id ty uid pl at_ rc ver)
  | _ => Raise (ValidationError "Input should be a valid dictionary")
  end.

(** What [dequeue_event] does with the text of a record:
    [Event.model_validate(json.loads(event_json))]. *)
Definition decode_record (uuid4 : UUID) (utcnow : datetime) (event_json : string)
  : Result Event :=
  match JSON.loads event_json with
  | Some event_data => model_validate uuid4 utcnow event_data
  | None => Raise (JSONDecodeError "Expecting value")
  end.

(** No key twice. *)
Fixpoint distinct (ks : list string) : bool :=
  match ks with
  | [] => true
  | k :: t => negb (existsb (String.eqb k) t) && distinct t
  end.

(** Objects with no key twice, all the way down: the values a [dict] holds. *)
Fixpoint Json_ok (v : Json) : bool :=
  match v with
  | JArr l => forallb Json_ok l
  | JObj l => distinct (map fst l) && forallb (fun kv => Json_ok (snd kv)) l
  | _ => true
  end.

(** The values the fields of an [Event] can hold: a 128-bit identifier, a
    calendar date and time, a JSON-like dict, a count that is not negative
    ([Field(default=0, ge=0)]). *)
Definition Event_ok (e : Event) : bool :=
  UUID_ok (event_id e) && Json_ok (JObj (payload e))
  && datetime_ok (created_at e) && (0 <=? retry_count e).

(** ** The world the worker runs in *)

Record Email := mkEmail {
  to_email : Json;
  subject : Json;
  body : string;
  html_body : option string
}.

Record LogRecord := mkLog {
  log_level : string;
  log_event : string;
  log_fields : list (string * string)
}.

(** The Redis server (two kinds of keys: lists and counters), the SMTP
    server, the clocks and the state of the worker's own objects.  The two
    [*_faults] scripts say how the next calls to a server end: [None] (or an
    exhausted script) is a call that goes through, [Some e] one that raises
    [e]. *)
Record World := mkWorld {
  connected : bool;                   (* RedisClient._client is not None *)
  lists : gmap string (list string);  (* head of a list = its left end *)
  keys : gmap string string;
  expiry : gmap string Z;
  redis_faults : list (option Exn);
  smtp_faults : list (option Exn);
  smtp_calls : list Email;            (* every send, latest first *)
  outbox : list Email;                (* the sends that went through *)
  log : list LogRecord;               (* latest first *)
  sleeps : list Z;                    (* asyncio.sleep calls, latest first *)
  today : string;                     (* date.today().isoformat() *)
  utcnow : datetime;                  (* datetime.utcnow() *)
  uuids : list UUID;                  (* what uuid4() returns next *)
  alert_sent_today : bool;            (* EmailRateLimiter._alert_sent_today *)
  running : bool;                     (* EventConsumer._running *)
  processor : bool                    (* EventConsumer.processor is set *)
}.

Definition set_connected (x : bool) (w : World) : World :=
  mkWorld x (lists w) (keys w) (expiry w) (redis_faults w) (smtp_faults w)
    (smtp_calls w) (outbox w) (log w) (sleeps w) (today w) (utcnow w) (uuids w)
    (alert_sent_today w) (running w) (processor w).
Definition set_lists (x : gmap string (list string)) (w : World) : World :=
  mkWorld (connected w) x (keys w) (expiry w) (redis_faults w) (smtp_faults w)
    (smtp_calls w) (outbox w) (log w) (sleeps w) (today w) (utcnow w) (uuids w)
    (alert_sent_today w) (running w) (processor w).
Definition set_keys (x : gmap string string) (w : World) : World :=
  mkWorld (connected w) (lists w) x (expiry w) (redis_faults w) (smtp_faults w)
    (smtp_calls w) (outbox w) (log w) (sleeps w) (today w) (utcnow w) (uuids w)
    (alert_sent_today w) (running w) (processor w).
Definition set_expiry (x : gmap string Z) (w : World) : World :=
  mkWorld (connected w) (lists w) (keys w) x (redis_faults w) (smtp_faults w)
    (smtp_calls w) (outbox w) (log w) (sleeps w) (today w) (utcnow w) (uuids w)
    (alert_sent_today w) (running w) (processor w).
Definition set_redis_faults (x : list (option Exn)) (w : World) : World :=
  mkWorld (connected w) (lists w) (keys w) (expiry w) x (smtp_faults w)
    (smtp_calls w) (outbox w) (log w) (sleeps w) (today w) (utcnow w) (uuids w)
    (alert_sent_today w) (running w) (processor w).
Definition set_smtp_faults (x : list (option Exn)) (w : World) : World :=
  mkWorld (connected w) (lists w) (keys w) (expiry w) (redis_faults w) x
    (smtp_calls w) (outbox w) (log w) (sleeps w) (today w) (utcnow w) (uuids w)
    (alert_sent_today w) (running w) (processor w).
Definition set_smtp_calls (x : list Email) (w : World) : World :=
  mkWorld (connected w) (lists w) (keys w) (expiry w) (redis_faults w)
    (smtp_faults w) x (outbox w) (log w) (sleeps w) (today w) (utcnow w)
    (uuids w) (alert_sent_today w) (running w) (processor w).
Definition set_outbox (x : list Email) (w : World) : World :=
  mkWorld (connected w) (lists w) (keys w) (expiry w) (redis_faults w)
    (smtp_faults w) (smtp_calls w) x (log w) (sleeps w) (today w) (utcnow w)
    (uuids w) (alert_sent_today w) (running w) (processor w).
Definition set_log (x : list LogRecord) (w : World) : World :=
  mkWorld (connected w) (lists w) (keys w) (expiry w) (redis_faults w)
    (smtp_faults w) (smtp_calls w) (outbox w) x (sleeps w) (today w) (utcnow w)
    (uuids w) (alert_sent_today w) (running w) (processor w).
Definition set_sleeps (x : list Z) (w : World) : World :=
  mkWorld (connected w) (lists w) (keys w) (expiry w) (redis_faults w)
    (smtp_faults w) (smtp_calls w) (outbox w) (log w) x (today w) (utcnow w)
    (uuids w) (alert_sent_today w) (running w) (processor w).
Definition set_uuids (x : list UUID) (w : World) : World :=
  mkWorld (connected w) (lists w) (keys w) (expiry w) (redis_faults w)
    (smtp_faults w) (smtp_calls w) (outbox w) (log w) (sleeps w) (today w)
    (utcnow w) x (alert_sent_today w) (running w) (processor w).
Definition set_alert_sent_today (x : bool) (w : World) : World :=
  mkWorld (connected w) (lists w) (keys w) (expiry w) (redis_faults w)
    (smtp_faults w) (smtp_calls w) (outbox w) (log w) (sleeps w) (today w)
    (utcnow w) (uuids w) x (running w) (processor w).
Definition set_running (x : bool) (w : World) : World :=
  mkWorld (connected w) (lists w) (keys w) (expiry w) (redis_faults w)
    (smtp_faults w) (smtp_calls w) (outbox w) (log w) (sleeps w) (today w)
    (utcnow w) (uuids w) (alert_sent_today w) x (processor w).
Definition set_processor (x : bool) (w : World) : World :=
  mkWorld (connected w) (lists w) (keys w) (expiry w) (redis_faults w)
    (smtp_faults w) (smtp_calls w) (outbox w) (log w) (sleeps w) (today w)
    (utcnow w) (uuids w) (alert_sent_today w) (running w) x.

(** *** Computations that read and change the world and may raise *)

Definition M (A : Type) : Type := World -> Result A * World.

#[global] Instance M_ret : MRet M := fun _ a w => (Ok a, w).
#[global] Instance M_bind : MBind M := fun _ _ f m w =>
  match m w with
  | (Ok a, w') => f a w'
  | (Raise e, w') => (Raise e, w')
  end.

Definition raise {A : Type} (e : Exn) : M A := fun w => (Raise e, w).

Definition gets {A : Type} (f : World -> A) : M A := fun w => (Ok (f w), w).

Definition modify (f : World -> World) : M unit := fun w => (Ok tt, f w).

(** [try: body / except <class> as e: handler e]; an exception outside the
    class propagates. *)
Definition try_except {A : Type} (body : M A) (class : Exn -> bool)
    (handler : Exn -> M A) : M A := fun w =>
  match body w with
  | (Ok a, w') => (Ok a, w')
  | (Raise e, w') => if class e then handler e w' else (Raise e, w')
  end.

(** [except Exception] *)
Definition is_Exception (e : Exn) : bool :=
  match exn_base e with StdException => true | _ => false end.

(** [except asyncio.CancelledError] *)
Definition is_CancelledError (e : Exn) : bool :=
  match exn_base e with CancelledError => true | _ => false end.

(** [await logger.ainfo(...)] and its siblings. *)
Definition logger (level event : string) (fields : list (string * string))
  : M unit :=
  modify (fun w => set_log (mkLog level event fields :: log w) w).

(** [await asyncio.sleep(seconds)] *)
Definition sleep (seconds : Z) : M unit :=
  modify (fun w => set_sleeps (seconds :: sleeps w) w).

(** [uuid4()] *)
Definition uuid4 : M UUID := fun w =>
  match uuids w with
  | u :: rest => (Ok u, set_uuids rest w)
  | [] => (Ok (mkUUID 0 0 0 0 0), w)
  end.

(** ** src/app/services/redis_client.py *)

Module RedisClient.

(** *** The commands of the Redis server the client sends *)

(** The [client] property: raises when [connect] has not been called. *)
Definition client : M unit := fun w =>
  if connected w then (Ok tt, w)
  else (Raise (mkExn StdException "RuntimeError"
                 "Redis client not connected. Call connect() first."), w).

(** One command: the script of faults decides whether it reaches the
    server. *)
Definition transport {A : Type} (run : M A) : M A := fun w =>
  match redis_faults w with
  | Some e :: rest => (Raise e, set_redis_faults rest w)
  | None :: rest => run (set_redis_faults rest w)
  | [] => run w
  end.

Definition command {A : Type} (run : M A) : M A :=
  _ ← client; transport run.

Definition ResponseError (msg : string) : Exn :=
  mkExn StdException "ResponseError" msg.

(** [LPUSH key value]: the list grows at its left end. *)
Definition lpush (key value : string) : M Z :=
  command (fun w =>
    let l := value :: (lists w !!! key) in
    (Ok (Z.of_nat (length l)), set_lists (<[key := l]> (lists w)) w)).

(** [BRPOP key timeout]: the right end of the list, or [None] when the
    list stays empty until the timeout. *)
Definition brpop (key : string) (timeout : Z)
  : M (option (string * string)) :=
  command (fun w =>
    let l := lists w !!! key in
    match last l with
    | Some value =>
        (Ok (Some (key, value)),
         set_lists (<[key := removelast l]> (lists w)) w)
    | None => (Ok None, w)
    end).

Definition llen (key : string) : M Z :=
  command (gets (fun w => Z.of_nat (length (lists w !!! key)))).

Definition get (key : string) : M (option string) :=
  command (gets (fun w => keys w !! key)).

(** [INCR key]: a missing key counts from 0; the value has to be the
    canonical text of a 64-bit integer, before and after. *)
Definition incr (key : string) : M Z :=
  command (fun w =>
    match keys w !! key with
    | None => (Ok 1, set_keys (<[key := Str.of_int 1]> (keys w)) w)
    | Some s =>
        match Str.to_int_strict s with
        | Some n =>
            if negb ((- 2 ^ 63 <=? n) && (n <? 2 ^ 63)) then
              (Raise (ResponseError "value is not an integer or out of range"), w)
            else if n =? 2 ^ 63 - 1 then
              (Raise (ResponseError "increment or decrement would overflow"), w)
            else
              (Ok (n + 1), set_keys (<[key := Str.of_int (n + 1)]> (keys w)) w)
        | None =>
            (Raise (ResponseError "value is not an integer or out of range"), w)
        end
    end).

(** [EXPIRE key seconds] *)
Definition expire (key : string) (seconds : Z) : M bool :=
  command (fun w =>
    match keys w !! key with
    | Some _ => (Ok true, set_expiry (<[key := seconds]> (expiry w)) w)
    | None => (Ok false, w)
    end).

(** *** The methods of [RedisClient] *)

Section methods.

Variable settings : Settings.t.

Definition queue_name : string := Settings.redis_queue_name settings.
Definition dlq_name : string := Settings.redis_dlq_name settings.

Definition connect : M unit := fun w =>
  if connected w then (Ok tt, w)
  else logger "info" "redis_connected" [] (set_connected true w).

Definition disconnect : M unit := fun w =>
  if connected w then logger "info" "redis_disconnected" [] (set_connected false w)
  else (Ok tt, w).

Definition enqueue_event (event : Event) : M unit :=
  let event_json := model_dump_json event in
  _ ← lpush queue_name event_json;
  logger "info" "event_enqueued"
    [("event_id", UUID_str (event_id event));
     ("event_type", EventType_value (event_type event));
     ("queue", queue_name)].

(** The value the [event_id] default factory is called for, if the
    record has no such key. *)
Definition default_event_id (event_data : Json) : M UUID :=
  match event_data with
  | JObj d =>
      match dict_get "event_id" d with
      | None => uuid4
      | Some _ => mret (mkUUID 0 0 0 0 0)
      end
  | _ => mret (mkUUID 0 0 0 0 0)
  end.

Definition dequeue_event (timeout : Z) : M (option Event) :=
  result ← brpop queue_name timeout;
  match result with
  | None => mret None
  | Some (_, event_json) =>
      event_data ← match JSON.loads event_json with
                   | Some v => mret v
                   | None => raise (JSONDecodeError "Expecting value")
                   end;
      id ← default_event_id event_data;
      now ← gets utcnow;
      event ← match model_validate id now event_data with
              | Ok e => mret e
              | Raise err => raise err
              end;
      _ ← logger "info" "event_dequeued"
            [("event_id", UUID_str (event_id event));
             ("retry_count", Str.of_int (retry_count event))];
      mret (Some event)
  end.

Definition send_to_dlq (event : Event) (reason : string) : M unit :=
  let dlq_entry :=
    JObj [("event", model_dump event); ("reason", JStr reason)] in
  _ ← lpush dlq_name (JSON.dumps JSON.python_default dlq_entry);
  logger "warning" "event_dead_lettered"
    [("event_id", UUID_str (event_id event));
     ("reason", reason);
     ("retry_count", Str.of_int (retry_count event))].

Definition requeue_event (event : Event) : M unit :=
  let updated_event := increment_retry event in
  _ ← enqueue_event updated_event;
  logger "info" "event_requeued"
    [("event_id", UUID_str (event_id event));
     ("retry_count", Str.of_int (retry_count updated_event))].

Definition get_queue_length : M Z := llen queue_name.

Definition get_dlq_length : M Z := llen dlq_name.

End methods.

End RedisClient.

(** ** src/app/services/email_service.py *)

Module EmailService.

Definition smtp_exception_types : list string :=
  ["SMTPException"; "SMTPServerDisconnected"; "SMTPResponseException";
   "SMTPSenderRefused"; "SMTPRecipientsRefused"; "SMTPDataError";
   "SMTPConnectError"; "SMTPHeloError"; "SMTPNotSupportedError"].

(** The three [except] clauses of [send_email]: each logs and raises the
    exception again. *)
Definition log_failure (to_email : Json) (e : Exn) : M unit :=
  if String.eqb (exn_type e) "SMTPAuthenticationError" then
    logger "error" "email_auth_failed"
      [("error", exn_msg e);
       ("hint", "Check SMTP credentials. For Gmail, use App Password.")]
  else if existsb (String.eqb (exn_type e)) smtp_exception_types then
    logger "error" "email_send_failed" [("error", exn_msg e)]
  else
    logger "error" "email_unexpected_error"
      [("error", exn_msg e); ("error_type", exn_type e)].

(** The conversation with the SMTP server: it goes through or raises, as
    the script of faults says. *)
Definition smtp_send (email : Email) : M unit := fun w =>
  let w := set_smtp_calls (email :: smtp_calls w) w in
  match smtp_faults w with
  | Some e :: rest => (Raise e, set_smtp_faults rest w)
  | None :: rest => (Ok tt, set_outbox (email :: outbox w) (set_smtp_faults rest w))
  | [] => (Ok tt, set_outbox (email :: outbox w) w)
  end.

Definition send_email (to_email subject : Json) (body : string)
    (html_body : option string) : M bool :=
  try_except
    (_ ← smtp_send (mkEmail to_email subject body html_body);
     _ ← logger "info" "email_sent_successfully" [];
     mret true)
    is_Exception
    (fun e => _ ← log_failure to_email e; raise e).

End EmailService.

(** ** src/app/services/rate_limiter.py *)

Module EmailRateLimiter.

Section methods.

Variable settings : Settings.t.

Definition _get_today_key : M string :=
  gets (fun w => "email:count:" +:+ today w).

Definition ValueError (msg : string) : Exn :=
  mkExn StdException "ValueError" msg.

(** [return int(count) if count else 0] *)
Definition get_today_count : M Z :=
  key ← _get_today_key;
  count ← RedisClient.get key;
  match count with
  | None => mret 0
  | Some s =>
      if String.eqb s EmptyString then mret 0
      else match Str.py_int s with
           | Some n => mret n
           | None =>
               raise (ValueError
                        ("invalid literal for int() with base 10: " +:+ s))
           end
  end.

Definition increment_count : M Z :=
  key ← _get_today_key;
  count ← RedisClient.incr key;
  _ ← RedisClient.expire key (60 * 60 * 48);
  mret (if negb (count =? 0) then count else 0).

Definition can_send_email : M bool :=
  count ← get_today_count;
  mret (count <? Settings.daily_email_limit settings).

Definition alert_body (count : Z) : string :=
  "Daily email limit of " +:+ Str.of_int (Settings.daily_email_limit settings)
  +:+ " has been reached." +:+ String "010" (String "010" EmptyString)
  +:+ "Emails sent today: " +:+ Str.of_int count +:+ String "010" EmptyString
  +:+ "New email requests will be queued but not sent until tomorrow.".

Definition check_and_alert : M unit :=
  sent ← gets alert_sent_today;
  if sent : bool then mret tt
  else
    count ← get_today_count;
    if count >=? Settings.daily_email_limit settings then
      let alert_email := Settings.alert_email settings in
      if negb (String.eqb alert_email EmptyString) then
        try_except
          (_ ← EmailService.send_email (JStr alert_email)
                 (JStr "[EventFlow] Daily Email Limit Reached")
                 (alert_body count) None;
           _ ← modify (set_alert_sent_today true);
           logger "warning" "email_limit_alert_sent"
             [("limit", Str.of_int (Settings.daily_email_limit settings));
              ("count", Str.of_int count);
              ("alert_email", alert_email)])
          is_Exception
          (fun e => logger "error" "failed_to_send_limit_alert"
                      [("error", exn_msg e)])
      else mret tt
    else mret tt.

Definition record_email_sent : M Z := increment_count.

End methods.

End EmailRateLimiter.

(** ** src/worker/retry.py: logging the decision *)

Module RetryLog.

Definition log_retry_decision (self : RetryHandler.t) (event : Event)
    (decision : RetryDecision.t) (error : Exn) : M unit :=
  if RetryDecision.should_retry decision then
    logger "info" "retry_scheduled"
      [("event_id", UUID_str (event_id event));
       ("retry_count", Str.of_int (retry_count event + 1));
       ("max_retries", Str.of_int (RetryHandler.max_retries self));
       ("reason", RetryDecision.reason decision)]
  else
    logger "warning" "retry_exhausted"
      [("event_id", UUID_str (event_id event));
       ("retry_count", Str.of_int (retry_count event));
       ("reason", RetryDecision.reason decision);
       ("error_type", exn_type error)].

End RetryLog.

(** ** src/worker/consumer.py *)

(** [repr(v)] and [str(v)] of a JSON-like value, as an f-string prints it.
    (The text of a string inside a list or dict is put between single
    quotes as it is.) *)
Fixpoint py_repr (v : Json) : string :=
  match v with
  | JNull => "None"
  | JBool true => "True"
  | JBool false => "False"
  | JInt n => Str.of_int n
  | JStr s => "'" +:+ s +:+ "'"
  | JArr l => "[" +:+ Str.join ", " (map py_repr l) +:+ "]"
  | JObj l =>
      "{" +:+
      Str.join ", "
        (map (fun kv => "'" +:+ fst kv +:+ "': " +:+ py_repr (snd kv)) l)
      +:+ "}"
  end.

Definition py_str (v : Json) : string :=
  match v with
  | JStr s => s
  | _ => py_repr v
  end.

Module NotificationProcessor.

Section methods.

Variable settings : Settings.t.

(** [d.get(k)], with [None] for a missing key. *)
Definition get (d : list (string * Json)) (k : string) : Json :=
  default JNull (dict_get k d).

(** The HTML part of the message.  (The bell sign of the heading is
    outside the character range of the model and left out.) *)
Definition html_body (event : Event) (message : Json) (now : datetime)
  : string :=
  "<html><body style='font-family: Arial, sans-serif; padding: 20px;'>"
  +:+ "<h2 style='color: #333;'>Notification</h2>"
  +:+ "<p><strong>User ID:</strong> " +:+ user_id event +:+ "</p>"
  +:+ "<p><strong>Type:</strong> " +:+ EventType_value (event_type event)
  +:+ "</p>"
  +:+ "<p><strong>Message:</strong> " +:+ py_str message +:+ "</p><hr>"
  +:+ "<p style='color: #666; font-size: 12px;'>Event ID: "
  +:+ UUID_str (event_id event) +:+ "<br>Sent at: " +:+ isoformat now
  +:+ "</p></body></html>".

(** [event.payload.get("to_email") or event.payload.get("email")] *)
Definition destination (event : Event) : Json :=
  if truthy (get (payload event) "to_email")
  then get (payload event) "to_email"
  else get (payload event) "email".

(** [event.payload.get("message", "You have a new notification!")] *)
Definition message_of (event : Event) : Json :=
  default (JStr "You have a new notification!")
          (dict_get "message" (payload event)).

(** [event.payload.get("subject", f"Notification: {event.event_type.value}")] *)
Definition subject_of (event : Event) : Json :=
  default (JStr ("Notification: " +:+ EventType_value (event_type event)))
          (dict_get "subject" (payload event)).

(** The message [process] sends for an event. *)
Definition notification (event : Event) (now : datetime) : Email :=
  mkEmail (destination event) (subject_of event)
    ("Notification for " +:+ user_id event +:+ ": " +:+ py_str (message_of event))
    (Some (html_body event (message_of event) now)).

Definition process (event : Event) : M unit :=
  _ ← logger "info" "notification_processing"
        [("event_id", UUID_str (event_id event));
         ("event_type", EventType_value (event_type event));
         ("user_id", user_id event);
         ("payload", py_repr (JObj (payload event)))];
  (* Extract email details from payload *)
  let to_email := destination event in
  let message := message_of event in
  let subject := subject_of event in
  if negb (truthy to_email) then
    _ ← logger "warning" "no_email_in_payload"
          [("event_id", UUID_str (event_id event));
           ("hint", "Add 'to_email' or 'email' to payload to send real emails")];
    logger "info" "notification_logged_only"
      [("event_id", UUID_str (event_id event));
       ("user_id", user_id event);
       ("message", py_str message)]
  (* Check if SMTP is configured *)
  else if String.eqb (Settings.smtp_user settings) EmptyString
          || String.eqb (Settings.smtp_password settings) EmptyString then
    logger "warning" "smtp_not_configured"
      [("event_id", UUID_str (event_id event));
       ("hint", "Set SMTP_USER and SMTP_PASSWORD in .env to send real emails")]
  else
    (* Check daily rate limit *)
    can_send ← EmailRateLimiter.can_send_email settings;
    if negb can_send then
      _ ← logger "warning" "daily_email_limit_reached"
            [("event_id", UUID_str (event_id event));
             ("limit", Str.of_int (Settings.daily_email_limit settings));
             ("to_email", py_str to_email)];
      (* Send alert to admin (once per day) *)
      EmailRateLimiter.check_and_alert settings
      (* Don't fail the event, just skip email *)
    else
      now ← gets utcnow;
      (* Send the REAL email! *)
      _ ← EmailService.send_email to_email subject
            ("Notification for " +:+ user_id event +:+ ": " +:+ py_str message)
            (Some (html_body event message now));
      (* Record email sent for rate limiting *)
      count ← EmailRateLimiter.record_email_sent;
      now' ← gets utcnow;
      logger "info" "notification_email_sent"
        [("event_id", UUID_str (event_id event));
         ("user_id", user_id event);
         ("to_email", py_str to_email);
         ("daily_count", Str.of_int count);
         ("daily_limit", Str.of_int (Settings.daily_email_limit settings));
         ("sent_at", isoformat now')].

End methods.

End NotificationProcessor.

(** How one pass through the body of [while self._running] ends. *)
Inductive LoopControl := Continue | Break.

(** How a bounded run of the loop ends: the loop was left, or it is still
    going when the bound is reached. *)
Inductive LoopStatus := Exited | StillLooping.

Module EventConsumer.

Section methods.

Variable settings : Settings.t.

(** [self.retry_handler = RetryHandler()] *)
Definition retry_handler : RetryHandler.t := RetryHandler.init settings None.

Definition _handle_failure (event : Event) (error : Exn) : M unit :=
  let decision := RetryHandler.should_retry retry_handler event error in
  _ ← RetryLog.log_retry_decision retry_handler event decision error;
  if RetryDecision.should_retry decision then
    (* Requeue with incremented retry count *)
    RedisClient.requeue_event settings event
  else
    (* Move to dead-letter queue *)
    RedisClient.send_to_dlq settings event (RetryDecision.reason decision).

Definition _process_event (event : Event) : M unit :=
  try_except
    (has_processor ← gets processor;
     _ ← (if has_processor : bool
          then NotificationProcessor.process settings event
          else mret tt);
     logger "info" "event_processed"
       [("event_id", UUID_str (event_id event));
        ("event_type", EventType_value (event_type event))])
    is_Exception
    (fun e => _handle_failure event e).

(** The body of the [while] loop of [_consume_loop]. *)
Definition _consume_iteration : M LoopControl :=
  try_except
    (try_except
       ((* Block for events with 1 second timeout to check shutdown *)
        event ← RedisClient.dequeue_event settings 1;
        match event with
        | None => mret Continue
        | Some event => _ ← _process_event event; mret Continue
        end)
       is_CancelledError
       (fun _ => _ ← logger "info" "worker_cancelled" []; mret Break))
    is_Exception
    (fun e =>
       _ ← logger "error" "worker_consume_error"
             [("error", exn_msg e); ("error_type", exn_type e)];
       (* Brief pause before retrying consumption *)
       _ ← sleep 1;
       mret Continue).

(** [while self._running: ...], for at most [fuel] passes. *)
Fixpoint _consume_loop (fuel : nat) : M LoopStatus :=
  match fuel with
  | O => mret StillLooping
  | S fuel =>
      go ← gets running;
      if go : bool then
        control ← _consume_iteration;
        match control with
        | Continue => _consume_loop fuel
        | Break => mret Exited
        end
      else mret Exited
  end.

(** [try: body / finally: final] *)
Definition try_finally {A : Type} (body : M A) (final : M unit) : M A :=
  fun w =>
    match body w with
    | (r, w') =>
        match final w' with
        | (Ok _, w'') => (r, w'')
        | (Raise e, w'') => (Raise e, w'')
        end
    end.

Definition start (fuel : nat) : M LoopStatus :=
  _ ← RedisClient.connect;
  _ ← modify (fun w => set_alert_sent_today false (set_processor true w));
  _ ← modify (set_running true);
  _ ← logger "info" "worker_started"
        [("queue", Settings.redis_queue_name settings);
         ("max_retries", Str.of_int (Settings.max_retries settings));
         ("daily_email_limit", Str.of_int (Settings.daily_email_limit settings))];
  try_finally (_consume_loop fuel)
    (_ ← RedisClient.disconnect; logger "info" "worker_stopped" []).

Definition stop : M unit :=
  _ ← logger "info" "worker_shutdown_requested" [];
  modify (set_running false).

End methods.

End EventConsumer.

(** ** src/app/services/event_publisher.py *)

Record EventCreate := mkEventCreate {
  create_user_id : string;
  create_event_type : EventType;
  create_payload : list (string * Json)
}.

Module EventPublisher.

Section methods.

Variable settings : Settings.t.

(** [Event(event_type=..., user_id=..., payload=...)]: the other fields
    take their defaults. *)
Definition new_event (event_create : EventCreate) : M Event :=
  id ← uuid4;
  now ← gets utcnow;
  mret (mkEvent id (create_event_type event_create)
          (create_user_id event_create) (create_payload event_create)
          now 0 "1.0").

(** [publish], up to the response it builds: the event it has queued. *)
Definition publish (event_create : EventCreate) : M Event :=
  event ← new_event event_create;
  _ ← RedisClient.enqueue_event settings event;
  _ ← logger "info" "event_published"
        [("event_id", UUID_str (event_id event));
         ("user_id", user_id event);
         ("event_type", EventType_value (event_type event))];
  mret event.

End methods.

End EventPublisher.

(** ** The system as a whole *)

(** What can happen next: a producer publishes an event, the worker makes one
    pass through its loop, or a stop signal arrives. *)
Inductive Action :=
| Publish (event_create : EventCreate)
| Iterate
| Stop.

Definition step (settings : Settings.t) (a : Action) (w : World) : World :=
  match a with
  | Publish event_create => snd (EventPublisher.publish settings event_create w)
  | Iterate =>
      if running w then snd (EventConsumer._consume_iteration settings w) else w
  | Stop => snd (EventConsumer.stop w)
  end.

(** The state after a sequence of actions. *)
Definition run (settings : Settings.t) (actions : list Action) (w : World)
  : World :=
  fold_left (fun w a => step settings a w) actions w.

(** ** Vocabulary of the properties *)

(** The next Redis command goes through: the client is connected and the
    script holds no fault for it. *)
Definition redis_ready (w : World) : bool :=
  connected w
  && match redis_faults w with
     | Some _ :: _ => false
     | _ => true
     end.

(** The world once the script has moved past that command. *)
Definition pop_fault (w : World) : World :=
  set_redis_faults (tl (redis_faults w)) w.

(** The next conversation with the SMTP server goes through. *)
Definition smtp_ready (w : World) : bool :=
  match smtp_faults w with
  | Some _ :: _ => false
  | _ => true
  end.

(** The text of a dead-letter record. *)
Definition dlq_entry_text (e : Event) (reason : string) : string :=
  JSON.dumps JSON.python_default
    (JObj [("event", model_dump e); ("reason", JStr reason)]).

(** The clock and the source of identifiers hold values of their types. *)
Definition World_ok (w : World) : bool :=
  forallb UUID_ok (uuids w) && datetime_ok (utcnow w).

(** A request to publish carries a JSON-like dict. *)
Definition Action_ok (a : Action) : bool :=
  match a with
  | Publish event_create => Json_ok (JObj (create_payload event_create))
  | _ => true
  end.

(** The main queue of a world. *)
Definition main_queue (settings : Settings.t) (w : World) : list string :=
  lists w !!! Settings.redis_queue_name settings.

(** The dead-letter queue of a world. *)
Definition dead_letters (settings : Settings.t) (w : World) : list string :=
  lists w !!! Settings.redis_dlq_name settings.

(** A connected worker with empty queues and no fault ahead, at some date. *)
Definition quiet_world : World :=
  {| connected := true;
     lists := ∅;
     keys := ∅;
     expiry := ∅;
     redis_faults := [];
     smtp_faults := [];
     smtp_calls := [];
     outbox := [];
     log := [];
     sleeps := [];
     today := "2024-01-01";
     utcnow := mkDatetime 2024 1 1 12 0 0 0;
     uuids := [];
     alert_sent_today := false;
     running := true;
     processor := true |}.

(** An event for the examples. *)
Definition sample_event : Event :=
  mkEvent (mkUUID 1 2 3 4 5) USER_NOTIFICATION "test-user"
    [("to_email", JStr "someone@example.org"); ("message", JStr "Hello")]
    (mkDatetime 2024 1 1 11 59 58 250000) 0 "1.0".

(** What processing an event leaves alone: the lists of the queue, the
    clocks, the source of identifiers and the state of the consumer loop. *)
Definition outside_queues (w w' : World) : Prop :=
  lists w' = lists w /\ uuids w' = uuids w /\ utcnow w' = utcnow w
  /\ today w' = today w /\ running w' = running w
  /\ connected w' = connected w /\ processor w' = processor w
  /\ sleeps w' = sleeps w.

(** A computation keeps a relation between the world it starts in and the
    world it ends in, however it ends. *)
Definition keeps {A : Type} (R : World -> World -> Prop) (m : M A) : Prop :=
  forall w, R w (snd (m w)).

(** A counter that reads [n]: it is absent and [n] is 0, or it holds the
    text of [n], a count that can still grow. *)
Definition counter_reads (w : World) (n : Z) : Prop :=
  (keys w !! ("email:count:" +:+ today w) = None /\ n = 0)
  \/ (keys w !! ("email:count:" +:+ today w) = Some (Str.of_int n)
      /\ 0 <= n < 2 ^ 63 - 1).

(** SMTP credentials are set. *)
Definition smtp_configured (settings : Settings.t) : bool :=
  negb (String.eqb (Settings.smtp_user settings) EmptyString
        || String.eqb (Settings.smtp_password settings) EmptyString).

(** Settings with SMTP credentials and an alert destination. *)
Definition configured_settings : Settings.t :=
  {| Settings.redis_queue_name := "events:queue";
     Settings.redis_dlq_name := "events:dlq";
     Settings.max_retries := 3;
     Settings.retry_delay_seconds := 1;
     Settings.smtp_user := "worker@example.org";
     Settings.smtp_password := "app-password";
     Settings.daily_email_limit := 20;
     Settings.alert_email := "admin@example.org" |}.

(** The same, without an alert destination (the default for it). *)
Definition no_alert_settings : Settings.t :=
  {| Settings.redis_queue_name := "events:queue";
     Settings.redis_dlq_name := "events:dlq";
     Settings.max_retries := 3;
     Settings.retry_delay_seconds := 1;
     Settings.smtp_user := "worker@example.org";
     Settings.smtp_password := "app-password";
     Settings.daily_email_limit := 20;
     Settings.alert_email := EmptyString |}.

(** The key of today's counter, and a counter that holds [n]. *)
Definition count_key (w : World) : string := "email:count:" +:+ today w.

Definition stored_count (w : World) (n : Z) : Prop :=
  keys w !! count_key w = Some (Str.of_int n).

(** The Redis server answers every command from now on. *)
Definition redis_healthy (w : World) : Prop :=
  connected w = true /\ redis_faults w = [].

(** The alert a rate limiter sends. *)
Definition alert_of (settings : Settings.t) (count : Z) : Email :=
  mkEmail (JStr (Settings.alert_email settings))
    (JStr "[EventFlow] Daily Email Limit Reached")
    (EmailRateLimiter.alert_body settings count) None.

(** The world after [n] calls of [check_and_alert] in a row. *)
Fixpoint alerts (settings : Settings.t) (n : nat) (w : World) : World :=
  match n with
  | O => w
  | S n => alerts settings n (snd (EmailRateLimiter.check_and_alert settings w))
  end.

(** What reading the queue leaves alone: the state of the consumer loop. *)
Definition loop_state (w w' : World) : Prop :=
  running w' = running w /\ connected w' = connected w
  /\ sleeps w' = sleeps w /\ processor w' = processor w.

(** What a call to the counter store leaves alone: the mail that was sent
    and the flag of the rate limiter. *)
Definition mail_state (w w' : World) : Prop :=
  smtp_calls w' = smtp_calls w /\ outbox w' = outbox w
  /\ smtp_faults w' = smtp_faults w
  /\ alert_sent_today w' = alert_sent_today w.

(** A record the worker or a producer has written: the record of an event
    whose [retry_count] is at most [bound], or a dead-letter record. *)
Definition good_record (bound : Z) (r : string) : Prop :=
  (exists e, Event_ok e = true /\ retry_count e <= bound
             /\ r = model_dump_json e)
  \/ (exists e reason, Event_ok e = true /\ r = dlq_entry_text e reason).

(** The invariant of the main queue. *)
Definition queue_bounded (settings : Settings.t) (w : World) : Prop :=
  World_ok w = true
  /\ Forall (good_record (Settings.max_retries settings)) (main_queue settings w).

Definition keeps_bounded (settings : Settings.t) (w w' : World) : Prop :=
  queue_bounded settings w -> queue_bounded settings w'.

(** Between two worlds the main queue has gained only records that
    satisfy [P]. *)
Definition adds_only (settings : Settings.t) (P : string -> Prop)
    (w w' : World) : Prop :=
  forall r, In r (main_queue settings w') -> In r (main_queue settings w) \/ P r.

(** A queue the producers have filled and the worker has not touched. *)
Definition fresh_queue (settings : Settings.t) (events : list Event) (w : World)
  : Prop :=
  main_queue settings w = map model_dump_json events
  /\ forallb (fun e => Event_ok e && (retry_count e =? 0)) events = true.

(** ** src/app/models/event.py: the response of the API *)

Inductive EventStatus :=
| QUEUED
| PROCESSING
| COMPLETED
| FAILED
| DEAD_LETTERED.

Record EventResponse := mkEventResponse {
  response_event_id : string;
  response_status : EventStatus;
  queued_at : datetime
}.

(** [Event.to_response] *)
Definition to_response (self : Event) : EventResponse :=
  mkEventResponse (UUID_str (event_id self)) QUEUED (created_at self).

(** ** src/app/services/redis_client.py: the health check and the lifespan *)

Module RedisHealth.

(** [PING] *)
Definition ping : M bool := RedisClient.command (mret true).

(** [health_check]: [True] when the ping goes through, [False] on any
    exception, the one of a client that is not connected included. *)
Definition health_check : M bool :=
  try_except (_ ← ping; mret true) is_Exception (fun _ => mret false).

(** [redis_lifespan], around the body of the [async with] block. *)
Definition redis_lifespan {A : Type} (body : M A) : M A :=
  _ ← RedisClient.connect;
  EventConsumer.try_finally body RedisClient.disconnect.

End RedisHealth.

(** ** src/app/api/events.py and the endpoints of src/app/main.py *)

Module API.

Section routes.

Variable settings : Settings.t.

(** [HTTPException(status_code=..., detail=...)]; its text is the status
    code and the detail. *)
Definition HTTPException (status_code : Z) (detail : string) : Exn :=
  mkExn StdException "HTTPException" (Str.of_int status_code +:+ ": " +:+ detail).

(** [create_event]: the response of the publisher, or a 503 on any
    exception. *)
Definition create_event (event_create : EventCreate) : M EventResponse :=
  try_except
    (event ← EventPublisher.publish settings event_create;
     let response := to_response event in
     _ ← logger "info" "api_event_created"
           [("event_id", response_event_id response);
            ("user_id", create_user_id event_create)];
     mret response)
    is_Exception
    (fun e =>
       _ ← logger "error" "api_event_creation_failed"
             [("error", exn_msg e);
              ("user_id", create_user_id event_create)];
       raise (HTTPException 503 "Failed to queue event. Please try again.")).

(** [GET /health] *)
Definition health_check : M (list (string * string)) :=
  redis_healthy ← RedisHealth.health_check;
  mret [("status", if redis_healthy : bool then "healthy" else "degraded");
        ("redis", if redis_healthy : bool then "connected" else "disconnected")].

(** [GET /stats] *)
Definition queue_stats : M (list (string * Z)) :=
  queue_length ← RedisClient.get_queue_length settings;
  dlq_length ← RedisClient.get_dlq_length settings;
  mret [("queue_length", queue_length); ("dlq_length", dlq_length)].

End routes.

End API.

(** ** More vocabulary *)

(** [enqueue_event] for each event of a list, in order. *)
Fixpoint enqueue_all (settings : Settings.t) (events : list Event) : M unit :=
  match events with
  | [] => mret tt
  | e :: rest =>
      _ ← RedisClient.enqueue_event settings e; enqueue_all settings rest
  end.

(** [n] calls of [dequeue_event] in a row, with the events they return. *)
Fixpoint drain (settings : Settings.t) (timeout : Z) (n : nat)
  : M (list Event) :=
  match n with
  | O => mret []
  | S n =>
      event ← RedisClient.dequeue_event settings timeout;
      later ← drain settings timeout n;
      mret (match event with Some e => e :: later | None => later end)
  end.

(** The world after [n] calls of [record_email_sent] in a row. *)
Fixpoint records (n : nat) (w : World) : World :=
  match n with
  | O => w
  | S n => records n (snd (EmailRateLimiter.record_email_sent w))
  end.

(** The world after the processor has been given each event of a list. *)
Definition process_each (settings : Settings.t) (events : list Event)
    (w : World) : World :=
  fold_left (fun w e => snd (NotificationProcessor.process settings e w))
    events w.

(** What a computation leaves alone when it talks to a Redis server that
    answers: the connection, the date, and the script of faults, which
    stays empty. *)
Definition store_steady (w w' : World) : Prop :=
  connected w' = connected w /\ today w' = today w
  /\ (redis_faults w = [] -> redis_faults w' = []).

(** The event after [n] failed attempts. *)
Definition retried (n : nat) (e : Event) : Event :=
  Nat.iter n increment_retry e.

(** The error of a client that is not connected. *)
Definition not_connected : Exn :=
  mkExn StdException "RuntimeError"
    "Redis client not connected. Call connect() first.".

(** What sending mail leaves alone: the counters of the store. *)
Definition same_keys (w w' : World) : Prop := keys w' = keys w.

(** The mail that was delivered, set against the counter of the day and
    the one alert the rate limiter may send. *)
Definition mail_balance (w : World) (count : Z) : Z :=
  Z.of_nat (length (outbox w)) - count
  - (if alert_sent_today w then 1 else 0).
(** * Properties *)

(** ** Strings *)

Lemma str_app_cons (c : ascii) (s t : string) :
  String c s +:+ t = String c (s +:+ t).
Proof. reflexivity. Qed.

Lemma str_app_nil_l (s : string) : EmptyString +:+ s = s.
Proof. reflexivity. Qed.

Lemma str_app_nil_r (s : string) : s +:+ EmptyString = s.
Proof.
  induction s as [|c s IH]; [reflexivity|]. now rewrite str_app_cons, IH.
Qed.

Lemma str_app_assoc (a b c : string) : (a +:+ b) +:+ c = a +:+ (b +:+ c).
Proof.
  induction a as [|x a IH]; [reflexivity|]. now rewrite !str_app_cons, IH.
Qed.

Lemma str_length_app (a b : string) :
  String.length (a +:+ b) = (String.length a + String.length b)%nat.
Proof.
  induction a as [|x a IH]; [reflexivity|].
  rewrite str_app_cons. simpl. now rewrite IH.
Qed.

Lemma prefix_app (p t : string) : String.prefix p (p +:+ t) = true.
Proof.
  induction p as [|c p IH].
  - now destruct t.
  - rewrite str_app_cons. simpl.
    destruct (ascii_dec c c); [exact IH | congruence].
Qed.

Lemma prefix_inv (p s : string) :
  String.prefix p s = true -> exists t, s = p +:+ t.
Proof.
  revert s. induction p as [|c p IH]; intros s H.
  - now exists s.
  - destruct s as [|d s]; simpl in H; [discriminate|].
    destruct (ascii_dec c d) as [->|]; [|discriminate].
    destruct (IH _ H) as [t ->]. now exists t.
Qed.

Lemma contains_nil (needle : string) :
  Str.contains needle EmptyString
  = if String.prefix needle EmptyString then true else false.
Proof. reflexivity. Qed.

Lemma contains_cons (needle : string) (c : ascii) (hay : string) :
  Str.contains needle (String c hay)
  = if String.prefix needle (String c hay) then true
    else Str.contains needle hay.
Proof. reflexivity. Qed.

Lemma contains_occurs (needle hay : string) :
  Str.contains needle hay = true <-> Str.occurs needle hay.
Proof.
  split.
  - induction hay as [|c hay IH].
    + rewrite contains_nil.
      destruct (String.prefix needle EmptyString) eqn:E; [|discriminate].
      intros _. destruct (prefix_inv _ _ E) as [t Ht].
      exists EmptyString, t. exact Ht.
    + rewrite contains_cons.
      destruct (String.prefix needle (String c hay)) eqn:E.
      * intros _. destruct (prefix_inv _ _ E) as [t Ht].
        exists EmptyString, t. exact Ht.
      * intros H. destruct (IH H) as (pre & post & ->).
        now exists (String c pre), post.
  - intros (pre & post & ->).
    induction pre as [|c pre IH].
    + rewrite str_app_nil_l.
      destruct (needle +:+ post) eqn:E.
      * rewrite contains_nil, <- E, prefix_app. reflexivity.
      * rewrite contains_cons, <- E, prefix_app. reflexivity.
    + rewrite str_app_cons, contains_cons, IH.
      now destruct (String.prefix needle _).
Qed.

Lemma lower_app (a b : string) :
  Str.lower (a +:+ b) = Str.lower a +:+ Str.lower b.
Proof.
  induction a as [|c a IH]; [reflexivity|].
  rewrite str_app_cons. simpl. now rewrite IH, str_app_cons.
Qed.

(** [lower] works character by character, so a split of the lowered text is
    the image of a split of the text. *)
Lemma lower_split (s a b : string) :
  Str.lower s = a +:+ b ->
  exists s1 s2, s = s1 +:+ s2 /\ Str.lower s1 = a /\ Str.lower s2 = b.
Proof.
  revert s. induction a as [|c a IH]; intros s H.
  - exists EmptyString, s. now split.
  - destruct s as [|d s]; [discriminate|].
    rewrite str_app_cons in H. simpl in H.
    injection H as Hc Hs. destruct (IH _ Hs) as (s1 & s2 & -> & H1 & H2).
    exists (String d s1), s2. simpl. now rewrite Hc, H1.
Qed.

Lemma lower_char_idem (c : ascii) :
  Str.lower_char (Str.lower_char c) = Str.lower_char c.
Proof. destruct c as [[] [] [] [] [] [] [] []]; reflexivity. Qed.

Lemma lower_idem (s : string) : Str.lower (Str.lower s) = Str.lower s.
Proof.
  induction s as [|c s IH]; simpl; [reflexivity|].
  now rewrite lower_char_idem, IH.
Qed.

(** The test the classifier runs, [indicator in str(error).lower()], decides
    the case-insensitive occurrence of the indicator. *)
Lemma contains_lower_ci (needle hay : string) :
  Str.contains (Str.lower needle) (Str.lower hay) = true
  <-> Str.occurs_ci needle hay.
Proof.
  rewrite contains_occurs. split.
  - intros (pre & post & H).
    destruct (lower_split _ _ _ H) as (s1 & s23 & -> & H1 & H23).
    destruct (lower_split _ _ _ H23) as (s2 & s3 & -> & H2 & H3).
    now exists s1, s2, s3.
  - intros (pre & mid & post & -> & H).
    exists (Str.lower pre), (Str.lower post).
    now rewrite !lower_app, H.
Qed.

#[global] Instance occurs_ci_dec (needle hay : string) :
  Decision (Str.occurs_ci needle hay).
Proof.
  destruct (Str.contains (Str.lower needle) (Str.lower hay)) eqn:E.
  - left. now apply contains_lower_ci.
  - right. intros H. apply contains_lower_ci in H. congruence.
Defined.

Lemma not_occurs_ci (needle hay : string) :
  Str.contains (Str.lower needle) (Str.lower hay) = false ->
  ~ Str.occurs_ci needle hay.
Proof. intros E H. apply contains_lower_ci in H. congruence. Qed.

Lemma occurs_occurs_ci (needle hay : string) :
  Str.occurs needle hay -> Str.occurs_ci needle hay.
Proof. intros (pre & post & ->). now exists pre, needle, post. Qed.

(** ** The failure classifier *)

Example classify_connection_timeout :
  RetryHandler.classify_failure
    (mkExn StdException "ConnectionError" "Connection timeout occurred")
  = TRANSIENT.
Proof. reflexivity. Qed.

Example classify_network :
  RetryHandler.classify_failure (mkExn StdException "OSError" "Network unreachable")
  = TRANSIENT.
Proof. reflexivity. Qed.

Example classify_invalid :
  RetryHandler.classify_failure (mkExn StdException "ValueError" "Invalid payload format")
  = PERMANENT.
Proof. reflexivity. Qed.

Example classify_not_found :
  RetryHandler.classify_failure (mkExn StdException "Exception" "User not found")
  = PERMANENT.
Proof. reflexivity. Qed.

Example classify_unknown :
  RetryHandler.classify_failure
    (mkExn StdException "Exception" "Something unexpected happened")
  = UNKNOWN.
Proof. reflexivity. Qed.

(** The indicators are written in lower case. *)
Lemma indicators_lower (indicator : string) :
  In indicator (RetryHandler.transient_indicators ++ RetryHandler.permanent_indicators) ->
  Str.lower indicator = indicator.
Proof.
  intros H. simpl in H.
  repeat (destruct H as [<-|H]; [reflexivity|]). destruct H.
Qed.

Lemma existsb_contains (indicators : list string) (message : string) :
  existsb (fun indicator => Str.contains indicator (Str.lower message)) indicators = true
  <-> exists indicator, In indicator indicators
        /\ Str.contains indicator (Str.lower message) = true.
Proof. apply existsb_exists. Qed.

Lemma transient_test (message : string) :
  existsb (fun indicator => Str.contains indicator (Str.lower message))
    RetryHandler.transient_indicators = true
  <-> exists indicator, In indicator RetryHandler.transient_indicators
        /\ Str.occurs_ci indicator message.
Proof.
  rewrite existsb_contains. split; intros (i & Hi & H); exists i; split; trivial.
  - apply contains_lower_ci. rewrite indicators_lower; [exact H|].
    apply in_or_app. now left.
  - apply contains_lower_ci in H. rewrite indicators_lower in H; [exact H|].
    apply in_or_app. now left.
Qed.

Lemma permanent_test (message : string) :
  existsb (fun indicator => Str.contains indicator (Str.lower message))
    RetryHandler.permanent_indicators = true
  <-> exists indicator, In indicator RetryHandler.permanent_indicators
        /\ Str.occurs_ci indicator message.
Proof.
  rewrite existsb_contains. split; intros (i & Hi & H); exists i; split; trivial.
  - apply contains_lower_ci. rewrite indicators_lower; [exact H|].
    apply in_or_app. now right.
  - apply contains_lower_ci in H. rewrite indicators_lower in H; [exact H|].
    apply in_or_app. now right.
Qed.

(** C3.  An error whose message contains one of the transient indicators,
    whatever the case of its letters, is classified TRANSIENT, whatever the
    kind of the error. *)
Theorem classify_transient_message (error : Exn) (indicator : string) :
  In indicator RetryHandler.transient_indicators ->
  Str.occurs_ci indicator (exn_msg error) ->
  RetryHandler.classify_failure error = TRANSIENT.
Proof.
  intros Hin Hocc. unfold RetryHandler.classify_failure.
  replace (existsb _ RetryHandler.transient_indicators) with true; [reflexivity|].
  symmetry. apply transient_test. now exists indicator.
Qed.

Lemma classify_transient_message_witness :
  In "timeout" RetryHandler.transient_indicators
  /\ Str.occurs_ci "timeout" "Gateway TimeOut while sending"
  /\ RetryHandler.classify_failure
       (mkExn StdException "ValueError" "Gateway TimeOut while sending")
     = TRANSIENT.
Proof.
  assert (H1 : In "timeout" RetryHandler.transient_indicators)
    by (simpl; tauto).
  assert (H2 : Str.occurs_ci "timeout" "Gateway TimeOut while sending")
    by (exists "Gateway ", "TimeOut", " while sending"; split; reflexivity).
  split; [exact H1 | split; [exact H2|]].
  exact (classify_transient_message
           (mkExn StdException "ValueError" "Gateway TimeOut while sending")
           "timeout" H1 H2).
Defined.

(** C4.  An error whose message contains none of the transient indicators
    but one of the permanent indicators is classified PERMANENT; the message
    is looked at before the kind, so the kind of the error (a transient one
    included) plays no part. *)
Theorem classify_permanent_message (error : Exn) (indicator : string) :
  (forall t, In t RetryHandler.transient_indicators ->
             ~ Str.occurs_ci t (exn_msg error)) ->
  In indicator RetryHandler.permanent_indicators ->
  Str.occurs_ci indicator (exn_msg error) ->
  RetryHandler.classify_failure error = PERMANENT
  /\ forall kind base,
       RetryHandler.classify_failure (mkExn base kind (exn_msg error)) = PERMANENT.
Proof.
  intros Hnone Hin Hocc.
  assert (Ht : existsb (fun i => Str.contains i (Str.lower (exn_msg error)))
                 RetryHandler.transient_indicators = false).
  { destruct (existsb _ RetryHandler.transient_indicators) eqn:E; [|reflexivity].
    apply transient_test in E. destruct E as (t & Ht & Hc).
    now destruct (Hnone t Ht). }
  assert (Hp : existsb (fun i => Str.contains i (Str.lower (exn_msg error)))
                 RetryHandler.permanent_indicators = true).
  { apply permanent_test. now exists indicator. }
  split; [|intros kind base]; unfold RetryHandler.classify_failure; simpl exn_msg;
    now rewrite Ht, Hp.
Qed.

Lemma classify_permanent_message_witness :
  RetryHandler.classify_failure
    (mkExn StdException "ConnectionError" "Invalid payload format") = PERMANENT
  /\ forall kind base,
       RetryHandler.classify_failure (mkExn base kind "Invalid payload format")
       = PERMANENT.
Proof.
  apply (classify_permanent_message
           (mkExn StdException "ConnectionError" "Invalid payload format")
           "invalid").
  - intros t Ht. simpl in Ht.
    repeat (destruct Ht as [<-|Ht]; [apply not_occurs_ci; reflexivity|]).
    destruct Ht.
  - simpl; tauto.
  - exists EmptyString, "Invalid", " payload format". split; reflexivity.
Defined.

(** ** The retry policy *)

Example should_retry_first_attempt :
  RetryHandler.should_retry (RetryHandler.init Settings.default (Some 3))
    (mkEvent (mkUUID 1 2 3 4 5) USER_NOTIFICATION "test-user" []
       (mkDatetime 2024 1 1 0 0 0 0) 0 "1.0")
    (mkExn StdException "ConnectionError" "timeout")
  = RetryDecision.mk true "transient failure, retry 1/3".
Proof. reflexivity. Qed.

Example should_retry_at_max :
  RetryHandler.should_retry (RetryHandler.init Settings.default (Some 3))
    (mkEvent (mkUUID 1 2 3 4 5) USER_NOTIFICATION "test-user" []
       (mkDatetime 2024 1 1 0 0 0 0) 3 "1.0")
    (mkExn StdException "ConnectionError" "timeout")
  = RetryDecision.mk false "Max retries (3) exceeded".
Proof. reflexivity. Qed.

Example should_retry_permanent :
  RetryHandler.should_retry (RetryHandler.init Settings.default (Some 3))
    (mkEvent (mkUUID 1 2 3 4 5) USER_NOTIFICATION "test-user" []
       (mkDatetime 2024 1 1 0 0 0 0) 0 "1.0")
    (mkExn StdException "ValueError" "invalid data")
  = RetryDecision.mk false "Permanent failure: ValueError: invalid data".
Proof. reflexivity. Qed.

(** The decision is positive exactly for an error that is not permanent on
    an event that has retries left. *)
Lemma should_retry_true_iff (self : RetryHandler.t) (event : Event) (error : Exn) :
  RetryDecision.should_retry (RetryHandler.should_retry self event error) = true
  <-> RetryHandler.classify_failure error <> PERMANENT
      /\ retry_count event < RetryHandler.max_retries self.
Proof.
  unfold RetryHandler.should_retry.
  destruct (decide (RetryHandler.classify_failure error = PERMANENT)) as [E|E];
    simpl.
  - split; [discriminate | tauto].
  - destruct (Z.geb_spec (retry_count event) (RetryHandler.max_retries self));
      simpl; split; try discriminate; try tauto; try lia.
Qed.

(** C2.  A PERMANENT error is never retried, on any event (the attempt count
    is not looked at).  Any other error is refused exactly when the event's
    [retry_count] has reached [max_retries], with the reason
    "Max retries (N) exceeded", and is retried otherwise, with a reason that
    names the classification and the attempt [retry_count + 1] of
    [max_retries].  A handler built without an argument takes
    [max_retries] from the settings, 3 by default. *)
Theorem should_retry_decision (self : RetryHandler.t) (event : Event) (error : Exn) :
  let decision := RetryHandler.should_retry self event error in
  let failure_type := RetryHandler.classify_failure error in
  let n := RetryHandler.max_retries self in
  (failure_type = PERMANENT ->
     RetryDecision.should_retry decision = false
     /\ forall event',
          RetryHandler.should_retry self event' error = decision)
  /\ (failure_type <> PERMANENT ->
        (RetryDecision.should_retry decision = false <-> retry_count event >= n)
        /\ (retry_count event >= n ->
              RetryDecision.reason decision
              = "Max retries (" +:+ Str.of_int n +:+ ") exceeded")
        /\ (retry_count event < n ->
              RetryDecision.should_retry decision = true
              /\ (failure_type = TRANSIENT \/ failure_type = UNKNOWN)
              /\ RetryDecision.reason decision
                 = FailureType_value failure_type +:+ " failure, retry "
                   +:+ Str.of_int (retry_count event + 1) +:+ "/"
                   +:+ Str.of_int n))
  /\ RetryHandler.max_retries (RetryHandler.init Settings.default None) = 3
  /\ "Max retries (" +:+ Str.of_int 3 +:+ ") exceeded" = "Max retries (3) exceeded".
Proof.
  cbv zeta. unfold RetryHandler.should_retry.
  split; [|split; [|split; reflexivity]].
  - intros E. rewrite E. simpl. split; [reflexivity|].
    intros event'. reflexivity.
  - intros E.
    destruct (decide (RetryHandler.classify_failure error = PERMANENT));
      [contradiction|].
    destruct (Z.geb_spec (retry_count event) (RetryHandler.max_retries self));
      simpl; repeat split; intros; try lia; try discriminate; try reflexivity.
    destruct (RetryHandler.classify_failure error); auto; contradiction.
Qed.

Lemma should_retry_decision_witness :
  let self := RetryHandler.init Settings.default None in
  let event := mkEvent (mkUUID 1 2 3 4 5) USER_NOTIFICATION "test-user" []
                 (mkDatetime 2024 1 1 0 0 0 0) 2 "1.0" in
  let error := mkExn StdException "ConnectionError" "connection timeout" in
  RetryHandler.classify_failure error <> PERMANENT
  /\ retry_count event < RetryHandler.max_retries self
  /\ RetryDecision.should_retry (RetryHandler.should_retry self event error)
     = true
  /\ RetryDecision.reason (RetryHandler.should_retry self event error)
     = "transient failure, retry 3/3".
Proof.
  cbv zeta.
  pose proof (should_retry_decision
                (RetryHandler.init Settings.default None)
                (mkEvent (mkUUID 1 2 3 4 5) USER_NOTIFICATION "test-user" []
                   (mkDatetime 2024 1 1 0 0 0 0) 2 "1.0")
                (mkExn StdException "ConnectionError" "connection timeout"))
    as (_ & H & _).
  assert (E : RetryHandler.classify_failure
                (mkExn StdException "ConnectionError" "connection timeout")
              <> PERMANENT) by (vm_compute; discriminate).
  destruct (H E) as (_ & _ & H3).
  assert (L : 2 < RetryHandler.max_retries (RetryHandler.init Settings.default None))
    by (vm_compute; reflexivity).
  destruct (H3 L) as (H4 & _ & H5).
  split; [exact E | split; [exact L | split; [exact H4 | exact H5]]].
Defined.

(** ** Events *)

Lemma heap_fresh (h : gmap positive Event) (l : positive) (e : Event) :
  h !! l = Some e -> fresh (dom h) <> l.
Proof.
  intros H E. apply (is_fresh (dom h)). rewrite E.
  apply elem_of_dom. now exists e.
Qed.

(** C5.  [increment_retry] returns an event whose [retry_count] is one more
    and whose other fields are those of the original.  On the store of
    objects, the result is a new object and the original one still holds
    what it held, as does every other object. *)
Theorem increment_retry_frame (self : Event) :
  retry_count (increment_retry self) = retry_count self + 1
  /\ event_id (increment_retry self) = event_id self
  /\ event_type (increment_retry self) = event_type self
  /\ user_id (increment_retry self) = user_id self
  /\ payload (increment_retry self) = payload self
  /\ created_at (increment_retry self) = created_at self
  /\ version (increment_retry self) = version self
  /\ forall (h : gmap positive Event) (original : Heap.ref),
       h !! original = Some self ->
       exists updated h',
         Heap.increment_retry original h = Some (updated, h')
         /\ updated <> original
         /\ h' !! original = Some self
         /\ h' !! updated = Some (increment_retry self)
         /\ forall other, other <> updated -> h' !! other = h !! other.
Proof.
  repeat (split; [reflexivity|]).
  intros h original H. unfold Heap.increment_retry. rewrite H.
  pose proof (heap_fresh h original self H) as F.
  eexists _, _. split; [reflexivity|]. split; [exact F|].
  split; [|split].
  - rewrite lookup_insert_ne; [exact H | exact F].
  - apply lookup_insert_eq.
  - intros other Ho. apply lookup_insert_ne. congruence.
Qed.

Lemma increment_retry_frame_witness :
  let self := mkEvent (mkUUID 1 2 3 4 5) SYSTEM_ALERT "user-456"
                [("key", JStr "value")] (mkDatetime 2024 1 1 0 0 0 0) 2 "1.0" in
  let h : gmap positive Event := {[ 7%positive := self ]} in
  h !! 7%positive = Some self
  /\ retry_count (increment_retry self) = 3
  /\ exists updated h',
       Heap.increment_retry 7%positive h = Some (updated, h')
       /\ updated <> 7%positive
       /\ h' !! 7%positive = Some self.
Proof.
  cbv zeta.
  set (self := mkEvent (mkUUID 1 2 3 4 5) SYSTEM_ALERT "user-456"
                 [("key", JStr "value")] (mkDatetime 2024 1 1 0 0 0 0) 2 "1.0").
  assert (H : ({[ 7%positive := self ]} : gmap positive Event) !! 7%positive
              = Some self) by apply lookup_singleton_eq.
  destruct (increment_retry_frame self) as (H1 & _ & _ & _ & _ & _ & _ & H8).
  destruct (H8 _ _ H) as (updated & h' & E1 & E2 & E3 & _).
  split; [exact H | split; [exact H1|]].
  exists updated, h'. auto.
Defined.

(** ** Fixed-width numbers, identifiers and timestamps *)

Lemma digit_val_char (d : N) :
  (d < 16)%N -> Str.digit_val (Str.digit_char d) = Some d.
Proof.
  intros H. rewrite <- (N2Nat.id d).
  assert (L : (N.to_nat d < 16)%nat) by lia. clear H.
  generalize dependent (N.to_nat d). clear d. intros n L.
  do 16 (destruct n as [|n]; [reflexivity|]). lia.
Qed.

(** Reading back what [fixed] printed gives the number, whatever follows. *)
Lemma read_fixed_fixed (base : N) (width : nat) :
  (2 <= base <= 16)%N ->
  forall (n acc : N) (rest : string),
    (n < base ^ N.of_nat width)%N ->
    Str.read_fixed base width (Str.fixed base width n +:+ rest) acc
    = Some ((acc * base ^ N.of_nat width + n)%N, rest).
Proof.
  intros Hb. induction width as [|w IH]; intros n acc rest Hn.
  - simpl in *. rewrite str_app_nil_l. f_equal. f_equal. lia.
  - cbn [Str.fixed]. rewrite str_app_cons. cbn [Str.read_fixed].
    assert (Hp : (0 < base ^ N.of_nat w)%N) by (apply N.neq_0_lt_0, N.pow_nonzero; lia).
    assert (Hq : (n / base ^ N.of_nat w < base)%N).
    { apply N.Div0.div_lt_upper_bound.
      replace (N.of_nat (S w)) with (N.succ (N.of_nat w)) in Hn by lia.
      rewrite N.pow_succ_r' in Hn. lia. }
    rewrite digit_val_char by lia.
    destruct (N.ltb_spec (n / base ^ N.of_nat w) base) as [_|]; [|lia].
    rewrite IH by (apply N.mod_upper_bound; lia).
    f_equal. f_equal.
    replace (N.of_nat (S w)) with (N.succ (N.of_nat w)) by lia.
    rewrite N.pow_succ_r'.
    pose proof (N.div_mod n (base ^ N.of_nat w) ltac:(lia)) as E.
    nia.
Qed.

Lemma expect_app (c : ascii) (rest : string) :
  Str.expect c (String c rest) = Some rest.
Proof. unfold Str.expect. now rewrite Ascii.eqb_refl. Qed.

Lemma read_fixed_bound (base : N) (width : nat) :
  forall (s rest : string) (acc n : N),
    Str.read_fixed base width s acc = Some (n, rest) ->
    (n < (acc + 1) * base ^ N.of_nat width)%N.
Proof.
  induction width as [|w IH]; intros s rest acc n H.
  - simpl in H. injection H as <- _. simpl. lia.
  - cbn [Str.read_fixed] in H. destruct s as [|c r]; [discriminate|].
    destruct (Str.digit_val c) as [d|]; [|discriminate].
    destruct (N.ltb_spec d base) as [L|]; [|discriminate].
    apply IH in H.
    replace (N.of_nat (S w)) with (N.succ (N.of_nat w)) by lia.
    rewrite N.pow_succ_r'. nia.
Qed.

Lemma read_fixed_fixed0 (base : N) (width : nat) (n : N) (rest : string) :
  (2 <= base <= 16)%N ->
  (n < base ^ N.of_nat width)%N ->
  Str.read_fixed base width (Str.fixed base width n +:+ rest) 0
  = Some (n, rest).
Proof. intros Hb Hn. now rewrite read_fixed_fixed. Qed.

Lemma expect_nil (c : ascii) : Str.expect c EmptyString = None.
Proof. reflexivity. Qed.

Lemma expect_ne (c d : ascii) (rest : string) :
  Ascii.eqb c d = false -> Str.expect c (String d rest) = None.
Proof. intros H. unfold Str.expect. now rewrite H. Qed.

Lemma expect_lit (c : ascii) (rest : string) :
  Str.expect c (String c EmptyString +:+ rest) = Some rest.
Proof. apply expect_app. Qed.

(** *** UUID *)

#[local] Opaque Str.fixed Str.read_fixed Str.expect.

Lemma UUID_roundtrip (u : UUID) :
  UUID_ok u = true -> UUID_parse (UUID_str u) = Some u.
Proof.
  destruct u as [a b c d e]. unfold UUID_ok, UUID_str, UUID_parse. simpl.
  rewrite !andb_true_iff, !N.ltb_lt. intros ((((Ha & Hb) & Hc) & Hd) & He).
  do 4 (rewrite read_fixed_fixed0 by (simpl; lia); simpl;
        rewrite expect_lit; simpl).
  rewrite <- (str_app_nil_r (Str.fixed 16 12 e)).
  rewrite read_fixed_fixed0 by (simpl; lia). reflexivity.
Qed.

Lemma UUID_parse_ok (s : string) (u : UUID) :
  UUID_parse s = Some u -> UUID_ok u = true.
Proof.
  unfold UUID_parse. intros H.
  destruct (Str.read_fixed 16 8 s 0) as [[a s1]|] eqn:E1; [|discriminate].
  simpl in H. destruct (Str.expect "-" s1) as [s1'|]; [|discriminate]. simpl in H.
  destruct (Str.read_fixed 16 4 s1' 0) as [[b s2]|] eqn:E2; [|discriminate].
  simpl in H. destruct (Str.expect "-" s2) as [s2'|]; [|discriminate]. simpl in H.
  destruct (Str.read_fixed 16 4 s2' 0) as [[c s3]|] eqn:E3; [|discriminate].
  simpl in H. destruct (Str.expect "-" s3) as [s3'|]; [|discriminate]. simpl in H.
  destruct (Str.read_fixed 16 4 s3' 0) as [[d s4]|] eqn:E4; [|discriminate].
  simpl in H. destruct (Str.expect "-" s4) as [s4'|]; [|discriminate]. simpl in H.
  destruct (Str.read_fixed 16 12 s4' 0) as [[e s5]|] eqn:E5; [|discriminate].
  simpl in H. destruct s5; [|discriminate]. injection H as <-.
  apply read_fixed_bound in E1, E2, E3, E4, E5.
  unfold UUID_ok. simpl in *.
  rewrite !andb_true_iff, !N.ltb_lt. lia.
Qed.

(** *** datetime *)

Lemma datetime_roundtrip (d : datetime) :
  datetime_ok d = true -> datetime_parse (isoformat d) = Some d.
Proof.
  intros Hok. pose proof Hok as H.
  destruct d as [y mo da h mi se us]. unfold datetime_ok in H. simpl in H.
  rewrite !andb_true_iff, !N.ltb_lt, !N.leb_le in H.
  destruct H as (((((((((Hy1 & Hy2) & Hm1) & Hm2) & Hd1) & Hd2) & Hh) & Hmi) & Hs) & Hus).
  assert (Hd3 : (da <= 31)%N).
  { unfold days_in_month in Hd2. destruct (mo =? 2)%N; [destruct (is_leap y); lia|].
    destruct (_ || _); lia. }
  unfold isoformat, datetime_parse. simpl.
  do 5 (rewrite read_fixed_fixed0 by (simpl; lia); simpl;
        rewrite expect_lit; simpl).
  rewrite read_fixed_fixed0 by (simpl; lia). simpl.
  destruct (N.eqb_spec us 0) as [->|Hne].
  - rewrite expect_nil. simpl. now rewrite Hok.
  - rewrite expect_lit. simpl.
    rewrite <- (str_app_nil_r (Str.fixed 10 6 us)).
    rewrite read_fixed_fixed0 by (simpl; lia). simpl. now rewrite Hok.
Qed.

Lemma datetime_parse_ok (s : string) (d : datetime) :
  datetime_parse s = Some d -> datetime_ok d = true.
Proof.
  unfold datetime_parse. intros H.
  repeat match type of H with
         | (Str.expect ?c ?x ≫= _) = Some _ =>
             destruct (Str.expect c x); simpl in H; [|discriminate]
         | (?m ≫= _) = Some _ =>
             let E := fresh "E" in
             destruct m as [[? ?]|] eqn:E; simpl in H; [|discriminate]
         end.
  match type of H with match ?x with _ => _ end = _ => destruct x end;
    [|discriminate].
  destruct (datetime_ok _) eqn:Ok; [|discriminate]. now injection H as <-.
Qed.

#[local] Transparent Str.fixed Str.read_fixed Str.expect.

(** ** JSON text: strings *)

(** Whatever the style, the reader undoes the escape of one character. *)
Lemma read_string_escape_char (st : JSON.style) (c : ascii) (tail : string) :
  JSON.read_string (JSON.escape_char st c +:+ tail)
  = '(t, rest) ← JSON.read_string tail; Some (String c t, rest).
Proof.
  destruct st as [isep ksep []];
    destruct c as [[] [] [] [] [] [] [] []]; reflexivity.
Qed.

Lemma read_string_escape (st : JSON.style) (s rest : string) :
  JSON.read_string (JSON.escape st s +:+ String JSON.dquote rest)
  = Some (s, rest).
Proof.
  induction s as [|c s IH].
  - reflexivity.
  - cbn [JSON.escape]. rewrite str_app_assoc, read_string_escape_char, IH.
    reflexivity.
Qed.

Lemma read_string_quote (st : JSON.style) (s rest : string) :
  JSON.read_string (JSON.escape st s +:+ String JSON.dquote EmptyString +:+ rest)
  = Some (s, rest).
Proof. apply read_string_escape. Qed.

(** ** JSON text: integers *)

Lemma all_digits_uint (d : Decimal.uint) :
  Str.all_digits (NilEmpty.string_of_uint d) = true.
Proof. induction d; simpl; auto. Qed.

Lemma span_digits_app (ds rest : string) :
  Str.all_digits ds = true -> JSON.number_ends rest = true ->
  JSON.span_digits (ds +:+ rest) = (ds, rest).
Proof.
  intros Hd Hr. induction ds as [|c ds IH].
  - rewrite str_app_nil_l. destruct rest as [|c r]; [reflexivity|].
    simpl in *. apply andb_true_iff in Hr as [Hc _].
    now destruct (Str.is_digit c).
  - rewrite str_app_cons. simpl in *. apply andb_true_iff in Hd as [Hc Hd].
    now rewrite Hc, IH.
Qed.

(** The decimal form of a positive number starts with a digit other than 0. *)
Lemma to_uint_head (p : positive) :
  match Pos.to_uint p with
  | Decimal.Nil | Decimal.D0 _ => False
  | _ => True
  end.
Proof.
  pose proof (DecimalPos.Unsigned.to_uint_nonnil p) as Hnil.
  pose proof (DecimalPos.Unsigned.to_uint_nonzero p) as Hnz.
  assert (Hn : Decimal.unorm (Pos.to_uint p) = Pos.to_uint p).
  { rewrite <- DecimalPos.Unsigned.to_of, DecimalPos.Unsigned.of_to. reflexivity. }
  assert (Hh : Decimal.nzhead (Pos.to_uint p) <> Decimal.Nil).
  { intros E. apply DecimalFacts.unorm_0 in E. congruence. }
  apply DecimalFacts.unorm_nzhead in Hh. rewrite Hn in Hh.
  destruct (Pos.to_uint p) eqn:E; try exact I; [congruence|].
  symmetry in Hh. now apply DecimalFacts.nzhead_nonzero in Hh.
Qed.

Lemma number_ends_float (rest : string) :
  JSON.number_ends rest = true -> JSON.float_follows rest = false.
Proof.
  destruct rest as [|c r]; [reflexivity|]. simpl. intros Hr.
  apply andb_true_iff in Hr as [_ Hr]. now apply negb_true_iff in Hr.
Qed.

(** A digit is none of the other characters the reader branches on. *)
Lemma digit_tests (c : ascii) :
  Str.is_digit c = true ->
  Ascii.eqb "-" c = false /\ Str.is_space c = false
  /\ Ascii.eqb c JSON.dquote = false /\ Ascii.eqb c "[" = false
  /\ Ascii.eqb c "{" = false /\ Ascii.eqb "n" c = false
  /\ Ascii.eqb "t" c = false /\ Ascii.eqb "f" c = false.
Proof.
  destruct c as [[] [] [] [] [] [] [] []]; intros H;
    try discriminate H; repeat split; reflexivity.
Qed.

Lemma read_int_pos (p : positive) (negative : bool) (rest : string) :
  JSON.number_ends rest = true ->
  JSON.read_int ((if negative then "-" else EmptyString)
                 +:+ NilZero.string_of_uint (Pos.to_uint p) +:+ rest)
  = Some (if negative then Z.neg p else Z.pos p, rest).
Proof.
  intros Hr.
  pose proof (number_ends_float _ Hr) as Hf.
  pose proof (to_uint_head p) as Hh.
  assert (Hu : NilZero.uint_of_string (NilZero.string_of_uint (Pos.to_uint p))
               = Some (Pos.to_uint p))
    by (apply NilZero.usu, DecimalPos.Unsigned.to_uint_nonnil).
  assert (Hs : JSON.span_digits (NilZero.string_of_uint (Pos.to_uint p) +:+ rest)
               = (NilZero.string_of_uint (Pos.to_uint p), rest)).
  { apply span_digits_app; [|exact Hr].
    destruct (Pos.to_uint p); try contradiction; apply all_digits_uint. }
  assert (Hz : Z.of_uint (Pos.to_uint p) = Z.pos p).
  { unfold Z.of_uint. now rewrite DecimalPos.Unsigned.of_to. }
  assert (Hc : exists c r, NilZero.string_of_uint (Pos.to_uint p) = String c r
                           /\ Str.is_digit c = true /\ Ascii.eqb c "0" = false).
  { destruct (Pos.to_uint p); try contradiction; simpl; eexists _, _;
      repeat split; reflexivity. }
  destruct Hc as (c & r & Ec & Hd & H0).
  destruct (digit_tests c Hd) as (Hm & _).
  unfold JSON.read_int.
  assert (E : (let '(negative0, s1) :=
                 match
                   Str.expect "-"
                     ((if negative then "-" else EmptyString)
                      +:+ NilZero.string_of_uint (Pos.to_uint p) +:+ rest)
                 with
                 | Some r0 => (true, r0)
                 | None =>
                     (false, (if negative then "-" else EmptyString)
                             +:+ NilZero.string_of_uint (Pos.to_uint p) +:+ rest)
                 end in (negative0, s1))
              = (negative, NilZero.string_of_uint (Pos.to_uint p) +:+ rest)).
  { destruct negative.
    - now rewrite expect_lit.
    - rewrite str_app_nil_l, Ec, str_app_cons, expect_ne by exact Hm.
      reflexivity. }
  destruct (match Str.expect "-" _ with Some r0 => (true, r0) | None => _ end)
    as [neg s1].
  injection E as -> ->.
  rewrite Ec, str_app_cons, H0, Hd, <- str_app_cons, <- Ec, Hs.
  cbn [mbind option_bind]. rewrite Hu. cbn [mbind option_bind]. rewrite Hf.
  destruct negative; cbn [Z.of_int]; rewrite Hz; reflexivity.
Qed.

Lemma read_int_of_int (n : Z) (rest : string) :
  JSON.number_ends rest = true ->
  JSON.read_int (Str.of_int n +:+ rest) = Some (n, rest).
Proof.
  intros Hr. destruct n as [|p|p].
  - pose proof (number_ends_float _ Hr) as Hf.
    change (Str.of_int 0) with "0". rewrite str_app_cons, str_app_nil_l.
    unfold JSON.read_int. rewrite expect_ne by reflexivity.
    cbn [Ascii.eqb Bool.eqb mbind option_bind]. simpl. now rewrite Hf.
  - apply (read_int_pos p false rest Hr).
  - apply (read_int_pos p true rest Hr).
Qed.

Lemma of_int_head (n : Z) :
  exists c r, Str.of_int n = String c r
              /\ (Str.is_digit c = true \/ c = "-"%char).
Proof.
  destruct n as [|p|p].
  - exists "0"%char, EmptyString. split; [reflexivity | now left].
  - unfold Str.of_int. simpl. pose proof (to_uint_head p) as Hh.
    destruct (Pos.to_uint p); try contradiction; simpl; eexists _, _;
      (split; [reflexivity | now left]).
  - unfold Str.of_int. simpl. eexists _, _. split; [reflexivity | now right].
Qed.

(** ** JSON text: values *)

Lemma value_start_tests (c : ascii) :
  JSON.value_start c = true ->
  Str.is_space c = false /\ Ascii.eqb "]" c = false /\ Ascii.eqb "}" c = false
  /\ Ascii.eqb "," c = false.
Proof.
  destruct c as [[] [] [] [] [] [] [] []]; intros H;
    try discriminate H; repeat split; reflexivity.
Qed.

Lemma dumps_arr (st : JSON.style) (l : list Json) :
  JSON.dumps st (JArr l)
  = "[" +:+ Str.join (JSON.item_separator st) (map (JSON.dumps st) l) +:+ "]".
Proof. reflexivity. Qed.

Lemma dumps_obj (st : JSON.style) (l : list (string * Json)) :
  JSON.dumps st (JObj l)
  = "{" +:+ Str.join (JSON.item_separator st) (map (JSON.member_text st) l) +:+ "}".
Proof. reflexivity. Qed.

Lemma dumps_head (st : JSON.style) (v : Json) :
  exists c r, JSON.dumps st v = String c r /\ JSON.value_start c = true.
Proof.
  destruct v as [|[]|n|s|l|l]; try (eexists _, _; split; reflexivity).
  destruct (of_int_head n) as (c & r & E & H); exists c, r.
  split; [exact E|]. unfold JSON.value_start.
  destruct H as [H | ->]; [now rewrite H | reflexivity].
Qed.

Lemma skip_ws_value (st : JSON.style) (v : Json) (rest : string) :
  JSON.skip_ws (JSON.dumps st v +:+ rest) = JSON.dumps st v +:+ rest.
Proof.
  destruct (dumps_head st v) as (c & r & -> & H).
  destruct (value_start_tests c H) as (Hs & _).
  rewrite str_app_cons. simpl. now rewrite Hs.
Qed.

Lemma dumps_length (st : JSON.style) (v : Json) :
  (1 <= String.length (JSON.dumps st v))%nat.
Proof. destruct (dumps_head st v) as (c & r & -> & _). simpl. lia. Qed.

(** The readers look at their input past the leading whitespace only. *)
Lemma read_value_skip (fuel : nat) (s s' : string) :
  JSON.skip_ws s = JSON.skip_ws s' ->
  JSON.read_value fuel s = JSON.read_value fuel s'.
Proof. intros H. destruct fuel; simpl; [reflexivity | now rewrite H]. Qed.

Lemma read_items_skip (fuel : nat) (s s' : string) :
  JSON.skip_ws s = JSON.skip_ws s' ->
  JSON.read_items fuel s = JSON.read_items fuel s'.
Proof.
  intros H. destruct fuel; simpl; [reflexivity|].
  now rewrite (read_value_skip fuel s s' H).
Qed.

Lemma read_members_skip (fuel : nat) (s s' : string) (acc : list (string * Json)) :
  JSON.skip_ws s = JSON.skip_ws s' ->
  JSON.read_members fuel s acc = JSON.read_members fuel s' acc.
Proof. intros H. destruct fuel; simpl; [reflexivity | now rewrite H]. Qed.

(** A separator is its punctuation mark and then, at most, whitespace. *)
Lemma item_separator_shape (st : JSON.style) :
  JSON.known_style st ->
  exists pad, JSON.item_separator st = String "," pad
              /\ (1 <= String.length (JSON.item_separator st))%nat
              /\ forall s, JSON.skip_ws (pad +:+ s) = JSON.skip_ws s.
Proof.
  intros [-> | ->]; [exists EmptyString | exists " "]; simpl; repeat split; lia.
Qed.

Lemma key_separator_shape (st : JSON.style) :
  JSON.known_style st ->
  exists pad, JSON.key_separator st = String ":" pad
              /\ forall s, JSON.skip_ws (pad +:+ s) = JSON.skip_ws s.
Proof.
  intros [-> | ->]; [exists EmptyString | exists " "]; simpl; now split.
Qed.

Lemma read_value_int (fuel : nat) (n : Z) (rest : string) :
  JSON.number_ends rest = true ->
  JSON.read_value (S fuel) (Str.of_int n +:+ rest) = Some (JInt n, rest).
Proof.
  intros Hr. pose proof (read_int_of_int n rest Hr) as Hi.
  destruct (of_int_head n) as (c & r & E & Hc).
  assert (T : Str.is_space c = false /\ Ascii.eqb c JSON.dquote = false
              /\ Ascii.eqb c "[" = false /\ Ascii.eqb c "{" = false
              /\ Ascii.eqb "n" c = false /\ Ascii.eqb "t" c = false
              /\ Ascii.eqb "f" c = false).
  { destruct Hc as [Hc | ->]; [|repeat split; reflexivity].
    destruct (digit_tests c Hc) as (_ & H). exact H. }
  destruct T as (T1 & T2 & T3 & T4 & T5 & T6 & T7).
  rewrite E, str_app_cons in *.
  cbn [JSON.read_value JSON.skip_ws]. rewrite T1, T2, T3, T4.
  unfold JSON.read_literal. cbn [Str.strip_prefix]. rewrite T5, T6, T7, Hi.
  reflexivity.
Qed.

Lemma dict_set_fresh (k : string) (v : Json) (acc : list (string * Json)) :
  existsb (String.eqb k) (map fst acc) = false ->
  JSON.dict_set k v acc = acc ++ [(k, v)].
Proof.
  induction acc as [|[k' v'] acc IH]; simpl; [reflexivity|].
  intros H. apply orb_false_iff in H as [H1 H2]. rewrite H1. now rewrite IH.
Qed.

Lemma distinct_app_cons (ks : list string) (k : string) (ks' : list string) :
  distinct (ks ++ k :: ks') = true -> existsb (String.eqb k) ks = false.
Proof.
  induction ks as [|a ks IH]; simpl; [reflexivity|].
  rewrite andb_true_iff, negb_true_iff. intros [H1 H2].
  rewrite existsb_app in H1. apply orb_false_iff in H1 as [_ H1]. simpl in H1.
  apply orb_false_iff in H1 as [H1 _].
  rewrite String.eqb_sym, H1. simpl. now apply IH.
Qed.

(** One step of each reader, by the character it meets. *)
Lemma read_value_quote (f : nat) (r : string) :
  JSON.read_value (S f) (String JSON.dquote r)
  = '(t, rest) ← JSON.read_string r; Some (JStr t, rest).
Proof. reflexivity. Qed.

Lemma read_value_bracket (f : nat) (r : string) :
  JSON.read_value (S f) (String "[" r)
  = match Str.expect "]" (JSON.skip_ws r) with
    | Some r' => Some (JArr [], r')
    | None => '(l, rest) ← JSON.read_items f r; Some (JArr l, rest)
    end.
Proof. reflexivity. Qed.

Lemma read_value_brace (f : nat) (r : string) :
  JSON.read_value (S f) (String "{" r)
  = match Str.expect "}" (JSON.skip_ws r) with
    | Some r' => Some (JObj [], r')
    | None => '(l, rest) ← JSON.read_members f r []; Some (JObj l, rest)
    end.
Proof. reflexivity. Qed.

Lemma read_items_step (f : nat) (s : string) :
  JSON.read_items (S f) s
  = '(v, rest) ← JSON.read_value f s;
    match Str.expect "," (JSON.skip_ws rest) with
    | Some r => '(l, rest') ← JSON.read_items f r; Some (v :: l, rest')
    | None =>
        match Str.expect "]" (JSON.skip_ws rest) with
        | Some r => Some ([v], r)
        | None => None
        end
    end.
Proof. reflexivity. Qed.

Lemma read_members_quote (f : nat) (r : string) (acc : list (string * Json)) :
  JSON.read_members (S f) (String JSON.dquote r) acc
  = '(k, rest) ← JSON.read_string r;
    r2 ← Str.expect ":" (JSON.skip_ws rest);
    '(v, rest2) ← JSON.read_value f r2;
    match Str.expect "," (JSON.skip_ws rest2) with
    | Some r3 => JSON.read_members f r3 (JSON.dict_set k v acc)
    | None =>
        match Str.expect "}" (JSON.skip_ws rest2) with
        | Some r3 => Some (JSON.dict_set k v acc, r3)
        | None => None
        end
    end.
Proof. reflexivity. Qed.

Lemma skip_ws_mark (c : ascii) (r : string) :
  Str.is_space c = false -> JSON.skip_ws (String c r) = String c r.
Proof. intros H. simpl. now rewrite H. Qed.

Lemma member_text_length (st : JSON.style) (k : string) (x : Json) :
  String.length (JSON.member_text st (k, x))
  = (2 + String.length (JSON.escape st k)
     + String.length (JSON.key_separator st)
     + String.length (JSON.dumps st x))%nat.
Proof.
  unfold JSON.member_text, JSON.quote. simpl fst. simpl snd.
  rewrite str_app_cons. cbn [String.length]. rewrite !str_length_app.
  cbn [String.length]. lia.
Qed.

Ltac str_norm :=
  repeat (rewrite str_app_cons || rewrite str_app_nil_l || rewrite str_app_assoc).

Section roundtrip.

Variable st : JSON.style.
Hypothesis Hst : JSON.known_style st.

(** What follows an item of a list or an object ends a number. *)
Lemma number_ends_more (l : list string) (close : ascii) (rest : string) :
  JSON.number_ends (String close rest) = true ->
  JSON.number_ends (Str.join_more (JSON.item_separator st) l +:+ String close rest) = true.
Proof.
  intros H. destruct l as [|y t]; [exact H|].
  destruct (item_separator_shape st Hst) as (pad & E & _).
  cbn [Str.join_more].  rewrite E, str_app_cons. reflexivity.
Qed.

Lemma read_value_dumps (fuel : nat) :
  (forall v rest,
      (String.length (JSON.dumps st v) <= fuel)%nat ->
      Json_ok v = true -> JSON.number_ends rest = true ->
      JSON.read_value fuel (JSON.dumps st v +:+ rest) = Some (v, rest))
  /\ (forall x t rest,
        (S (String.length (JSON.items_text st x t)) <= fuel)%nat ->
        forallb Json_ok (x :: t) = true ->
        JSON.read_items fuel (JSON.items_text st x t +:+ String "]" rest)
        = Some (x :: t, rest))
  /\ (forall kv t acc rest,
        (S (String.length (JSON.members_text st kv t)) <= fuel)%nat ->
        distinct (map fst (acc ++ kv :: t)) = true ->
        forallb (fun kv => Json_ok (snd kv)) (kv :: t) = true ->
        JSON.read_members fuel (JSON.members_text st kv t +:+ String "}" rest) acc
        = Some (acc ++ kv :: t, rest)).
Proof.
  destruct (item_separator_shape st Hst) as (ipad & Ei & Li & Si).
  destruct (key_separator_shape st Hst) as (kpad & Ek & Sk).
  induction fuel as [|f (IHv & IHi & IHm)].
  { split; [|split]; intros; [pose proof (dumps_length st v)| |]; lia. }
  split; [|split].
  - (* values *)
    intros v rest Hlen Hok Hr. destruct v as [|b|n|s|l|l].
    + reflexivity.
    + destruct b; reflexivity.
    + now apply read_value_int.
    + cbn [JSON.dumps]. unfold JSON.quote.
      rewrite str_app_cons, str_app_assoc, str_app_cons, str_app_nil_l.
      rewrite read_value_quote, read_string_escape. reflexivity.
    + rewrite dumps_arr in *. destruct l as [|x t]; [reflexivity|].
      cbn [map Str.join] in *. fold (JSON.items_text st x t) in *.
      rewrite !str_length_app in Hlen. cbn [String.length] in Hlen.
      str_norm. rewrite read_value_bracket.
      unfold JSON.items_text at 1. rewrite str_app_assoc, skip_ws_value.
      destruct (dumps_head st x) as (c & r & Ec & Hc).
      destruct (value_start_tests c Hc) as (_ & T & _).
      rewrite Ec, str_app_cons, expect_ne by exact T.
      rewrite IHi; [reflexivity | lia | exact Hok].
    + rewrite dumps_obj in *. destruct l as [|kv t]; [reflexivity|].
      cbn [map Str.join] in *. fold (JSON.members_text st kv t) in *.
      rewrite !str_length_app in Hlen. cbn [String.length] in Hlen.
      str_norm. rewrite read_value_brace.
      simpl in Hok. apply andb_true_iff in Hok as [Hd Hok].
      pose proof (IHm kv t [] rest) as IH. simpl app in IH.
      assert (Eh : exists r, JSON.members_text st kv t +:+ String "}" rest
                             = String JSON.dquote r)
        by (unfold JSON.members_text, JSON.member_text, JSON.quote;
            rewrite !str_app_cons; eauto).
      destruct Eh as (r & Eh). rewrite Eh, skip_ws_mark by reflexivity.
      rewrite expect_ne by reflexivity. rewrite <- Eh.
      rewrite IH; [reflexivity | lia | exact Hd | exact Hok].
  - (* items *)
    intros x t rest Hlen Hok.
    simpl in Hok. apply andb_true_iff in Hok as [Hx Ht].
    unfold JSON.items_text in *. rewrite str_app_assoc.
    rewrite read_items_step, IHv; [| | exact Hx | ].
    2:{ rewrite str_length_app in Hlen. lia. }
    2:{ apply number_ends_more. reflexivity. }
    cbn [mbind option_bind]. destruct t as [|y t].
    + reflexivity.
    + cbn [map Str.join_more]. rewrite Ei, !str_app_cons.
      rewrite skip_ws_mark by reflexivity. rewrite expect_app.
      rewrite (read_items_skip f _
                 ((JSON.dumps st y +:+ Str.join_more (String "," ipad)
                                         (map (JSON.dumps st) t))
                  +:+ String "]" rest)).
      2:{ rewrite !str_app_assoc. apply Si. }
      rewrite <- Ei. rewrite (IHi y t rest); [reflexivity | | exact Ht].
      cbn [map Str.join_more] in Hlen. rewrite !str_length_app in Hlen.
      rewrite !str_length_app. pose proof (dumps_length st x). lia.
  - (* members *)
    intros [k x] t acc rest Hlen Hd Hok.
    simpl in Hok. apply andb_true_iff in Hok as [Hx Ht].
    assert (Hk : existsb (String.eqb k) (map fst acc) = false).
    { rewrite map_app in Hd. now apply distinct_app_cons in Hd. }
    assert (Et : JSON.members_text st (k, x) t +:+ String "}" rest
                 = String JSON.dquote
                     (JSON.escape st k +:+
                      String JSON.dquote
                        (String ":"
                           (kpad +:+ JSON.dumps st x +:+
                            Str.join_more (JSON.item_separator st)
                              (map (JSON.member_text st) t)
                            +:+ String "}" rest)))).
    { unfold JSON.members_text, JSON.member_text at 1, JSON.quote. simpl fst.
      simpl snd. rewrite Ek. str_norm. reflexivity. }
    assert (El : (String.length (JSON.dumps st x)
                  + String.length (Str.join_more (JSON.item_separator st)
                                     (map (JSON.member_text st) t))
                  < String.length (JSON.members_text st (k, x) t))%nat).
    { unfold JSON.members_text. rewrite str_length_app, member_text_length. lia. }
    rewrite Et, read_members_quote, read_string_escape.
    cbn [mbind option_bind].
    rewrite skip_ws_mark by reflexivity. rewrite expect_app.
    cbn [mbind option_bind].
    rewrite (read_value_skip f _ _ (Sk _)).
    rewrite IHv; [| lia | exact Hx | apply number_ends_more; reflexivity].
    cbn [mbind option_bind].
    rewrite (dict_set_fresh k x acc Hk).
    destruct t as [|kv' t].
    + reflexivity.
    + cbn [map Str.join_more] in *. rewrite Ei. str_norm.
      rewrite skip_ws_mark by reflexivity. rewrite expect_app.
      pose proof (IHm kv' t (acc ++ [(k, x)]) rest) as IH.
      rewrite <- app_assoc in IH. simpl app in IH.
      rewrite <- IH; [| | exact Hd | exact Ht].
      * apply read_members_skip. unfold JSON.members_text. str_norm.
        rewrite <- Ei. apply Si.
      * rewrite !str_length_app in El. unfold JSON.members_text at 1.
        rewrite str_length_app. lia.
Qed.

End roundtrip.

(** [json.loads] gives back what [dumps] wrote, in either layout. *)
Lemma loads_dumps (st : JSON.style) (v : Json) :
  JSON.known_style st -> Json_ok v = true ->
  JSON.loads (JSON.dumps st v) = Some v.
Proof.
  intros Hst Hok. unfold JSON.loads.
  destruct (read_value_dumps st Hst (S (String.length (JSON.dumps st v))))
    as (Hv & _).
  specialize (Hv v EmptyString). rewrite str_app_nil_r in Hv.
  rewrite Hv by (auto; lia). reflexivity.
Qed.

(** ** Queue records *)

Lemma EventType_roundtrip (t : EventType) :
  EventType_parse (EventType_value t) = Some t.
Proof. now destruct t. Qed.

Lemma model_dump_ok (e : Event) :
  Event_ok e = true -> Json_ok (model_dump e) = true.
Proof.
  unfold Event_ok. rewrite !andb_true_iff. intros (((_ & Hp) & _) & _).
  unfold model_dump. cbn [Json_ok map fst snd forallb distinct].
  cbn [Json_ok] in Hp. rewrite Hp. reflexivity.
Qed.

(** Validation gives back the event that was dumped, whatever the default
    factories would have produced. *)
Lemma model_validate_dump (id : UUID) (now : datetime) (e : Event) :
  Event_ok e = true -> model_validate id now (model_dump e) = Ok e.
Proof.
  intros Hok. pose proof Hok as H. unfold Event_ok in H.
  rewrite !andb_true_iff in H. destruct H as (((Hid & _) & Hat) & Hrc).
  destruct e as [eid ty uid pl at_ rc ver]. simpl in *.
  unfold model_validate, model_dump, field. cbn [dict_get String.eqb Ascii.eqb Bool.eqb].
  cbn [event_id event_type user_id payload created_at retry_count version].
  rewrite UUID_roundtrip, EventType_roundtrip, datetime_roundtrip, Hrc by assumption.
  reflexivity.
Qed.

Lemma decode_model_dump_json (id : UUID) (now : datetime) (e : Event) :
  Event_ok e = true -> decode_record id now (model_dump_json e) = Ok e.
Proof.
  intros Hok. unfold decode_record, model_dump_json.
  rewrite loads_dumps by (try (now left); now apply model_dump_ok).
  now apply model_validate_dump.
Qed.

(** A dead-letter record is not the record of an event. *)
Lemma decode_dlq_entry (id : UUID) (now : datetime) (e : Event) (reason : string) :
  Event_ok e = true ->
  exists err,
    decode_record id now
      (JSON.dumps JSON.python_default
         (JObj [("event", model_dump e); ("reason", JStr reason)]))
    = Raise err.
Proof.
  intros Hok. unfold decode_record. rewrite loads_dumps.
  - eexists. reflexivity.
  - now right.
  - cbn [Json_ok map fst snd forallb distinct]. now rewrite model_dump_ok.
Qed.

Lemma increment_retry_ok (e : Event) :
  Event_ok e = true -> Event_ok (increment_retry e) = true.
Proof.
  unfold Event_ok. rewrite !andb_true_iff, !Z.leb_le. simpl.
  intros (((? & ?) & ?) & ?). repeat split; auto; lia.
Qed.

(** ** Computations on the world *)

Lemma bind_run {A B : Type} (m : M A) (k : A -> M B) (w : World) :
  (m ≫= k) w
  = match m w with
    | (Ok a, w') => k a w'
    | (Raise e, w') => (Raise e, w')
    end.
Proof. reflexivity. Qed.

Lemma bind_ok {A B : Type} (m : M A) (k : A -> M B) (w w' : World) (a : A) :
  m w = (Ok a, w') -> (m ≫= k) w = k a w'.
Proof. intros H. now rewrite bind_run, H. Qed.

Lemma bind_raise {A B : Type} (m : M A) (k : A -> M B) (w w' : World) (e : Exn) :
  m w = (Raise e, w') -> (m ≫= k) w = (Raise e, w').
Proof. intros H. now rewrite bind_run, H. Qed.

Lemma pop_fault_nil (w : World) : redis_faults w = [] -> pop_fault w = w.
Proof. destruct w. unfold pop_fault. simpl. now intros ->. Qed.

(** A command on a ready connection runs on the server. *)
Lemma command_ready {A : Type} (run : M A) (w : World) :
  redis_ready w = true -> RedisClient.command run w = run (pop_fault w).
Proof.
  unfold redis_ready, RedisClient.command, RedisClient.client,
    RedisClient.transport.
  rewrite bind_run. intros H. apply andb_true_iff in H as [-> H].
  destruct (redis_faults w) as [|[e|] rest] eqn:E.
  - now rewrite pop_fault_nil.
  - discriminate.
  - unfold pop_fault. now rewrite E.
Qed.

(** A command on a connection that is not there raises, and so does one the
    script has a fault for; neither reaches the server. *)
Lemma command_disconnected {A : Type} (run : M A) (w : World) :
  connected w = false ->
  RedisClient.command run w
  = (Raise (mkExn StdException "RuntimeError"
              "Redis client not connected. Call connect() first."), w).
Proof.
  intros H. unfold RedisClient.command, RedisClient.client.
  rewrite bind_run. now rewrite H.
Qed.

Lemma command_fault {A : Type} (run : M A) (w : World) (e : Exn)
    (rest : list (option Exn)) :
  connected w = true -> redis_faults w = Some e :: rest ->
  RedisClient.command run w = (Raise e, set_redis_faults rest w).
Proof.
  intros Hc Hf. unfold RedisClient.command, RedisClient.client,
    RedisClient.transport.
  rewrite bind_run, Hc. now rewrite Hf.
Qed.

Lemma lpush_ready (key value : string) (w : World) :
  redis_ready w = true ->
  RedisClient.lpush key value w
  = (Ok (Z.of_nat (length (value :: lists w !!! key))),
     set_lists (<[key := value :: lists w !!! key]> (lists w)) (pop_fault w)).
Proof. intros H. unfold RedisClient.lpush. now rewrite command_ready. Qed.

Lemma brpop_ready (key : string) (timeout : Z) (w : World) :
  redis_ready w = true ->
  RedisClient.brpop key timeout w
  = match last (lists w !!! key) with
    | Some value =>
        (Ok (Some (key, value)),
         set_lists (<[key := removelast (lists w !!! key)]> (lists w))
           (pop_fault w))
    | None => (Ok None, pop_fault w)
    end.
Proof. intros H. unfold RedisClient.brpop. now rewrite command_ready. Qed.

(** ** The queue: writing and reading records *)

Lemma enqueue_event_ready (settings : Settings.t) (event : Event) (w : World) :
  redis_ready w = true ->
  exists w',
    RedisClient.enqueue_event settings event w = (Ok tt, w')
    /\ lists w'
       = <[Settings.redis_queue_name settings
           := model_dump_json event :: main_queue settings w]> (lists w)
    /\ connected w' = connected w /\ redis_faults w' = tl (redis_faults w)
    /\ utcnow w' = utcnow w /\ uuids w' = uuids w /\ running w' = running w
    /\ sleeps w' = sleeps w
    /\ log w'
       = mkLog "info" "event_enqueued"
           [("event_id", UUID_str (event_id event));
            ("event_type", EventType_value (event_type event));
            ("queue", Settings.redis_queue_name settings)] :: log w.
Proof.
  intros H. unfold RedisClient.enqueue_event.
  rewrite bind_run, lpush_ready by exact H.
  eexists. split; [reflexivity|]. repeat split.
Qed.

Lemma default_event_id_run (data : Json) (w : World) :
  exists id w',
    RedisClient.default_event_id data w = (Ok id, w')
    /\ lists w' = lists w /\ utcnow w' = utcnow w /\ running w' = running w
    /\ connected w' = connected w /\ sleeps w' = sleeps w /\ log w' = log w
    /\ redis_faults w' = redis_faults w
    /\ (uuids w' = uuids w \/ uuids w' = tl (uuids w)).
Proof.
  unfold RedisClient.default_event_id, uuid4.
  destruct data; try (eexists _, _; split; [reflexivity|]; repeat split; now left).
  destruct (dict_get "event_id" l);
    [eexists _, _; split; [reflexivity|]; repeat split; now left|].
  destruct (uuids w) eqn:E; eexists _, _; (split; [reflexivity|]); simpl;
    rewrite ?E; repeat split; auto.
Qed.

Lemma default_event_id_dump (e : Event) (w : World) :
  RedisClient.default_event_id (model_dump e) w = (Ok (mkUUID 0 0 0 0 0), w).
Proof. reflexivity. Qed.

(** Reading the record at the right end of the main queue when it is the
    record of an event. *)
Lemma dequeue_event_dump (settings : Settings.t) (timeout : Z) (e : Event)
    (rest : list string) (w : World) :
  redis_ready w = true -> Event_ok e = true ->
  main_queue settings w = rest ++ [model_dump_json e] ->
  exists w',
    RedisClient.dequeue_event settings timeout w = (Ok (Some e), w')
    /\ lists w' = <[Settings.redis_queue_name settings := rest]> (lists w)
    /\ connected w' = connected w /\ redis_faults w' = tl (redis_faults w)
    /\ utcnow w' = utcnow w /\ uuids w' = uuids w /\ running w' = running w
    /\ sleeps w' = sleeps w.
Proof.
  intros Hr Hok Hq. unfold RedisClient.dequeue_event.
  rewrite bind_run, brpop_ready by exact Hr.
  unfold main_queue, RedisClient.queue_name in *. rewrite Hq.
  rewrite last_snoc, removelast_last.
  unfold model_dump_json. rewrite loads_dumps by (try (now left); now apply model_dump_ok).
  rewrite bind_run. unfold mret at 1, M_ret at 1.
  rewrite bind_run, default_event_id_dump.
  rewrite bind_run. unfold gets at 1.
  rewrite model_validate_dump by exact Hok.
  rewrite bind_run. unfold mret at 1, M_ret at 1.
  eexists. split; [reflexivity|]. repeat split.
Qed.

(** Reading a record that does not validate: the exception of the decoder
    leaves [dequeue_event]; the record has left the queue. *)
Lemma dequeue_event_malformed (settings : Settings.t) (timeout : Z)
    (record : string) (rest : list string) (w : World) :
  redis_ready w = true ->
  main_queue settings w = rest ++ [record] ->
  (forall id e, decode_record id (utcnow w) record <> Ok e) ->
  exists err w',
    RedisClient.dequeue_event settings timeout w = (Raise err, w')
    /\ is_Exception err = true
    /\ (exists id, decode_record id (utcnow w) record = Raise err)
    /\ lists w' = <[Settings.redis_queue_name settings := rest]> (lists w)
    /\ running w' = running w /\ connected w' = connected w.
Proof.
  intros Hr Hq Hbad. unfold RedisClient.dequeue_event.
  rewrite bind_run, brpop_ready by exact Hr.
  unfold main_queue, RedisClient.queue_name in *. rewrite Hq.
  rewrite last_snoc, removelast_last.
  unfold decode_record in Hbad.
  destruct (JSON.loads record) as [data|] eqn:El.
  - rewrite bind_run. unfold mret at 1, M_ret at 1. rewrite bind_run.
    match goal with |- context [RedisClient.default_event_id data ?w1] =>
      destruct (default_event_id_run data w1)
        as (id & w2 & -> & Hl & Hu & Hrun & Hc & _) end.
    rewrite bind_run. unfold gets at 1. rewrite Hu. simpl utcnow.
    destruct (model_validate id (utcnow w) data) as [e|err] eqn:Ev.
    + now destruct (Hbad id e).
    + rewrite bind_run. unfold raise at 1.
      exists err, w2. split; [reflexivity|].
      assert (Hx : is_Exception err = true).
      { revert Ev. unfold model_validate, field.
        destruct data; try (intros [= <-]; reflexivity).
        repeat match goal with
               | |- context [match ?x with _ => _ end] => destruct x
               end; simpl; intros [= <-]; reflexivity. }
      split; [exact Hx|]. split; [exists id; unfold decode_record; now rewrite El|].
      rewrite Hl, Hrun, Hc. repeat split.
  - rewrite bind_run. unfold raise at 1.
    eexists _, _. split; [reflexivity|]. split; [reflexivity|].
    split; [exists (mkUUID 0 0 0 0 0); unfold decode_record; now rewrite El|].
    repeat split.
Qed.



(** ** The failure handler *)

Lemma logger_run (level name : string) (fields : list (string * string))
    (w : World) :
  logger level name fields w = (Ok tt, set_log (mkLog level name fields :: log w) w).
Proof. reflexivity. Qed.

Lemma log_retry_decision_run (self : RetryHandler.t) (event : Event)
    (decision : RetryDecision.t) (error : Exn) (w : World) :
  exists record,
    RetryLog.log_retry_decision self event decision error w
    = (Ok tt, set_log (record :: log w) w)
    /\ log_event record
       = (if RetryDecision.should_retry decision then "retry_scheduled"
          else "retry_exhausted")
    /\ In ("reason", RetryDecision.reason decision) (log_fields record).
Proof.
  unfold RetryLog.log_retry_decision.
  destruct (RetryDecision.should_retry decision); eexists;
    (split; [apply logger_run|]); split; try reflexivity; simpl; tauto.
Qed.

Lemma send_to_dlq_ready (settings : Settings.t) (event : Event)
    (reason : string) (w : World) :
  redis_ready w = true ->
  exists w',
    RedisClient.send_to_dlq settings event reason w = (Ok tt, w')
    /\ lists w'
       = <[Settings.redis_dlq_name settings
           := dlq_entry_text event reason :: dead_letters settings w]> (lists w)
    /\ log w'
       = mkLog "warning" "event_dead_lettered"
           [("event_id", UUID_str (event_id event)); ("reason", reason);
            ("retry_count", Str.of_int (retry_count event))] :: log w.
Proof.
  intros H. unfold RedisClient.send_to_dlq.
  rewrite bind_run, lpush_ready by exact H.
  eexists. split; [reflexivity|]. split; reflexivity.
Qed.

Lemma requeue_event_ready (settings : Settings.t) (event : Event) (w : World) :
  redis_ready w = true ->
  exists w',
    RedisClient.requeue_event settings event w = (Ok tt, w')
    /\ lists w'
       = <[Settings.redis_queue_name settings
           := model_dump_json (increment_retry event) :: main_queue settings w]>
           (lists w)
    /\ log w'
       = mkLog "info" "event_requeued"
           [("event_id", UUID_str (event_id event));
            ("retry_count", Str.of_int (retry_count event + 1))]
         :: mkLog "info" "event_enqueued"
              [("event_id", UUID_str (event_id event));
               ("event_type", EventType_value (event_type event));
               ("queue", Settings.redis_queue_name settings)]
         :: log w.
Proof.
  intros H. unfold RedisClient.requeue_event.
  destruct (enqueue_event_ready settings (increment_retry event) w H)
    as (w1 & E1 & L1 & _ & _ & _ & _ & _ & _ & G1).
  rewrite bind_run, E1, logger_run.
  eexists. split; [reflexivity|]. split; [exact L1|]. simpl. now rewrite G1.
Qed.

(** C1.  On a queue that takes the command, the failure handler asks the
    retry policy for its decision once (the decision is logged once), and
    then: if the decision is to retry, it pushes onto the main queue the
    record of the failed event with [retry_count] one higher and every other
    field the same; otherwise it pushes onto the dead-letter list the record
    [{event, reason}] of the failed event, unchanged, with the reason of the
    decision.  No other list changes. *)
Theorem handle_failure_routes (settings : Settings.t) (event : Event)
    (error : Exn) (w : World) :
  redis_ready w = true ->
  let decision :=
    RetryHandler.should_retry (EventConsumer.retry_handler settings) event error in
  exists w' record,
    EventConsumer._handle_failure settings event error w = (Ok tt, w')
    /\ (* the decision is taken and logged once *)
       (exists newer, log w' = newer ++ record :: log w
                      /\ forall r, In r newer ->
                           log_event r <> "retry_scheduled"
                           /\ log_event r <> "retry_exhausted")
    /\ log_event record
       = (if RetryDecision.should_retry decision then "retry_scheduled"
          else "retry_exhausted")
    /\ if RetryDecision.should_retry decision then
         lists w'
         = <[Settings.redis_queue_name settings
             := model_dump_json (increment_retry event) :: main_queue settings w]>
             (lists w)
         /\ increment_retry event
            = mkEvent (event_id event) (event_type event) (user_id event)
                (payload event) (created_at event) (retry_count event + 1)
                (version event)
         /\ (Event_ok event = true ->
             forall id now,
               decode_record id now (model_dump_json (increment_retry event))
               = Ok (increment_retry event))
       else
         lists w'
         = <[Settings.redis_dlq_name settings
             := dlq_entry_text event (RetryDecision.reason decision)
                :: dead_letters settings w]> (lists w)
         /\ (Event_ok event = true ->
             JSON.loads (dlq_entry_text event (RetryDecision.reason decision))
             = Some (JObj [("event", model_dump event);
                           ("reason", JStr (RetryDecision.reason decision))])
             /\ forall id now, model_validate id now (model_dump event) = Ok event).
Proof.
  intros Hr decision. unfold EventConsumer._handle_failure. fold decision.
  destruct (log_retry_decision_run (EventConsumer.retry_handler settings)
              event decision error w) as (record & El & En & _).
  rewrite bind_run, El.
  assert (Hr' : redis_ready (set_log (record :: log w) w) = true) by exact Hr.
  destruct (RetryDecision.should_retry decision) eqn:Ed.
  - destruct (requeue_event_ready settings event _ Hr') as (w' & E & L & G).
    exists w', record. split; [exact E|].
    split.
    { eexists [_; _]. split; [exact G|].
      intros r [<-|[<-|[]]]; split; discriminate. }
    split; [exact En|].
    split; [exact L|]. split; [reflexivity|].
    intros Hok id now. apply decode_model_dump_json.
    now apply increment_retry_ok.
  - destruct (send_to_dlq_ready settings event (RetryDecision.reason decision)
                _ Hr') as (w' & E & L & G).
    exists w', record. split; [exact E|].
    split.
    { eexists [_]. split; [exact G|].
      intros r [<-|[]]; split; discriminate. }
    split; [exact En|].
    split; [exact L|].
    intros Hok. split.
    + unfold dlq_entry_text. apply loads_dumps; [now right|].
      cbn [Json_ok map fst snd forallb distinct]. now rewrite model_dump_ok.
    + intros id now. now apply model_validate_dump.
Qed.

Lemma handle_failure_routes_witness :
  let error := mkExn StdException "ConnectionError" "connection timeout" in
  redis_ready quiet_world = true
  /\ exists w' record,
       EventConsumer._handle_failure Settings.default sample_event error
         quiet_world = (Ok tt, w')
       /\ log_event record = "retry_scheduled"
       /\ lists w'
          = <[ "events:queue"
               := model_dump_json (increment_retry sample_event)
                  :: main_queue Settings.default quiet_world ]>
              (lists quiet_world).
Proof.
  cbv zeta. assert (H : redis_ready quiet_world = true) by reflexivity.
  split; [exact H|].
  destruct (handle_failure_routes Settings.default sample_event
              (mkExn StdException "ConnectionError" "connection timeout")
              quiet_world H) as (w' & record & E & _ & En & R).
  exists w', record. split; [exact E|]. split; [exact En|].
  destruct R as (L & _). exact L.
Defined.

(** ** What a computation leaves alone *)

#[global] Instance outside_queues_preorder : PreOrder outside_queues.
Proof.
  split.
  - intros w. repeat split.
  - intros a b c (H1 & H2 & H3 & H4 & H5 & H6 & H7 & H8)
      (G1 & G2 & G3 & G4 & G5 & G6 & G7 & G8).
    repeat split; congruence.
Qed.

Section keeps.

Context (R : World -> World -> Prop) `{!PreOrder R}.

Lemma keeps_mret {A : Type} (a : A) : keeps R (mret a).
Proof. intros w. reflexivity. Qed.

Lemma keeps_raise {A : Type} (e : Exn) : keeps R (@raise A e).
Proof. intros w. reflexivity. Qed.

Lemma keeps_gets {A : Type} (f : World -> A) : keeps R (gets f).
Proof. intros w. reflexivity. Qed.

Lemma keeps_bind {A B : Type} (m : M A) (k : A -> M B) :
  keeps R m -> (forall a, keeps R (k a)) -> keeps R (m ≫= k).
Proof.
  intros Hm Hk w. rewrite bind_run. specialize (Hm w).
  destruct (m w) as [[a|e] w1]; simpl in *; [|exact Hm].
  etransitivity; [exact Hm | apply Hk].
Qed.

Lemma keeps_try_except {A : Type} (body : M A) (class : Exn -> bool)
    (handler : Exn -> M A) :
  keeps R body -> (forall e, keeps R (handler e)) ->
  keeps R (try_except body class handler).
Proof.
  intros Hb Hh w. unfold try_except. specialize (Hb w).
  destruct (body w) as [[a|e] w1]; simpl in *; [exact Hb|].
  destruct (class e); [|exact Hb].
  etransitivity; [exact Hb | apply Hh].
Qed.

Lemma keeps_modify (f : World -> World) :
  (forall w, R w (f w)) -> keeps R (modify f).
Proof. intros H w. apply H. Qed.

Lemma keeps_transport {A : Type} (run : M A) :
  (forall w x, R w (set_redis_faults x w)) -> keeps R run ->
  keeps R (RedisClient.transport run).
Proof.
  intros Hf Hr w. unfold RedisClient.transport.
  destruct (redis_faults w) as [|[e|] rest].
  - apply Hr.
  - apply Hf.
  - etransitivity; [apply (Hf w rest) | apply Hr].
Qed.

Lemma keeps_command {A : Type} (run : M A) :
  (forall w x, R w (set_redis_faults x w)) -> keeps R run ->
  keeps R (RedisClient.command run).
Proof.
  intros Hf Hr. unfold RedisClient.command. apply keeps_bind.
  - intros w. unfold RedisClient.client. destruct (connected w); reflexivity.
  - intros _. now apply keeps_transport.
Qed.

End keeps.

(** Splits a goal [keeps R m] along the structure of [m]. *)
Ltac keeps_step :=
  lazymatch goal with
  | |- keeps _ (mret _) => apply keeps_mret; typeclasses eauto
  | |- keeps _ (raise _) => apply keeps_raise; typeclasses eauto
  | |- keeps _ (gets _) => apply keeps_gets; typeclasses eauto
  | |- keeps _ (modify _) => apply keeps_modify; intros ?; repeat split
  | |- keeps _ (_ ≫= _) => apply keeps_bind; [typeclasses eauto | | intros ?]
  | |- keeps _ (try_except _ _ _) =>
      apply keeps_try_except; [typeclasses eauto | | intros ?]
  | |- keeps _ (if ?b then _ else _) => destruct b
  | |- keeps _ (match ?x with _ => _ end) => destruct x
  end.

Lemma keeps_logger (level name : string) (fields : list (string * string)) :
  keeps outside_queues (logger level name fields).
Proof. intros w. repeat split. Qed.

Lemma keeps_get (key : string) : keeps outside_queues (RedisClient.get key).
Proof.
  apply keeps_command; [typeclasses eauto | |].
  - intros w x. repeat split.
  - apply keeps_gets; typeclasses eauto.
Qed.

Lemma keeps_incr (key : string) : keeps outside_queues (RedisClient.incr key).
Proof.
  apply keeps_command; [typeclasses eauto | |].
  - intros w x. repeat split.
  - intros w.
    repeat match goal with
           | |- context [match ?x with _ => _ end] => destruct x
           end; repeat split.
Qed.

Lemma keeps_expire (key : string) (seconds : Z) :
  keeps outside_queues (RedisClient.expire key seconds).
Proof.
  apply keeps_command; [typeclasses eauto | |].
  - intros w x. repeat split.
  - intros w. destruct (keys w !! key); repeat split.
Qed.

Lemma keeps_smtp_send (email : Email) :
  keeps outside_queues (EmailService.smtp_send email).
Proof.
  intros w. unfold EmailService.smtp_send.
  destruct (smtp_faults _) as [|[e|] rest]; repeat split.
Qed.

Lemma keeps_log_failure (to_email : Json) (e : Exn) :
  keeps outside_queues (EmailService.log_failure to_email e).
Proof.
  unfold EmailService.log_failure.
  repeat match goal with
         | |- keeps _ (if ?b then _ else _) => destruct b
         end; apply keeps_logger.
Qed.

Lemma keeps_send_email (to_email subject : Json) (body : string)
    (html_body : option string) :
  keeps outside_queues (EmailService.send_email to_email subject body html_body).
Proof.
  unfold EmailService.send_email.
  repeat first [ keeps_step | simple apply keeps_smtp_send
               | simple apply keeps_log_failure | simple apply keeps_logger ].
Qed.

Lemma keeps_get_today_count :
  keeps outside_queues EmailRateLimiter.get_today_count.
Proof.
  unfold EmailRateLimiter.get_today_count, EmailRateLimiter._get_today_key.
  repeat first [ keeps_step | simple apply keeps_get ].
Qed.

Lemma keeps_can_send_email (settings : Settings.t) :
  keeps outside_queues (EmailRateLimiter.can_send_email settings).
Proof.
  unfold EmailRateLimiter.can_send_email.
  repeat first [ keeps_step | simple apply keeps_get_today_count ].
Qed.

Lemma keeps_record_email_sent :
  keeps outside_queues EmailRateLimiter.record_email_sent.
Proof.
  unfold EmailRateLimiter.record_email_sent, EmailRateLimiter.increment_count,
    EmailRateLimiter._get_today_key.
  repeat first [ keeps_step | simple apply keeps_incr | simple apply keeps_expire ].
Qed.

Lemma keeps_check_and_alert (settings : Settings.t) :
  keeps outside_queues (EmailRateLimiter.check_and_alert settings).
Proof.
  unfold EmailRateLimiter.check_and_alert.
  repeat first [ keeps_step | simple apply keeps_get_today_count
               | simple apply keeps_send_email | simple apply keeps_logger ].
Qed.

Lemma keeps_process (settings : Settings.t) (event : Event) :
  keeps outside_queues (NotificationProcessor.process settings event).
Proof.
  unfold NotificationProcessor.process. cbv zeta.
  repeat first [ keeps_step | simple apply keeps_logger
               | simple apply keeps_can_send_email
               | simple apply keeps_check_and_alert
               | simple apply keeps_send_email
               | simple apply keeps_record_email_sent ].
Qed.

(** ** The consumer loop *)

#[global] Instance loop_state_preorder : PreOrder loop_state.
Proof.
  split.
  - intros w. repeat split.
  - intros a b c (H1 & H2 & H3 & H4) (G1 & G2 & G3 & G4).
    repeat split; congruence.
Qed.

Lemma loop_state_dequeue_event (settings : Settings.t) (timeout : Z) :
  keeps loop_state (RedisClient.dequeue_event settings timeout).
Proof.
  unfold RedisClient.dequeue_event.
  apply keeps_bind; [typeclasses eauto | |].
  - unfold RedisClient.brpop. apply keeps_command; [typeclasses eauto | |].
    + intros w x. repeat split.
    + intros w. destruct (last _); repeat split.
  - intros [[k r]|]; [|apply keeps_mret; typeclasses eauto].
    repeat first
      [ keeps_step
      | match goal with
        | |- keeps _ (logger _ _ _) => intros ?; repeat split
        | |- keeps _ (RedisClient.default_event_id ?d) =>
            intros ?; unfold RedisClient.default_event_id, uuid4;
            repeat match goal with
                   | |- context [match ?x with _ => _ end] => destruct x
                   end; repeat split
        end ].
Qed.

Lemma exception_not_cancelled (e : Exn) :
  is_Exception e = true -> is_CancelledError e = false.
Proof. unfold is_Exception, is_CancelledError. now destruct (exn_base e). Qed.

(** One pass through the loop when the call to [dequeue_event] raises. *)
Lemma consume_iteration_dequeue_error (settings : Settings.t) (w w1 : World)
    (e : Exn) :
  RedisClient.dequeue_event settings 1 w = (Raise e, w1) ->
  is_Exception e = true ->
  EventConsumer._consume_iteration settings w
  = (Ok Continue,
     set_sleeps (1 :: sleeps w1)
       (set_log (mkLog "error" "worker_consume_error"
                   [("error", exn_msg e); ("error_type", exn_type e)]
                 :: log w1) w1)).
Proof.
  intros Hd He. unfold EventConsumer._consume_iteration, try_except.
  rewrite (bind_raise _ _ _ _ _ Hd).
  now rewrite (exception_not_cancelled e He), He.
Qed.

Lemma dequeue_event_fault (settings : Settings.t) (timeout : Z) (w : World)
    (e : Exn) (rest : list (option Exn)) :
  connected w = true -> redis_faults w = Some e :: rest ->
  RedisClient.dequeue_event settings timeout w
  = (Raise e, set_redis_faults rest w).
Proof.
  intros Hc Hf. unfold RedisClient.dequeue_event, RedisClient.brpop.
  now rewrite bind_run, (command_fault _ w e rest Hc Hf).
Qed.

Lemma consume_loop_step (settings : Settings.t) (fuel : nat) (w w' : World) :
  running w = true ->
  EventConsumer._consume_iteration settings w = (Ok Continue, w') ->
  EventConsumer._consume_loop settings (S fuel) w
  = EventConsumer._consume_loop settings fuel w'.
Proof.
  intros Hr Hi. cbn [EventConsumer._consume_loop].
  rewrite bind_run. unfold gets at 1. rewrite Hr.
  now rewrite bind_run, Hi.
Qed.

Lemma repeat_middle {A : Type} (a : A) (n : nat) (l : list A) :
  repeat a n ++ a :: l = a :: repeat a n ++ l.
Proof. induction n as [|n IH]; simpl; [reflexivity | now rewrite IH]. Qed.

(** C9.  When the call to [dequeue_event] raises an exception (an instance
    of [Exception]), the pass through the loop logs it
    ("worker_consume_error"), sleeps for 1 and lets the loop go on; the flag
    [_running] is as it was.  However many such failures follow one another
    (here: [n] faults of the transport in a row), the loop is still looping
    after them, having slept 1 after each. *)
Theorem dequeue_errors_keep_looping (settings : Settings.t) :
  (forall (w w1 : World) (e : Exn),
      RedisClient.dequeue_event settings 1 w = (Raise e, w1) ->
      is_Exception e = true ->
      exists w2,
        EventConsumer._consume_iteration settings w = (Ok Continue, w2)
        /\ log w2
           = mkLog "error" "worker_consume_error"
               [("error", exn_msg e); ("error_type", exn_type e)] :: log w1
        /\ sleeps w2 = 1 :: sleeps w
        /\ running w2 = running w /\ lists w2 = lists w1)
  /\ (forall (es : list Exn) (rest : list (option Exn)) (w : World),
        running w = true -> connected w = true ->
        Forall (fun e => is_Exception e = true) es ->
        redis_faults w = map Some es ++ rest ->
        exists w',
          EventConsumer._consume_loop settings (length es) w
          = (Ok StillLooping, w')
          /\ sleeps w' = repeat 1 (length es) ++ sleeps w
          /\ running w' = true /\ connected w' = true
          /\ lists w' = lists w /\ redis_faults w' = rest
          /\ length (log w') = (length es + length (log w))%nat).
Proof.
  split.
  - intros w w1 e Hd He.
    eexists. split; [exact (consume_iteration_dequeue_error settings w w1 e Hd He)|].
    destruct (loop_state_dequeue_event settings 1 w) as (H1 & _ & H3 & _).
    rewrite Hd in H1, H3. simpl in *. now rewrite H1, H3.
  - intros es. induction es as [|e es IH]; intros rest w Hrun Hc Hes Hf.
    + exists w. simpl in *. repeat split; auto.
    + inversion Hes as [|? ? He Hes']; subst. simpl in Hf.
      pose proof (dequeue_event_fault settings 1 w e _ Hc Hf) as Hd.
      pose proof (consume_iteration_dequeue_error settings w _ e Hd He) as Hi.
      simpl length. rewrite (consume_loop_step settings _ w _ Hrun Hi).
      match type of Hi with _ = (_, ?w2) =>
        destruct (IH rest w2) as (w' & E & S' & R' & C' & L' & F' & G');
          [exact Hrun | exact Hc | exact Hes' | reflexivity |]
      end.
      exists w'. split; [exact E|]. simpl in *.
      rewrite S', G'. repeat split; auto.
      apply repeat_middle.
Qed.

Lemma dequeue_errors_keep_looping_witness :
  let e := mkExn StdException "ConnectionError" "Error 111 connecting to redis" in
  let w := set_redis_faults [Some e; Some e] quiet_world in
  (RedisClient.dequeue_event Settings.default 1 w
   = (Raise e, set_redis_faults [Some e] quiet_world)
   /\ is_Exception e = true
   /\ exists w2,
        EventConsumer._consume_iteration Settings.default w = (Ok Continue, w2)
        /\ sleeps w2 = 1 :: sleeps w /\ running w2 = running w)
  /\ (running w = true /\ connected w = true
      /\ Forall (fun e => is_Exception e = true) [e; e]
      /\ redis_faults w = map Some [e; e] ++ []
      /\ exists w',
           EventConsumer._consume_loop Settings.default 2 w
           = (Ok StillLooping, w')
           /\ sleeps w' = [1; 1] /\ running w' = true).
Proof.
  cbv zeta.
  set (e := mkExn StdException "ConnectionError" "Error 111 connecting to redis").
  set (w := set_redis_faults [Some e; Some e] quiet_world).
  destruct (dequeue_errors_keep_looping Settings.default) as (H1 & H2).
  assert (A1 : RedisClient.dequeue_event Settings.default 1 w
               = (Raise e, set_redis_faults [Some e] quiet_world))
    by reflexivity.
  assert (A2 : is_Exception e = true) by reflexivity.
  assert (B1 : running w = true) by reflexivity.
  assert (B2 : connected w = true) by reflexivity.
  assert (B3 : Forall (fun e => is_Exception e = true) [e; e])
    by (repeat constructor).
  assert (B4 : redis_faults w = map Some [e; e] ++ []) by reflexivity.
  split.
  - split; [exact A1 | split; [exact A2|]].
    destruct (H1 w _ e A1 A2) as (w2 & E & _ & S2 & R2 & _).
    exists w2. auto.
  - split; [exact B1 | split; [exact B2 | split; [exact B3 | split; [exact B4|]]]].
    destruct (H2 [e; e] [] w B1 B2 B3 B4) as (w' & E & S' & R' & _).
    exists w'. auto.
Defined.

(** ** Counters *)

Lemma digit_not_py_space (c : ascii) :
  Str.is_digit c = true ->
  Str.is_py_space c = false /\ Ascii.eqb "-" c = false /\ Ascii.eqb "+" c = false.
Proof.
  destruct c as [[] [] [] [] [] [] [] []]; intros H;
    try discriminate H; repeat split; reflexivity.
Qed.

Lemma rstrip_digits (s : string) :
  Str.all_digits s = true -> Str.rstrip s = s.
Proof.
  induction s as [|c s IH]; [reflexivity|]. simpl.
  intros H. apply andb_true_iff in H as [Hc Hs].
  rewrite (IH Hs). destruct s; [|reflexivity].
  destruct (digit_not_py_space c Hc) as (-> & _). reflexivity.
Qed.

Lemma lstrip_digits (s : string) :
  Str.all_digits s = true -> Str.lstrip s = s.
Proof.
  destruct s as [|c s]; [reflexivity|]. simpl.
  intros H. apply andb_true_iff in H as [Hc _].
  destruct (digit_not_py_space c Hc) as (-> & _). reflexivity.
Qed.

Lemma of_int_digits (n : Z) :
  0 <= n ->
  Str.all_digits (Str.of_int n) = true
  /\ NilZero.uint_of_string (Str.of_int n) = Some (N.to_uint (Z.to_N n))
  /\ exists c r, Str.of_int n = String c r.
Proof.
  intros Hn. destruct n as [|p|p]; [now repeat split; eauto | | lia].
  unfold Str.of_int. simpl.
  pose proof (DecimalPos.Unsigned.to_uint_nonnil p) as Hnil.
  split; [|split].
  - destruct (Pos.to_uint p) eqn:E; try congruence; apply all_digits_uint.
  - now apply NilZero.usu.
  - destruct (Pos.to_uint p) eqn:E; try congruence; simpl; eauto.
Qed.

(** [int(str(n))] is [n]. *)
Lemma py_int_of_int (n : Z) : 0 <= n -> Str.py_int (Str.of_int n) = Some n.
Proof.
  intros Hn. destruct (of_int_digits n Hn) as (Hd & Hu & c & r & E).
  unfold Str.py_int. rewrite lstrip_digits, rstrip_digits by assumption.
  assert (Hc : Str.is_digit c = true).
  { rewrite E in Hd. simpl in Hd. now apply andb_true_iff in Hd as [Hc _]. }
  destruct (digit_not_py_space c Hc) as (_ & Hm & Hp).
  rewrite E, !expect_ne by assumption. rewrite <- E, Hu.
  f_equal. simpl. unfold Z.of_uint. rewrite DecimalN.Unsigned.of_to. lia.
Qed.

Lemma to_int_strict_of_int (n : Z) : Str.to_int_strict (Str.of_int n) = Some n.
Proof.
  unfold Str.to_int_strict, Str.of_int.
  rewrite NilZero.isi.
  - rewrite DecimalZ.of_to. now rewrite String.eqb_refl.
  - destruct n; simpl; try discriminate. intros [= E].
    now apply DecimalPos.Unsigned.to_uint_nonnil in E.
  - destruct n; simpl; try discriminate. intros [= E].
    now apply DecimalPos.Unsigned.to_uint_nonnil in E.
Qed.

Lemma healthy_ready (w : World) : redis_healthy w -> redis_ready w = true.
Proof. intros [Hc Hf]. unfold redis_ready. now rewrite Hc, Hf. Qed.

Lemma command_healthy {A : Type} (run : M A) (w : World) :
  redis_healthy w -> RedisClient.command run w = run w.
Proof.
  intros H. rewrite command_ready by now apply healthy_ready.
  destruct H as [_ Hf]. now rewrite pop_fault_nil.
Qed.

Lemma get_today_count_stored (w : World) (n : Z) :
  redis_healthy w -> stored_count w n -> 0 <= n ->
  EmailRateLimiter.get_today_count w = (Ok n, w).
Proof.
  intros Hh Hs Hn.
  unfold EmailRateLimiter.get_today_count, EmailRateLimiter._get_today_key.
  rewrite bind_run. unfold gets at 1.
  unfold RedisClient.get. rewrite bind_run, command_healthy by exact Hh.
  unfold gets at 1. unfold stored_count, count_key in Hs. rewrite Hs.
  destruct (of_int_digits n Hn) as (_ & _ & c & r & E).
  rewrite E. cbn [String.eqb]. rewrite <- E, py_int_of_int by exact Hn.
  reflexivity.
Qed.

Lemma get_today_count_absent (w : World) :
  redis_healthy w -> keys w !! count_key w = None ->
  EmailRateLimiter.get_today_count w = (Ok 0, w).
Proof.
  intros Hh Hs.
  unfold EmailRateLimiter.get_today_count, EmailRateLimiter._get_today_key.
  rewrite bind_run. unfold gets at 1.
  unfold RedisClient.get. rewrite bind_run, command_healthy by exact Hh.
  unfold gets at 1. unfold count_key in Hs. now rewrite Hs.
Qed.

Lemma counter_reads_get (w : World) (n : Z) :
  redis_healthy w -> counter_reads w n ->
  EmailRateLimiter.get_today_count w = (Ok n, w).
Proof.
  intros Hh [[Hk ->] | [Hk Hn]].
  - now apply get_today_count_absent.
  - apply get_today_count_stored; trivial. lia.
Qed.

Lemma can_send_email_reads (settings : Settings.t) (w : World) (n : Z) :
  redis_healthy w -> counter_reads w n ->
  EmailRateLimiter.can_send_email settings w
  = (Ok (n <? Settings.daily_email_limit settings), w).
Proof.
  intros Hh Hc. unfold EmailRateLimiter.can_send_email.
  now rewrite bind_run, (counter_reads_get w n Hh Hc).
Qed.

(** Recording a send on a healthy store: the counter goes up by one and its
    expiry is set to 48 hours. *)
Lemma record_email_sent_reads (w : World) (n : Z) :
  redis_healthy w -> counter_reads w n ->
  EmailRateLimiter.record_email_sent w
  = (Ok (n + 1),
     set_expiry (<[count_key w := 172800]> (expiry w))
       (set_keys (<[count_key w := Str.of_int (n + 1)]> (keys w)) w)).
Proof.
  intros Hh Hc.
  unfold EmailRateLimiter.record_email_sent, EmailRateLimiter.increment_count,
    EmailRateLimiter._get_today_key.
  rewrite bind_run. unfold gets at 1. fold (count_key w).
  assert (Ei : RedisClient.incr (count_key w) w
               = (Ok (n + 1),
                  set_keys (<[count_key w := Str.of_int (n + 1)]> (keys w)) w)).
  { unfold RedisClient.incr. rewrite command_healthy by exact Hh.
    destruct Hc as [[Hk ->] | [Hk Hn]]; unfold count_key; rewrite Hk.
    - reflexivity.
    - rewrite to_int_strict_of_int.
      destruct (Z.leb_spec (- 2 ^ 63) n); [|lia].
      destruct (Z.ltb_spec n (2 ^ 63)); [|lia]. simpl.
      destruct (Z.eqb_spec n (2 ^ 63 - 1)); [lia | reflexivity]. }
  rewrite bind_run, Ei.
  assert (Hh' : redis_healthy
                  (set_keys (<[count_key w := Str.of_int (n + 1)]> (keys w)) w))
    by exact Hh.
  unfold RedisClient.expire. rewrite bind_run, command_healthy by exact Hh'.
  cbn [keys set_keys]. rewrite lookup_insert_eq.
  unfold mret, M_ret.
  destruct (Z.eqb_spec (n + 1) 0) as [E|E]; simpl.
  - destruct Hc as [[_ ->] | [_ Hn]]; [discriminate | lia].
  - reflexivity.
Qed.

(** ** Sending *)

Lemma send_email_ready (to_email subject : Json) (body : string)
    (html_body : option string) (w : World) :
  smtp_ready w = true ->
  exists w',
    EmailService.send_email to_email subject body html_body w = (Ok true, w')
    /\ smtp_calls w' = mkEmail to_email subject body html_body :: smtp_calls w
    /\ outbox w' = mkEmail to_email subject body html_body :: outbox w
    /\ smtp_faults w' = tl (smtp_faults w)
    /\ alert_sent_today w' = alert_sent_today w
    /\ keys w' = keys w /\ redis_faults w' = redis_faults w
    /\ outside_queues w w'.
Proof.
  intros H. unfold EmailService.send_email, try_except.
  rewrite bind_run. unfold EmailService.smtp_send, smtp_ready in *.
  cbn [smtp_faults set_smtp_calls].
  destruct (smtp_faults w) as [|[e|] rest] eqn:E; [|discriminate|];
    rewrite bind_run, logger_run; eexists; (split; [reflexivity|]);
    cbn; rewrite ?E; repeat split.
Qed.

Lemma send_email_fault (to_email subject : Json) (body : string)
    (html_body : option string) (w : World) (e : Exn)
    (rest : list (option Exn)) :
  smtp_faults w = Some e :: rest ->
  exists w',
    EmailService.send_email to_email subject body html_body w = (Raise e, w')
    /\ smtp_calls w' = mkEmail to_email subject body html_body :: smtp_calls w
    /\ outbox w' = outbox w
    /\ smtp_faults w' = rest
    /\ alert_sent_today w' = alert_sent_today w
    /\ keys w' = keys w /\ redis_faults w' = redis_faults w
    /\ outside_queues w w'.
Proof.
  intros H. unfold EmailService.send_email, try_except.
  rewrite bind_run. unfold EmailService.smtp_send.
  cbn [smtp_faults set_smtp_calls]. rewrite H.
  destruct (is_Exception e).
  - rewrite bind_run. unfold EmailService.log_failure.
    repeat match goal with
           | |- context [if ?b then _ else _] => destruct b
           end; rewrite logger_run; unfold raise;
      eexists; (split; [reflexivity|]); cbn; repeat split.
  - eexists. split; [reflexivity|]. cbn. repeat split.
Qed.

(** ** The rate limiter's alert *)

#[global] Instance mail_state_preorder : PreOrder mail_state.
Proof.
  split.
  - intros w. repeat split.
  - intros a b c (H1 & H2 & H3 & H4) (G1 & G2 & G3 & G4).
    repeat split; congruence.
Qed.

Lemma mail_state_get_today_count :
  keeps mail_state EmailRateLimiter.get_today_count.
Proof.
  unfold EmailRateLimiter.get_today_count, EmailRateLimiter._get_today_key.
  repeat first
    [ keeps_step
    | match goal with
      | |- keeps _ (RedisClient.get _) =>
          apply keeps_command; [typeclasses eauto | intros ? ?; repeat split |];
          apply keeps_gets; typeclasses eauto
      end ].
Qed.

(** Once the flag is set, a call returns at once: no read of the counter, no
    notification. *)
Lemma check_and_alert_flag (settings : Settings.t) (w : World) :
  alert_sent_today w = true ->
  EmailRateLimiter.check_and_alert settings w = (Ok tt, w).
Proof.
  intros H. unfold EmailRateLimiter.check_and_alert.
  rewrite bind_run. unfold gets at 1. now rewrite H.
Qed.

(** The ways a call can end when the flag is not set. *)
Lemma check_and_alert_cases (settings : Settings.t) (w w' : World)
    (r : Result unit) :
  alert_sent_today w = false ->
  EmailRateLimiter.check_and_alert settings w = (r, w') ->
  (smtp_calls w' = smtp_calls w /\ outbox w' = outbox w
   /\ alert_sent_today w' = false
   /\ (r = Ok tt
       \/ exists e, fst (EmailRateLimiter.get_today_count w) = Raise e
                    /\ r = Raise e))
  \/ (exists count,
        smtp_calls w' = alert_of settings count :: smtp_calls w
        /\ outbox w' = alert_of settings count :: outbox w
        /\ alert_sent_today w' = true /\ r = Ok tt)
  \/ (exists count e rest,
        smtp_calls w' = alert_of settings count :: smtp_calls w
        /\ outbox w' = outbox w /\ alert_sent_today w' = false
        /\ smtp_faults w = Some e :: rest
        /\ r = if is_Exception e then Ok tt else Raise e).
Proof.
  intros Hflag. unfold EmailRateLimiter.check_and_alert.
  rewrite bind_run. unfold gets at 1. rewrite Hflag. rewrite bind_run.
  pose proof (mail_state_get_today_count w) as (M1 & M2 & M3 & M4).
  destruct (EmailRateLimiter.get_today_count w) as [[count|e] w1]; simpl in *.
  2:{ intros [= <- <-]. left. rewrite M1, M2, M4.
      repeat split; trivial. right. exists e. split; reflexivity. }
  destruct (count >=? Settings.daily_email_limit settings).
  2:{ intros [= <- <-]. left. rewrite M1, M2, M4. auto. }
  destruct (negb (String.eqb (Settings.alert_email settings) EmptyString)).
  2:{ intros [= <- <-]. left. rewrite M1, M2, M4. auto. }
  unfold try_except. rewrite bind_run.
  destruct (smtp_faults w1) as [|[e|] rest] eqn:Ef.
  - destruct (send_email_ready (JStr (Settings.alert_email settings))
                (JStr "[EventFlow] Daily Email Limit Reached")
                (EmailRateLimiter.alert_body settings count) None w1)
      as (w2 & -> & C2 & O2 & _); [unfold smtp_ready; now rewrite Ef|].
    rewrite bind_run. unfold modify at 1. rewrite logger_run.
    intros [= <- <-]. right. left. exists count. cbn.
    unfold alert_of. rewrite C2, O2, M1, M2. auto.
  - destruct (send_email_fault (JStr (Settings.alert_email settings))
                (JStr "[EventFlow] Daily Email Limit Reached")
                (EmailRateLimiter.alert_body settings count) None w1 e rest Ef)
      as (w2 & -> & C2 & O2 & _ & A2 & _).
    right. right. exists count, e, rest. rewrite <- M3.
    destruct (is_Exception e).
    + rewrite logger_run in H. injection H as <- <-. cbn.
      unfold alert_of. rewrite C2, O2, A2, M1, M2, M4. auto.
    + injection H as <- <-. unfold alert_of.
      rewrite C2, O2, A2, M1, M2, M4. auto.
  - destruct (send_email_ready (JStr (Settings.alert_email settings))
                (JStr "[EventFlow] Daily Email Limit Reached")
                (EmailRateLimiter.alert_body settings count) None w1)
      as (w2 & -> & C2 & O2 & _); [unfold smtp_ready; now rewrite Ef|].
    rewrite bind_run. unfold modify at 1. rewrite logger_run.
    intros [= <- <-]. right. left. exists count. cbn.
    unfold alert_of. rewrite C2, O2, M1, M2. auto.
Qed.

Lemma alerts_flag (settings : Settings.t) (n : nat) (w : World) :
  alert_sent_today w = true -> alerts settings n w = w.
Proof.
  intros H. induction n as [|n IH]; [reflexivity|]. simpl.
  now rewrite check_and_alert_flag.
Qed.

(** However often the rate limiter is asked, at most one alert goes out. *)
Lemma alerts_at_most_one (settings : Settings.t) (n : nat) (w : World) :
  (length (outbox (alerts settings n w)) <= S (length (outbox w)))%nat.
Proof.
  revert w. induction n as [|n IH]; intros w; [simpl; lia|]. simpl.
  destruct (alert_sent_today w) eqn:Hflag.
  - rewrite check_and_alert_flag by exact Hflag. simpl snd.
    rewrite alerts_flag by exact Hflag. lia.
  - destruct (EmailRateLimiter.check_and_alert settings w) as [r w'] eqn:E.
    destruct (check_and_alert_cases settings w w' r Hflag E)
      as [(_ & O & _) | [(count & _ & O & F & _) | (count & e & rest & _ & O & _)]];
      simpl.
    + specialize (IH w'). rewrite O in IH. exact IH.
    + rewrite alerts_flag by exact F. rewrite O. simpl. lia.
    + specialize (IH w'). rewrite O in IH. exact IH.
Qed.

(** ** The notification processor *)

Lemma gets_run {A : Type} (f : World -> A) (w : World) :
  gets f w = (Ok (f w), w).
Proof. reflexivity. Qed.

Lemma process_no_destination (settings : Settings.t) (event : Event) (w : World) :
  truthy (NotificationProcessor.destination event) = false ->
  exists l, NotificationProcessor.process settings event w = (Ok tt, set_log l w).
Proof.
  intros H. unfold NotificationProcessor.process. cbv zeta.
  rewrite bind_run, logger_run, H. cbn [negb].
  rewrite bind_run, logger_run, logger_run. eexists. reflexivity.
Qed.

Lemma process_not_configured (settings : Settings.t) (event : Event) (w : World) :
  smtp_configured settings = false ->
  exists l, NotificationProcessor.process settings event w = (Ok tt, set_log l w).
Proof.
  intros H. destruct (truthy (NotificationProcessor.destination event)) eqn:Ht;
    [|now apply process_no_destination].
  unfold smtp_configured in H. apply negb_false_iff in H.
  unfold NotificationProcessor.process. cbv zeta.
  rewrite bind_run, logger_run, Ht, H. cbn [negb].
  rewrite logger_run. eexists. reflexivity.
Qed.

Lemma process_rate_limited (settings : Settings.t) (event : Event) (w : World)
    (n : Z) :
  truthy (NotificationProcessor.destination event) = true ->
  smtp_configured settings = true ->
  redis_healthy w -> counter_reads w n ->
  Settings.daily_email_limit settings <= n ->
  exists l,
    NotificationProcessor.process settings event w
    = EmailRateLimiter.check_and_alert settings (set_log l w).
Proof.
  intros Ht Hs Hh Hc Hn.
  unfold smtp_configured in Hs. apply negb_true_iff in Hs.
  unfold NotificationProcessor.process. cbv zeta.
  rewrite bind_run, logger_run, Ht, Hs. cbn [negb].
  rewrite bind_run.
  rewrite (can_send_email_reads settings _ n) by assumption.
  destruct (Z.ltb_spec n (Settings.daily_email_limit settings)); [lia|].
  cbn [negb]. rewrite bind_run, logger_run. eexists. reflexivity.
Qed.

(** Below the limit the message is sent; when the send goes through the
    count is recorded. *)
Lemma process_sends (settings : Settings.t) (event : Event) (w : World) (n : Z) :
  truthy (NotificationProcessor.destination event) = true ->
  smtp_configured settings = true ->
  redis_healthy w -> counter_reads w n ->
  n < Settings.daily_email_limit settings ->
  exists w',
    smtp_calls w'
    = NotificationProcessor.notification event (utcnow w) :: smtp_calls w
    /\ match smtp_faults w with
       | Some e :: rest =>
           NotificationProcessor.process settings event w = (Raise e, w')
           /\ outbox w' = outbox w /\ keys w' = keys w
       | _ =>
           NotificationProcessor.process settings event w = (Ok tt, w')
           /\ outbox w'
              = NotificationProcessor.notification event (utcnow w) :: outbox w
           /\ keys w' = <[count_key w := Str.of_int (n + 1)]> (keys w)
       end.
Proof.
  intros Ht Hs Hh Hc Hn.
  unfold smtp_configured in Hs. apply negb_true_iff in Hs.
  unfold NotificationProcessor.process. cbv zeta.
  rewrite bind_run, logger_run, Ht, Hs. cbn [negb].
  rewrite bind_run.
  rewrite (can_send_email_reads settings _ n) by assumption.
  destruct (Z.ltb_spec n (Settings.daily_email_limit settings)); [|lia].
  cbn [negb]. rewrite bind_run, gets_run. cbv beta iota. cbn [utcnow set_log].
  rewrite bind_run.
  match goal with
  | |- context [EmailService.send_email ?a ?b ?c ?d ?x] =>
      set (w1 := x);
      pose proof (send_email_ready a b c d w1) as Hok;
      pose proof (send_email_fault a b c d w1) as Hbad
  end.
  assert (Ef : smtp_faults w1 = smtp_faults w) by reflexivity.
  destruct (smtp_faults w) as [|[e|] rest] eqn:E.
  - destruct Hok as (w2 & -> & C2 & O2 & _ & _ & K2 & F2 & Q2);
      [unfold smtp_ready; now rewrite Ef|].
    assert (Hh2 : redis_healthy w2).
    { destruct Hh as [Hc1 Hf1]. destruct Q2 as (_ & _ & _ & _ & _ & Q6 & _).
      split; [now rewrite Q6 | now rewrite F2]. }
    assert (Hc2 : counter_reads w2 n).
    { destruct Q2 as (_ & _ & _ & Q4 & _). unfold counter_reads in *.
      now rewrite K2, Q4. }
    rewrite bind_run, (record_email_sent_reads w2 n Hh2 Hc2).
    rewrite bind_run, gets_run. cbv beta iota. rewrite logger_run.
    eexists. split; [|split; [reflexivity|]]; cbn.
    + exact C2.
    + split; [exact O2|]. rewrite K2. f_equal.
      destruct Q2 as (_ & _ & _ & Q4 & _). unfold count_key. now rewrite Q4.
  - destruct (Hbad e rest Ef) as (w2 & -> & C2 & O2 & _ & _ & K2 & _).
    eexists. split; [|split; [reflexivity|]]; [exact C2 | now split].
  - destruct Hok as (w2 & -> & C2 & O2 & _ & _ & K2 & F2 & Q2);
      [unfold smtp_ready; now rewrite Ef|].
    assert (Hh2 : redis_healthy w2).
    { destruct Hh as [Hc1 Hf1]. destruct Q2 as (_ & _ & _ & _ & _ & Q6 & _).
      split; [now rewrite Q6 | now rewrite F2]. }
    assert (Hc2 : counter_reads w2 n).
    { destruct Q2 as (_ & _ & _ & Q4 & _). unfold counter_reads in *.
      now rewrite K2, Q4. }
    rewrite bind_run, (record_email_sent_reads w2 n Hh2 Hc2).
    rewrite bind_run, gets_run. cbv beta iota. rewrite logger_run.
    eexists. split; [|split; [reflexivity|]]; cbn.
    + exact C2.
    + split; [exact O2|]. rewrite K2. f_equal.
      destruct Q2 as (_ & _ & _ & Q4 & _). unfold count_key. now rewrite Q4.
Qed.

Lemma cons_neq {A : Type} (a : A) (l : list A) : a :: l <> l.
Proof.
  intros E. apply (f_equal (@length A)) in E. simpl in E. lia.
Qed.

Lemma no_key_no_destination (event : Event) :
  dict_get "to_email" (payload event) = None ->
  dict_get "email" (payload event) = None ->
  truthy (NotificationProcessor.destination event) = false.
Proof.
  intros H1 H2.
  unfold NotificationProcessor.destination, NotificationProcessor.get.
  now rewrite H1, H2.
Qed.

(** With the counter store answering, [process] ends well or raises what a
    send raised. *)
Lemma process_raise_from_send (settings : Settings.t) (event : Event)
    (w w' : World) (n : Z) (r : Result unit) :
  redis_healthy w -> counter_reads w n ->
  NotificationProcessor.process settings event w = (r, w') ->
  r = Ok tt
  \/ exists e rest, r = Raise e /\ smtp_faults w = Some e :: rest
                    /\ smtp_calls w' <> smtp_calls w.
Proof.
  intros Hh Hc E.
  destruct (truthy (NotificationProcessor.destination event)) eqn:Ht.
  2:{ destruct (process_no_destination settings event w Ht) as (l & El).
      rewrite El in E. injection E as <- <-. now left. }
  destruct (smtp_configured settings) eqn:Hs.
  2:{ destruct (process_not_configured settings event w Hs) as (l & El).
      rewrite El in E. injection E as <- <-. now left. }
  destruct (Z.lt_ge_cases n (Settings.daily_email_limit settings)) as [Hn|Hn].
  - destruct (process_sends settings event w n Ht Hs Hh Hc Hn) as (w2 & C2 & H).
    destruct (smtp_faults w) as [|[e|] rest].
    + destruct H as (El & _). rewrite El in E. injection E as <- <-. now left.
    + destruct H as (El & _). rewrite El in E. injection E as <- <-.
      right. exists e, rest. repeat split. rewrite C2. apply cons_neq.
    + destruct H as (El & _). rewrite El in E. injection E as <- <-. now left.
  - destruct (process_rate_limited settings event w n Ht Hs Hh Hc Hn)
      as (l & El).
    rewrite El in E.
    destruct (alert_sent_today w) eqn:Hf.
    + rewrite check_and_alert_flag in E by exact Hf. injection E as <- <-.
      now left.
    + destruct (check_and_alert_cases settings (set_log l w) w' r Hf E)
        as [(_ & _ & _ & [-> | (e & Eg & _)])
           | [(count & _ & _ & _ & ->)
             | (count & e & rest & C & _ & _ & F & ->)]].
      * now left.
      * rewrite (counter_reads_get (set_log l w) n Hh Hc) in Eg. discriminate.
      * now left.
      * destruct (is_Exception e); [now left|].
        right. exists e, rest. repeat split; [exact F|].
        rewrite C. apply cons_neq.
Qed.




(** The first call at the limit, with an alert destination and an SMTP
    server that takes the message: one alert, and the flag is set. *)
Lemma check_and_alert_sends (settings : Settings.t) (w : World) (n : Z) :
  alert_sent_today w = false -> redis_healthy w -> counter_reads w n ->
  Settings.daily_email_limit settings <= n ->
  Settings.alert_email settings <> EmptyString ->
  smtp_ready w = true ->
  exists w',
    EmailRateLimiter.check_and_alert settings w = (Ok tt, w')
    /\ smtp_calls w' = alert_of settings n :: smtp_calls w
    /\ outbox w' = alert_of settings n :: outbox w
    /\ alert_sent_today w' = true
    /\ redis_healthy w' /\ counter_reads w' n.
Proof.
  intros Hf Hh Hc Hn Ha Hs. unfold EmailRateLimiter.check_and_alert.
  rewrite bind_run, gets_run, Hf. cbv beta iota.
  rewrite bind_run, (counter_reads_get w n Hh Hc).
  destruct (Z.geb_spec n (Settings.daily_email_limit settings)); [|lia].
  apply String.eqb_neq in Ha. rewrite Ha. cbn [negb].
  unfold try_except. rewrite bind_run.
  destruct (send_email_ready (JStr (Settings.alert_email settings))
              (JStr "[EventFlow] Daily Email Limit Reached")
              (EmailRateLimiter.alert_body settings n) None w Hs)
    as (w2 & -> & C2 & O2 & _ & _ & K2 & F2 & Q2).
  rewrite bind_run. unfold modify at 1. rewrite logger_run.
  eexists. split; [reflexivity|]. cbn.
  destruct Q2 as (_ & _ & _ & Q4 & _ & Q6 & _). destruct Hh as [Hc1 Hf1].
  split; [exact C2|]. split; [exact O2|]. split; [reflexivity|]. split.
  - split; cbn; [now rewrite Q6 | now rewrite F2].
  - unfold counter_reads in *. cbn. now rewrite K2, Q4.
Qed.




(** ** The bound on [retry_count] *)

#[global] Instance keeps_bounded_preorder (settings : Settings.t) :
  PreOrder (keeps_bounded settings).
Proof. split; [intros w H; exact H | intros a b c H1 H2 H; auto]. Qed.

Lemma outside_queues_bounded (settings : Settings.t) (w w' : World) :
  outside_queues w w' -> keeps_bounded settings w w'.
Proof.
  intros (H1 & H2 & H3 & _) [Hw Hq]. unfold queue_bounded, World_ok, main_queue in *.
  now rewrite H1, H2, H3.
Qed.

Lemma keeps_outside_bounded {A : Type} (settings : Settings.t) (m : M A) :
  keeps outside_queues m -> keeps (keeps_bounded settings) m.
Proof. intros H w. apply outside_queues_bounded, H. Qed.

Lemma World_ok_tl (w w' : World) :
  utcnow w' = utcnow w -> uuids w' = tl (uuids w) ->
  World_ok w = true -> World_ok w' = true.
Proof.
  unfold World_ok. intros -> ->. rewrite !andb_true_iff. intros [H1 H2].
  split; [|exact H2]. destruct (uuids w); simpl in *; [reflexivity|].
  now apply andb_true_iff in H1 as [_ H1].
Qed.

Lemma Forall_removelast {A : Type} (P : A -> Prop) (l : list A) :
  Forall P l -> Forall P (removelast l).
Proof.
  induction 1 as [|x l Hx Hl IH]; simpl; [constructor|].
  destruct l; [constructor|]. constructor; assumption.
Qed.

Lemma last_In {A : Type} (l : list A) (x : A) : last l = Some x -> In x l.
Proof.
  intros H. apply last_Some in H as [l' ->]. apply in_or_app. right. now left.
Qed.

(** Pushing a record that is good, or onto another list than the main
    queue, keeps the invariant, whether or not the command goes through. *)
Lemma keeps_lpush (settings : Settings.t) (key value : string) :
  (key = Settings.redis_queue_name settings ->
   good_record (Settings.max_retries settings) value) ->
  keeps (keeps_bounded settings) (RedisClient.lpush key value).
Proof.
  intros Hg. unfold RedisClient.lpush.
  apply keeps_command; [typeclasses eauto | |].
  - intros w x. now apply outside_queues_bounded.
  - intros w [Hw Hq]. split; [exact Hw|]. unfold main_queue in *. simpl.
    destruct (decide (key = Settings.redis_queue_name settings)) as [->|Hne].
    + rewrite lookup_total_insert_eq. constructor; auto.
    + now rewrite lookup_total_insert_ne.
Qed.

Lemma keeps_bounded_logger (settings : Settings.t) (level name : string)
    (fields : list (string * string)) :
  keeps (keeps_bounded settings) (logger level name fields).
Proof. apply keeps_outside_bounded, keeps_logger. Qed.

(** The handler of a failure keeps the invariant when the failed event is
    one the invariant speaks of. *)
Lemma keeps_handle_failure (settings : Settings.t) (event : Event) (error : Exn) :
  Event_ok event = true ->
  retry_count event <= Settings.max_retries settings ->
  keeps (keeps_bounded settings)
    (EventConsumer._handle_failure settings event error).
Proof.
  intros Hok Hrc. unfold EventConsumer._handle_failure.
  apply keeps_bind; [typeclasses eauto | |].
  - unfold RetryLog.log_retry_decision.
    destruct (RetryDecision.should_retry _); apply keeps_bounded_logger.
  - intros _.
    destruct (RetryDecision.should_retry _) eqn:Ed.
    + apply should_retry_true_iff in Ed as [_ Hlt]. simpl in Hlt.
      unfold RedisClient.requeue_event, RedisClient.enqueue_event.
      repeat first [ keeps_step | simple apply keeps_bounded_logger ].
      apply keeps_lpush. intros _. left. exists (increment_retry event).
      split; [now apply increment_retry_ok|]. split; [simpl; lia | reflexivity].
    + unfold RedisClient.send_to_dlq.
      repeat first [ keeps_step | simple apply keeps_bounded_logger ].
      apply keeps_lpush. intros _. right. now exists event, (RetryDecision.reason
        (RetryHandler.should_retry (EventConsumer.retry_handler settings) event error)).
Qed.

Lemma keeps_process_event (settings : Settings.t) (event : Event) :
  Event_ok event = true ->
  retry_count event <= Settings.max_retries settings ->
  keeps (keeps_bounded settings) (EventConsumer._process_event settings event).
Proof.
  intros Hok Hrc. unfold EventConsumer._process_event.
  apply keeps_try_except; [typeclasses eauto | |].
  - repeat first [ keeps_step | simple apply keeps_bounded_logger ].
    apply keeps_outside_bounded, keeps_process.
  - intros e. now apply keeps_handle_failure.
Qed.

(** Sequencing, when what the first computation returns matters to the
    second. *)
Lemma bounded_bind {A B : Type} (settings : Settings.t) (Q : A -> Prop)
    (m : M A) (k : A -> M B) :
  (forall w, queue_bounded settings w ->
             queue_bounded settings (snd (m w))
             /\ forall a, fst (m w) = Ok a -> Q a) ->
  (forall a, Q a -> keeps (keeps_bounded settings) (k a)) ->
  keeps (keeps_bounded settings) (m ≫= k).
Proof.
  intros Hm Hk w Hw. rewrite bind_run. destruct (Hm w Hw) as [H1 H2].
  destruct (m w) as [[a|e] w']; simpl in *; [|exact H1].
  apply Hk; auto.
Qed.

Lemma queue_bounded_faults (settings : Settings.t) (rest : list (option Exn))
    (w : World) :
  queue_bounded settings w -> queue_bounded settings (set_redis_faults rest w).
Proof. intros H. exact H. Qed.

(** What [BRPOP] takes from the main queue is a good record, and what it
    leaves are good records. *)
Lemma brpop_bounded (settings : Settings.t) (timeout : Z) (w : World) :
  queue_bounded settings w ->
  queue_bounded settings
    (snd (RedisClient.brpop (Settings.redis_queue_name settings) timeout w))
  /\ forall a,
       fst (RedisClient.brpop (Settings.redis_queue_name settings) timeout w)
       = Ok a ->
       match a with
       | Some (_, value) => good_record (Settings.max_retries settings) value
       | None => True
       end.
Proof.
  intros Hw. unfold RedisClient.brpop.
  match goal with |- context [RedisClient.command ?f] => set (pop := f) end.
  assert (Hpop : forall w0, queue_bounded settings w0 ->
            queue_bounded settings (snd (pop w0))
            /\ forall a, fst (pop w0) = Ok a ->
                 match a with
                 | Some (_, value) =>
                     good_record (Settings.max_retries settings) value
                 | None => True
                 end).
  { intros w0 [H1 H2]. unfold pop, main_queue in *.
    destruct (last (lists w0 !!! Settings.redis_queue_name settings)) as [v|] eqn:El.
    - simpl. split.
      + split; [exact H1|]. unfold main_queue. simpl.
        rewrite lookup_total_insert_eq. now apply Forall_removelast.
      + intros a [= <-]. apply last_In in El.
        rewrite List.Forall_forall in H2. now apply H2.
    - simpl. split; [now split|]. now intros a [= <-]. }
  clearbody pop. unfold RedisClient.command. rewrite bind_run.
  unfold RedisClient.client. destruct (connected w).
  - unfold RedisClient.transport.
    destruct (redis_faults w) as [|[e|] rest].
    + now apply Hpop.
    + simpl. split; [exact Hw | discriminate].
    + apply Hpop. exact Hw.
  - simpl. split; [exact Hw | discriminate].
Qed.

Lemma keeps_default_event_id (settings : Settings.t) (data : Json) :
  keeps (keeps_bounded settings) (RedisClient.default_event_id data).
Proof.
  intros w [H1 H2].
  destruct (default_event_id_run data w)
    as (id & w' & E & Hl & Hu & _ & _ & _ & _ & _ & Hi).
  rewrite E. simpl. split.
  - destruct Hi as [Hi|Hi].
    + unfold World_ok in *. now rewrite Hi, Hu.
    + now apply (World_ok_tl w).
  - unfold main_queue in *. now rewrite Hl.
Qed.

Lemma model_validate_dlq (id : UUID) (now : datetime) (e : Event)
    (reason : string) :
  exists err,
    model_validate id now
      (JObj [("event", model_dump e); ("reason", JStr reason)]) = Raise err.
Proof. eexists. reflexivity. Qed.

(** An event the worker takes from a good queue has a count within the
    bound. *)
Lemma dequeue_event_bounded (settings : Settings.t) (timeout : Z) (w : World) :
  queue_bounded settings w ->
  queue_bounded settings (snd (RedisClient.dequeue_event settings timeout w))
  /\ forall a,
       fst (RedisClient.dequeue_event settings timeout w) = Ok a ->
       match a with
       | Some e => Event_ok e = true
                   /\ retry_count e <= Settings.max_retries settings
       | None => True
       end.
Proof.
  intros Hw. unfold RedisClient.dequeue_event, RedisClient.queue_name.
  rewrite bind_run.
  destruct (brpop_bounded settings timeout w Hw) as [H1 H2].
  destruct (RedisClient.brpop _ _ w) as [[a|err] w1]; simpl in H1, H2;
    [|simpl; split; [exact H1 | discriminate]].
  specialize (H2 a eq_refl). destruct a as [[key v]|];
    [|simpl; split; [exact H1 | now intros a [= <-]]].
  destruct H2 as [(e & Hok & Hrc & ->)|(e & reason & Hok & ->)].
  - unfold model_dump_json.
    rewrite loads_dumps by (try apply model_dump_ok; try exact Hok; now left).
    rewrite bind_ok with (a := model_dump e) (w' := w1) by reflexivity.
    rewrite bind_ok with (a := mkUUID 0 0 0 0 0) (w' := w1) by reflexivity.
    rewrite bind_ok with (a := utcnow w1) (w' := w1) by reflexivity.
    rewrite model_validate_dump by exact Hok.
    rewrite bind_ok with (a := e) (w' := w1) by reflexivity.
    rewrite bind_run, logger_run. simpl. split; [exact H1|].
    intros a [= <-]. now split.
  - unfold dlq_entry_text.
    rewrite loads_dumps
      by (try (now right);
          cbn [Json_ok map fst snd forallb distinct]; now rewrite model_dump_ok).
    set (data := JObj [("event", model_dump e); ("reason", JStr reason)]).
    rewrite bind_ok with (a := data) (w' := w1) by reflexivity.
    rewrite bind_run.
    pose proof (keeps_default_event_id settings data w1 H1) as Hd.
    destruct (default_event_id_run data w1) as (id & w2 & E & _).
    rewrite E in Hd |- *. cbn [snd] in Hd.
    rewrite bind_ok with (a := utcnow w2) (w' := w2) by reflexivity.
    destruct (model_validate_dlq id (utcnow w2) e reason) as [err' Herr'].
    fold data in Herr'. rewrite Herr'.
    rewrite bind_raise with (e := err') (w' := w2) by reflexivity.
    cbn [fst snd]. split; [exact Hd | discriminate].
Qed.

Lemma keeps_bounded_sleep (settings : Settings.t) (seconds : Z) :
  keeps (keeps_bounded settings) (sleep seconds).
Proof. intros w H. exact H. Qed.

(** One pass of the consumer loop keeps the invariant. *)
Lemma keeps_consume_iteration (settings : Settings.t) :
  keeps (keeps_bounded settings) (EventConsumer._consume_iteration settings).
Proof.
  unfold EventConsumer._consume_iteration.
  apply keeps_try_except; [typeclasses eauto | |].
  - apply keeps_try_except; [typeclasses eauto | |].
    + apply bounded_bind with
        (Q := fun a => match a with
                       | Some e => Event_ok e = true
                                   /\ retry_count e <= Settings.max_retries settings
                       | None => True
                       end).
      * apply dequeue_event_bounded.
      * intros [e|] Ha.
        -- destruct Ha as [Hok Hrc].
           apply keeps_bind; [typeclasses eauto | |].
           ++ now apply keeps_process_event.
           ++ intros _. apply keeps_mret. typeclasses eauto.
        -- apply keeps_mret. typeclasses eauto.
    + intros e.
      repeat first [ keeps_step | simple apply keeps_bounded_logger ].
  - intros e.
    repeat first [ keeps_step | simple apply keeps_bounded_logger
                 | simple apply keeps_bounded_sleep ].
Qed.

(** A fresh event is an event of the model, with count 0. *)
Lemma new_event_bounded (settings : Settings.t) (event_create : EventCreate)
    (w : World) :
  Json_ok (JObj (create_payload event_create)) = true ->
  queue_bounded settings w ->
  queue_bounded settings (snd (EventPublisher.new_event event_create w))
  /\ forall a,
       fst (EventPublisher.new_event event_create w) = Ok a ->
       Event_ok a = true /\ retry_count a = 0.
Proof.
  intros Hp [Hw Hq]. unfold EventPublisher.new_event. rewrite bind_run.
  pose proof Hw as Hw'. unfold World_ok in Hw'.
  apply andb_true_iff in Hw' as [Hu Hn].
  unfold uuid4. destruct (uuids w) as [|u rest] eqn:Eu.
  - rewrite bind_run, gets_run. cbn [fst snd mret]. split; [now split|].
    intros a [= <-]. split; [|reflexivity].
    unfold Event_ok. cbn [event_id payload created_at retry_count].
    rewrite Hp, Hn. reflexivity.
  - rewrite bind_run, gets_run. cbn [fst snd mret]. split.
    + split; [|exact Hq]. apply (World_ok_tl w); [reflexivity | | exact Hw].
      cbn. now rewrite Eu.
    + intros a [= <-]. split; [|reflexivity].
      unfold Event_ok. cbn [event_id payload created_at retry_count utcnow set_uuids].
      cbn [forallb] in Hu. apply andb_true_iff in Hu as [Hu _].
      rewrite Hp, Hu. cbn [andb]. now rewrite Hn.
Qed.

(** Publishing keeps the invariant, when the bound is not negative. *)
Lemma keeps_publish (settings : Settings.t) (event_create : EventCreate) :
  0 <= Settings.max_retries settings ->
  Json_ok (JObj (create_payload event_create)) = true ->
  keeps (keeps_bounded settings) (EventPublisher.publish settings event_create).
Proof.
  intros Hb Hp. unfold EventPublisher.publish.
  apply bounded_bind with (Q := fun a => Event_ok a = true /\ retry_count a = 0).
  - intros w. now apply new_event_bounded.
  - intros e [Hok Hrc]. unfold RedisClient.enqueue_event.
    repeat first [ keeps_step | simple apply keeps_bounded_logger ].
    apply keeps_lpush. intros _. left. exists e.
    split; [exact Hok|]. split; [lia | reflexivity].
Qed.

Lemma keeps_stop (settings : Settings.t) :
  keeps (keeps_bounded settings) EventConsumer.stop.
Proof.
  unfold EventConsumer.stop.
  apply keeps_bind; [typeclasses eauto | apply keeps_bounded_logger |].
  intros _ w H. exact H.
Qed.

Lemma step_bounded (settings : Settings.t) (a : Action) (w : World) :
  0 <= Settings.max_retries settings -> Action_ok a = true ->
  queue_bounded settings w -> queue_bounded settings (step settings a w).
Proof.
  intros Hb Ha Hw. destruct a as [event_create| |]; cbn [step].
  - now apply keeps_publish.
  - destruct (running w); [|exact Hw]. now apply keeps_consume_iteration.
  - now apply keeps_stop.
Qed.

Lemma run_bounded (settings : Settings.t) (actions : list Action) (w : World) :
  0 <= Settings.max_retries settings -> forallb Action_ok actions = true ->
  queue_bounded settings w -> queue_bounded settings (run settings actions w).
Proof.
  intros Hb. revert w. unfold run.
  induction actions as [|a actions IH]; intros w Ha Hw; cbn [fold_left];
    [exact Hw|].
  cbn [forallb] in Ha. apply andb_true_iff in Ha as [Ha1 Ha2].
  apply IH; [exact Ha2|]. now apply step_bounded.
Qed.

(** A good record that reads as an event reads as one within the bound. *)
Lemma good_record_decode (bound : Z) (r : string) (id : UUID) (now : datetime)
    (e : Event) :
  good_record bound r -> decode_record id now r = Ok e ->
  Event_ok e = true /\ retry_count e <= bound.
Proof.
  intros [(e0 & Hok & Hrc & ->)|(e0 & reason & Hok & ->)] Hd.
  - rewrite decode_model_dump_json in Hd by exact Hok.
    injection Hd as <-. now split.
  - destruct (decode_dlq_entry id now e0 reason Hok) as [err Herr].
    unfold dlq_entry_text in Hd. rewrite Herr in Hd. discriminate.
Qed.

#[global] Instance adds_only_preorder (settings : Settings.t)
    (P : string -> Prop) : PreOrder (adds_only settings P).
Proof.
  split.
  - intros w r H. now left.
  - intros a b c H1 H2 r H. destruct (H2 r H) as [H3|H3]; [|now right].
    now apply H1.
Qed.

Lemma keeps_outside_adds {A : Type} (settings : Settings.t)
    (P : string -> Prop) (m : M A) :
  keeps outside_queues m -> keeps (adds_only settings P) m.
Proof.
  intros H w r Hr. destruct (H w) as (Hl & _). unfold main_queue in *.
  rewrite Hl in Hr. now left.
Qed.

Lemma keeps_adds_lpush (settings : Settings.t) (P : string -> Prop)
    (key value : string) :
  (key = Settings.redis_queue_name settings -> P value) ->
  keeps (adds_only settings P) (RedisClient.lpush key value).
Proof.
  intros Hp. unfold RedisClient.lpush.
  apply keeps_command; [typeclasses eauto | |].
  - intros w x r Hr. now left.
  - intros w r Hr. unfold main_queue in *. simpl in Hr.
    destruct (decide (key = Settings.redis_queue_name settings)) as [->|Hne].
    + rewrite lookup_total_insert_eq in Hr. destruct Hr as [<-|Hr]; auto.
    + rewrite lookup_total_insert_ne in Hr by exact Hne. now left.
Qed.

(** What the handler of a failure adds to the main queue: the record of
    the event with its count raised, when the decision is to retry; a
    dead-letter record, when the dead-letter queue is the main queue. *)
Lemma keeps_adds_handle_failure (settings : Settings.t) (event : Event)
    (error : Exn) :
  let decision :=
    RetryHandler.should_retry (EventConsumer.retry_handler settings) event error in
  keeps
    (adds_only settings
       (fun r =>
          (RetryDecision.should_retry decision = true
           /\ r = model_dump_json (increment_retry event))
          \/ (Settings.redis_dlq_name settings = Settings.redis_queue_name settings
              /\ r = dlq_entry_text event (RetryDecision.reason decision))))
    (EventConsumer._handle_failure settings event error).
Proof.
  cbv zeta. unfold EventConsumer._handle_failure.
  apply keeps_bind; [typeclasses eauto | |].
  - unfold RetryLog.log_retry_decision.
    destruct (RetryDecision.should_retry _);
      apply keeps_outside_adds, keeps_logger.
  - intros _.
    destruct (RetryDecision.should_retry _) eqn:Ed.
    + unfold RedisClient.requeue_event, RedisClient.enqueue_event.
      repeat first [ keeps_step
                   | simple apply keeps_outside_adds; simple apply keeps_logger ].
      apply keeps_adds_lpush. intros _. left. now split.
    + unfold RedisClient.send_to_dlq.
      repeat first [ keeps_step
                   | simple apply keeps_outside_adds; simple apply keeps_logger ].
      apply keeps_adds_lpush. intros Hn. right. now split.
Qed.

Lemma fresh_queue_bounded (settings : Settings.t) (events : list Event)
    (w : World) :
  0 <= Settings.max_retries settings -> World_ok w = true ->
  fresh_queue settings events w -> queue_bounded settings w.
Proof.
  intros Hb Hw [Hq He]. split; [exact Hw|]. rewrite Hq. clear Hq.
  induction events as [|e events IH]; cbn [map]; [constructor|].
  cbn [forallb] in He. apply andb_true_iff in He as [He1 He2].
  apply andb_true_iff in He1 as [Hok Hrc]. apply Z.eqb_eq in Hrc.
  constructor; [|now apply IH]. left. exists e.
  split; [exact Hok|]. split; [lia | reflexivity].
Qed.



(** * Further properties of the code *)

(** ** src/worker/retry.py *)

Lemma existsb_eqb_In (x : string) (l : list string) :
  existsb (String.eqb x) l = true <-> In x l.
Proof.
  rewrite existsb_exists. split.
  - intros (y & Hy & E). apply String.eqb_eq in E. now subst.
  - intros H. exists x. split; [exact H | apply String.eqb_refl].
Qed.

Lemma no_indicator_tests (message : string) :
  (forall indicator,
     In indicator (RetryHandler.transient_indicators
                   ++ RetryHandler.permanent_indicators) ->
     ~ Str.occurs_ci indicator message) ->
  existsb (fun indicator => Str.contains indicator (Str.lower message))
    RetryHandler.transient_indicators = false
  /\ existsb (fun indicator => Str.contains indicator (Str.lower message))
       RetryHandler.permanent_indicators = false.
Proof.
  intros H. split.
  - destruct (existsb _ RetryHandler.transient_indicators) eqn:E; [|reflexivity].
    apply transient_test in E as (i & Hi & Ho).
    exfalso. apply (H i); [apply in_or_app; now left | exact Ho].
  - destruct (existsb _ RetryHandler.permanent_indicators) eqn:E; [|reflexivity].
    apply permanent_test in E as (i & Hi & Ho).
    exfalso. apply (H i); [apply in_or_app; now right | exact Ho].
Qed.

(** X1.  When the message of an error holds none of the twelve indicators,
    the name of its type decides: ConnectionError, TimeoutError and OSError
    are TRANSIENT, ValueError, KeyError and TypeError are PERMANENT, and
    every other type is UNKNOWN. *)
Theorem classify_failure_by_type (error : Exn) :
  (forall indicator,
     In indicator (RetryHandler.transient_indicators
                   ++ RetryHandler.permanent_indicators) ->
     ~ Str.occurs_ci indicator (exn_msg error)) ->
  (In (exn_type error) RetryHandler.transient_types ->
   RetryHandler.classify_failure error = TRANSIENT)
  /\ (In (exn_type error) RetryHandler.permanent_types ->
      RetryHandler.classify_failure error = PERMANENT)
  /\ (~ In (exn_type error) RetryHandler.transient_types ->
      ~ In (exn_type error) RetryHandler.permanent_types ->
      RetryHandler.classify_failure error = UNKNOWN).
Proof.
  intros H. destruct (no_indicator_tests _ H) as [Ht Hp].
  unfold RetryHandler.classify_failure. rewrite Ht, Hp.
  split; [|split].
  - intros Hin. apply existsb_eqb_In in Hin. now rewrite Hin.
  - intros Hin.
    assert (Hn : existsb (String.eqb (exn_type error))
                   RetryHandler.transient_types = false).
    { simpl in Hin.
      destruct Hin as [<-|[<-|[<-|[]]]]; reflexivity. }
    rewrite Hn. apply existsb_eqb_In in Hin. now rewrite Hin.
  - intros Hn1 Hn2.
    destruct (existsb _ RetryHandler.transient_types) eqn:E1;
      [apply existsb_eqb_In in E1; contradiction|].
    destruct (existsb _ RetryHandler.permanent_types) eqn:E2;
      [apply existsb_eqb_In in E2; contradiction|].
    reflexivity.
Qed.

Lemma classify_failure_by_type_witness :
  (forall indicator,
     In indicator (RetryHandler.transient_indicators
                   ++ RetryHandler.permanent_indicators) ->
     ~ Str.occurs_ci indicator "disk full")
  /\ RetryHandler.classify_failure (mkExn StdException "OSError" "disk full")
     = TRANSIENT
  /\ RetryHandler.classify_failure (mkExn StdException "KeyError" "disk full")
     = PERMANENT
  /\ RetryHandler.classify_failure
       (mkExn StdException "ConnectionRefusedError" "disk full")
     = UNKNOWN.
Proof.
  assert (H : forall indicator,
             In indicator (RetryHandler.transient_indicators
                           ++ RetryHandler.permanent_indicators) ->
             ~ Str.occurs_ci indicator "disk full").
  { intros i Hi. simpl in Hi.
    repeat (destruct Hi as [<-|Hi]; [apply not_occurs_ci; reflexivity|]).
    destruct Hi. }
  split; [exact H|].
  split; [|split].
  - apply (classify_failure_by_type (mkExn StdException "OSError" "disk full") H).
    simpl. auto.
  - apply (classify_failure_by_type (mkExn StdException "KeyError" "disk full") H).
    simpl. auto.
  - apply (classify_failure_by_type
             (mkExn StdException "ConnectionRefusedError" "disk full") H).
    + simpl. intros [E|[E|[E|[]]]]; discriminate.
    + simpl. intros [E|[E|[E|[]]]]; discriminate.
Defined.

(** X2.  [RetryHandler(max_retries=0)] does not switch retries off: 0 is
    falsy, so the handler takes the configured [max_retries]; any other
    argument is kept.  With a positive configured value, a first failure
    that is not permanent is therefore still retried. *)
Theorem retry_handler_zero_argument (settings : Settings.t) :
  RetryHandler.max_retries (RetryHandler.init settings (Some 0))
  = Settings.max_retries settings
  /\ (forall m, m <> 0 ->
        RetryHandler.max_retries (RetryHandler.init settings (Some m)) = m)
  /\ (forall event error,
        0 < Settings.max_retries settings -> retry_count event = 0 ->
        RetryHandler.classify_failure error <> PERMANENT ->
        RetryDecision.should_retry
          (RetryHandler.should_retry (RetryHandler.init settings (Some 0))
             event error) = true).
Proof.
  split; [reflexivity|]. split.
  - intros m Hm. unfold RetryHandler.init. cbn.
    destruct (Z.eqb_spec m 0); [contradiction | reflexivity].
  - intros event error Hpos Hrc Hc. apply should_retry_true_iff.
    split; [exact Hc|]. cbn. lia.
Qed.

Lemma retry_handler_zero_argument_witness :
  let error := mkExn StdException "ConnectionError" "connection timeout" in
  0 < Settings.max_retries Settings.default
  /\ retry_count sample_event = 0
  /\ RetryHandler.classify_failure error <> PERMANENT
  /\ RetryDecision.should_retry
       (RetryHandler.should_retry (RetryHandler.init Settings.default (Some 0))
          sample_event error) = true.
Proof.
  cbv zeta.
  assert (H1 : 0 < Settings.max_retries Settings.default) by (cbn; lia).
  assert (H2 : retry_count sample_event = 0) by reflexivity.
  assert (H3 : RetryHandler.classify_failure
                 (mkExn StdException "ConnectionError" "connection timeout")
               <> PERMANENT) by discriminate.
  split; [exact H1|]. split; [exact H2|]. split; [exact H3|].
  destruct (retry_handler_zero_argument Settings.default) as (_ & _ & H).
  exact (H sample_event _ H1 H2 H3).
Defined.

(** ** src/app/services/redis_client.py *)

Lemma command_not_connected {A : Type} (run : M A) (w : World) :
  connected w = false -> RedisClient.command run w = (Raise not_connected, w).
Proof. apply command_disconnected. Qed.

(** X3.  Before [connect] (or after [disconnect]) every operation of the
    client raises the RuntimeError of the [client] property and changes
    nothing: nothing is pushed, popped or logged. *)
Theorem operations_need_connection (settings : Settings.t) (event : Event)
    (reason : string) (timeout : Z) (w : World) :
  connected w = false ->
  RedisClient.enqueue_event settings event w = (Raise not_connected, w)
  /\ RedisClient.dequeue_event settings timeout w = (Raise not_connected, w)
  /\ RedisClient.send_to_dlq settings event reason w = (Raise not_connected, w)
  /\ RedisClient.requeue_event settings event w = (Raise not_connected, w)
  /\ RedisClient.get_queue_length settings w = (Raise not_connected, w)
  /\ RedisClient.get_dlq_length settings w = (Raise not_connected, w).
Proof.
  intros H.
  assert (He : forall e,
             RedisClient.enqueue_event settings e w = (Raise not_connected, w)).
  { intros e. unfold RedisClient.enqueue_event.
    apply bind_raise. now apply command_not_connected. }
  repeat split.
  - apply He.
  - unfold RedisClient.dequeue_event.
    apply bind_raise. now apply command_not_connected.
  - unfold RedisClient.send_to_dlq.
    apply bind_raise. now apply command_not_connected.
  - unfold RedisClient.requeue_event. apply bind_raise. apply He.
  - now apply command_not_connected.
  - now apply command_not_connected.
Qed.

Lemma operations_need_connection_witness :
  let w := set_connected false quiet_world in
  connected w = false
  /\ RedisClient.enqueue_event Settings.default sample_event w
     = (Raise not_connected, w)
  /\ RedisClient.get_queue_length Settings.default w = (Raise not_connected, w).
Proof.
  cbv zeta.
  assert (H : connected (set_connected false quiet_world) = false) by reflexivity.
  split; [exact H|].
  destruct (operations_need_connection Settings.default sample_event
              EmptyString 1 _ H) as (H1 & _ & _ & _ & H5 & _).
  split; [exact H1 | exact H5].
Defined.

Lemma connect_run (w : World) :
  RedisClient.connect w
  = (Ok tt,
     if connected w then w
     else set_log (mkLog "info" "redis_connected" [] :: log w)
            (set_connected true w)).
Proof. unfold RedisClient.connect. now destruct (connected w). Qed.

Lemma disconnect_run (w : World) :
  RedisClient.disconnect w
  = (Ok tt,
     if connected w then
       set_log (mkLog "info" "redis_disconnected" [] :: log w)
         (set_connected false w)
     else w).
Proof. unfold RedisClient.disconnect. now destruct (connected w). Qed.

(** X4.  [connect] and [disconnect] never raise and are idempotent: a
    second [connect] in a row does nothing (no second connection, no
    second log line), and likewise a second [disconnect].  After
    [disconnect] the client is unusable, whatever its state was before:
    [enqueue_event] raises the RuntimeError of the [client] property and
    writes nothing; after [connect], on a server that answers, it
    succeeds. *)
Theorem connect_disconnect (settings : Settings.t) (event : Event) (w : World) :
  (_ ← RedisClient.connect; RedisClient.connect) w = RedisClient.connect w
  /\ (_ ← RedisClient.disconnect; RedisClient.disconnect) w
     = RedisClient.disconnect w
  /\ fst ((_ ← RedisClient.disconnect;
           RedisClient.enqueue_event settings event) w) = Raise not_connected
  /\ lists (snd ((_ ← RedisClient.disconnect;
                  RedisClient.enqueue_event settings event) w)) = lists w
  /\ (redis_faults w = [] ->
      fst ((_ ← RedisClient.connect;
            RedisClient.enqueue_event settings event) w) = Ok tt
      /\ main_queue settings
           (snd ((_ ← RedisClient.connect;
                  RedisClient.enqueue_event settings event) w))
         = model_dump_json event :: main_queue settings w).
Proof.
  split; [|split; [|split; [|split]]].
  - rewrite bind_run. unfold RedisClient.connect.
    destruct (connected w) eqn:E; [now rewrite E|].
    rewrite logger_run. reflexivity.
  - rewrite bind_run. unfold RedisClient.disconnect.
    destruct (connected w) eqn:E; [|now rewrite E].
    rewrite logger_run. reflexivity.
  - rewrite bind_run, disconnect_run. cbv beta iota.
    unfold RedisClient.enqueue_event.
    erewrite bind_raise; [reflexivity|].
    apply command_not_connected. now destruct (connected w) eqn:E.
  - rewrite bind_run, disconnect_run. cbv beta iota.
    unfold RedisClient.enqueue_event.
    erewrite bind_raise;
      [|apply command_not_connected; now destruct (connected w) eqn:E].
    cbn [snd]. now destruct (connected w).
  - intros Hf. rewrite bind_run, connect_run. cbv beta iota.
    match goal with |- context [RedisClient.enqueue_event settings event ?x] =>
      destruct (enqueue_event_ready settings event x) as (w' & -> & L & _) end.
    { unfold redis_ready. destruct (connected w) eqn:E; cbn; rewrite ?E, Hf;
        reflexivity. }
    cbn [fst snd]. split; [reflexivity|].
    unfold main_queue in *. rewrite L, lookup_total_insert_eq.
    now destruct (connected w).
Qed.

Lemma connect_disconnect_witness :
  let w := set_connected false quiet_world in
  redis_faults w = []
  /\ fst ((_ ← RedisClient.connect;
           RedisClient.enqueue_event Settings.default sample_event) w) = Ok tt
  /\ main_queue Settings.default
       (snd ((_ ← RedisClient.connect;
              RedisClient.enqueue_event Settings.default sample_event) w))
     = model_dump_json sample_event :: main_queue Settings.default w.
Proof.
  cbv zeta.
  assert (H : redis_faults (set_connected false quiet_world) = [])
    by reflexivity.
  split; [exact H|].
  exact (proj2 (proj2 (proj2 (proj2
           (connect_disconnect Settings.default sample_event
              (set_connected false quiet_world))))) H).
Defined.

(** *** A server that answers: the exact effect of the operations *)

Lemma lpush_healthy (key value : string) (w : World) :
  redis_healthy w ->
  RedisClient.lpush key value w
  = (Ok (Z.of_nat (length (value :: lists w !!! key))),
     set_lists (<[key := value :: lists w !!! key]> (lists w)) w).
Proof. intros H. unfold RedisClient.lpush. now rewrite command_healthy. Qed.

Lemma enqueue_event_healthy (settings : Settings.t) (event : Event) (w : World) :
  redis_healthy w ->
  RedisClient.enqueue_event settings event w
  = (Ok tt,
     set_log (mkLog "info" "event_enqueued"
                [("event_id", UUID_str (event_id event));
                 ("event_type", EventType_value (event_type event));
                 ("queue", Settings.redis_queue_name settings)] :: log w)
       (set_lists (<[Settings.redis_queue_name settings
                     := model_dump_json event :: main_queue settings w]>
                     (lists w)) w)).
Proof.
  intros H. unfold RedisClient.enqueue_event.
  rewrite bind_run, lpush_healthy by exact H. reflexivity.
Qed.

Lemma brpop_healthy (key : string) (timeout : Z) (w : World) :
  redis_healthy w ->
  RedisClient.brpop key timeout w
  = match last (lists w !!! key) with
    | Some value =>
        (Ok (Some (key, value)),
         set_lists (<[key := removelast (lists w !!! key)]> (lists w)) w)
    | None => (Ok None, w)
    end.
Proof. intros H. unfold RedisClient.brpop. now rewrite command_healthy. Qed.

Lemma dequeue_event_healthy (settings : Settings.t) (timeout : Z) (e : Event)
    (rest : list string) (w : World) :
  redis_healthy w -> Event_ok e = true ->
  main_queue settings w = rest ++ [model_dump_json e] ->
  RedisClient.dequeue_event settings timeout w
  = (Ok (Some e),
     set_log (mkLog "info" "event_dequeued"
                [("event_id", UUID_str (event_id e));
                 ("retry_count", Str.of_int (retry_count e))] :: log w)
       (set_lists (<[Settings.redis_queue_name settings := rest]> (lists w)) w)).
Proof.
  intros Hr Hok Hq. unfold RedisClient.dequeue_event.
  rewrite bind_run, brpop_healthy by exact Hr.
  unfold main_queue, RedisClient.queue_name in *. rewrite Hq.
  rewrite last_snoc, removelast_last.
  unfold model_dump_json.
  rewrite loads_dumps by (try (now left); now apply model_dump_ok).
  rewrite bind_run. unfold mret at 1, M_ret at 1.
  rewrite bind_run, default_event_id_dump.
  rewrite bind_run. unfold gets at 1.
  rewrite model_validate_dump by exact Hok.
  rewrite bind_run. unfold mret at 1, M_ret at 1.
  reflexivity.
Qed.

Lemma dequeue_event_empty (settings : Settings.t) (timeout : Z) (w : World) :
  redis_healthy w -> main_queue settings w = [] ->
  RedisClient.dequeue_event settings timeout w = (Ok None, w).
Proof.
  intros Hr Hq. unfold RedisClient.dequeue_event.
  rewrite bind_run, brpop_healthy by exact Hr.
  unfold main_queue, RedisClient.queue_name in *. now rewrite Hq.
Qed.

Lemma llen_healthy (key : string) (w : World) :
  redis_healthy w ->
  RedisClient.llen key w = (Ok (Z.of_nat (length (lists w !!! key))), w).
Proof. intros H. unfold RedisClient.llen. now rewrite command_healthy. Qed.

Lemma send_to_dlq_healthy (settings : Settings.t) (event : Event)
    (reason : string) (w : World) :
  redis_healthy w ->
  RedisClient.send_to_dlq settings event reason w
  = (Ok tt,
     set_log (mkLog "warning" "event_dead_lettered"
                [("event_id", UUID_str (event_id event)); ("reason", reason);
                 ("retry_count", Str.of_int (retry_count event))] :: log w)
       (set_lists (<[Settings.redis_dlq_name settings
                     := dlq_entry_text event reason :: dead_letters settings w]>
                     (lists w)) w)).
Proof.
  intros H. unfold RedisClient.send_to_dlq.
  rewrite bind_run, lpush_healthy by exact H. reflexivity.
Qed.

Lemma enqueue_all_healthy (settings : Settings.t) (events : list Event)
    (w : World) :
  redis_healthy w ->
  exists w',
    enqueue_all settings events w = (Ok tt, w')
    /\ redis_healthy w'
    /\ main_queue settings w'
       = rev (map model_dump_json events) ++ main_queue settings w.
Proof.
  revert w. induction events as [|e events IH]; intros w H.
  - exists w. repeat split; apply H.
  - cbn [enqueue_all]. rewrite bind_run, enqueue_event_healthy by exact H.
    cbv beta iota.
    match goal with |- context [enqueue_all settings events ?w1] =>
      destruct (IH w1 H) as (w' & E & Hh & Hq) end.
    exists w'. split; [exact E|]. split; [exact Hh|].
    rewrite Hq. unfold main_queue. cbn [lists set_log set_lists].
    rewrite lookup_total_insert_eq. cbn [map rev].
    now rewrite <- app_assoc.
Qed.

Lemma drain_healthy (settings : Settings.t) (timeout : Z) (events : list Event)
    (w : World) :
  redis_healthy w -> forallb Event_ok events = true ->
  main_queue settings w = rev (map model_dump_json events) ->
  exists w',
    drain settings timeout (length events) w = (Ok events, w')
    /\ redis_healthy w' /\ main_queue settings w' = [].
Proof.
  revert w. induction events as [|e events IH]; intros w H Hok Hq.
  - exists w. repeat split; try apply H. exact Hq.
  - cbn [forallb] in Hok. apply andb_true_iff in Hok as [Hoke Hok].
    cbn [map rev] in Hq. cbn [length drain].
    rewrite bind_run, (dequeue_event_healthy _ _ e _ w H Hoke Hq).
    cbv beta iota. rewrite bind_run.
    match goal with |- context [drain settings timeout _ ?w1] =>
      destruct (IH w1 H Hok) as (w' & E & Hh & Hq') end.
    { unfold main_queue. cbn [lists set_log set_lists].
      now rewrite lookup_total_insert_eq. }
    rewrite E. exists w'. repeat split; try apply Hh. exact Hq'.
Qed.

(** X5.  The queue is first in, first out: on a server that answers,
    events enqueued one after the other onto an empty main queue are
    returned by as many calls of [dequeue_event] in the order they were
    enqueued, each equal to the event that was written, and the queue is
    empty again. *)
Theorem queue_is_fifo (settings : Settings.t) (timeout : Z)
    (events : list Event) (w : World) :
  redis_healthy w -> forallb Event_ok events = true ->
  main_queue settings w = [] ->
  exists w',
    (_ ← enqueue_all settings events;
     drain settings timeout (length events)) w = (Ok events, w')
    /\ main_queue settings w' = [].
Proof.
  intros H Hok Hq. rewrite bind_run.
  destruct (enqueue_all_healthy settings events w H) as (w1 & E & Hh & Hq1).
  rewrite E. rewrite Hq, app_nil_r in Hq1.
  destruct (drain_healthy settings timeout events w1 Hh Hok Hq1)
    as (w' & E' & _ & Hq').
  exists w'. split; [exact E' | exact Hq'].
Qed.

Lemma queue_is_fifo_witness :
  let second := increment_retry sample_event in
  redis_healthy quiet_world
  /\ forallb Event_ok [sample_event; second] = true
  /\ main_queue Settings.default quiet_world = []
  /\ exists w',
       (_ ← enqueue_all Settings.default [sample_event; second];
        drain Settings.default 1 2) quiet_world
       = (Ok [sample_event; second], w')
       /\ main_queue Settings.default w' = [].
Proof.
  cbv zeta.
  assert (H1 : redis_healthy quiet_world) by (split; reflexivity).
  assert (H2 : forallb Event_ok [sample_event; increment_retry sample_event]
               = true) by reflexivity.
  assert (H3 : main_queue Settings.default quiet_world = []) by reflexivity.
  split; [exact H1|]. split; [exact H2|]. split; [exact H3|].
  exact (queue_is_fifo Settings.default 1
           [sample_event; increment_retry sample_event] quiet_world H1 H2 H3).
Defined.

(** X6.  On a server that answers, [get_queue_length] and [get_dlq_length]
    return the number of records of their list and change nothing.  The
    length of the main queue read after [enqueue_event] is one more than
    before; the length of the dead-letter queue read after [send_to_dlq] is
    one more than before, and, when the two lists have different names,
    dead-lettering leaves the length of the main queue as it was. *)
Theorem queue_lengths (settings : Settings.t) (event : Event) (reason : string)
    (w : World) :
  redis_healthy w ->
  RedisClient.get_queue_length settings w
  = (Ok (Z.of_nat (length (main_queue settings w))), w)
  /\ RedisClient.get_dlq_length settings w
     = (Ok (Z.of_nat (length (dead_letters settings w))), w)
  /\ fst ((_ ← RedisClient.enqueue_event settings event;
           RedisClient.get_queue_length settings) w)
     = Ok (Z.of_nat (length (main_queue settings w)) + 1)
  /\ fst ((_ ← RedisClient.send_to_dlq settings event reason;
           RedisClient.get_dlq_length settings) w)
     = Ok (Z.of_nat (length (dead_letters settings w)) + 1)
  /\ (Settings.redis_dlq_name settings <> Settings.redis_queue_name settings ->
      fst ((_ ← RedisClient.send_to_dlq settings event reason;
            RedisClient.get_queue_length settings) w)
      = Ok (Z.of_nat (length (main_queue settings w)))).
Proof.
  intros H. unfold RedisClient.get_queue_length, RedisClient.get_dlq_length,
    RedisClient.queue_name, RedisClient.dlq_name.
  split; [now apply llen_healthy|]. split; [now apply llen_healthy|].
  split; [|split].
  - rewrite bind_run, enqueue_event_healthy by exact H.
    rewrite llen_healthy by exact H. cbn [fst lists set_log set_lists].
    rewrite lookup_total_insert_eq. cbn [length]. f_equal. lia.
  - rewrite bind_run, send_to_dlq_healthy by exact H.
    rewrite llen_healthy by exact H. cbn [fst lists set_log set_lists].
    rewrite lookup_total_insert_eq. cbn [length]. f_equal. lia.
  - intros Hne. rewrite bind_run, send_to_dlq_healthy by exact H.
    rewrite llen_healthy by exact H. cbn [fst lists set_log set_lists].
    now rewrite lookup_total_insert_ne.
Qed.

Lemma queue_lengths_witness :
  redis_healthy quiet_world
  /\ Settings.redis_dlq_name Settings.default
     <> Settings.redis_queue_name Settings.default
  /\ RedisClient.get_queue_length Settings.default quiet_world
     = (Ok 0, quiet_world)
  /\ fst ((_ ← RedisClient.enqueue_event Settings.default sample_event;
           RedisClient.get_queue_length Settings.default) quiet_world)
     = Ok 1
  /\ fst ((_ ← RedisClient.send_to_dlq Settings.default sample_event "gone";
           RedisClient.get_queue_length Settings.default) quiet_world)
     = Ok 0.
Proof.
  assert (H1 : redis_healthy quiet_world) by (split; reflexivity).
  assert (H2 : Settings.redis_dlq_name Settings.default
               <> Settings.redis_queue_name Settings.default) by discriminate.
  split; [exact H1|]. split; [exact H2|].
  destruct (queue_lengths Settings.default sample_event "gone" quiet_world H1)
    as (A & _ & B & _ & C).
  split; [exact A|]. split; [exact B | exact (C H2)].
Defined.

Lemma ping_cases (w : World) :
  RedisHealth.ping w
  = if connected w then
      match redis_faults w with
      | Some e :: rest => (Raise e, set_redis_faults rest w)
      | None :: rest => (Ok true, set_redis_faults rest w)
      | [] => (Ok true, w)
      end
    else (Raise not_connected, w).
Proof.
  unfold RedisHealth.ping, RedisClient.command. rewrite bind_run.
  unfold RedisClient.client. destruct (connected w); [|reflexivity].
  unfold RedisClient.transport. now destruct (redis_faults w) as [|[e|] rest].
Qed.

(** X7.  [health_check] answers [False] instead of raising: for a client
    that is not connected (the RuntimeError of the [client] property is
    caught like any other), and for a ping that fails with an exception;
    it answers [True] when the ping goes through.  The only errors it lets
    through are those outside [Exception].  The /health endpoint turns the
    answer into one of two bodies, and never touches the queues. *)
Theorem health_check_reports (w : World) :
  (connected w = false -> RedisHealth.health_check w = (Ok false, w))
  /\ (redis_ready w = true ->
      RedisHealth.health_check w = (Ok true, pop_fault w))
  /\ (forall e rest,
        connected w = true -> redis_faults w = Some e :: rest ->
        is_Exception e = true ->
        RedisHealth.health_check w = (Ok false, set_redis_faults rest w))
  /\ (forall e, fst (RedisHealth.health_check w) = Raise e ->
                is_Exception e = false)
  /\ (forall body w',
        API.health_check w = (Ok body, w') ->
        body = [("status", "healthy"); ("redis", "connected")]
        \/ body = [("status", "degraded"); ("redis", "disconnected")])
  /\ lists (snd (API.health_check w)) = lists w
  /\ log (snd (API.health_check w)) = log w.
Proof.
  assert (Hc : forall w0,
    RedisHealth.health_check w0
    = match RedisHealth.ping w0 with
      | (Ok _, w') => (Ok true, w')
      | (Raise e, w') => if is_Exception e then (Ok false, w') else (Raise e, w')
      end).
  { intros w0. unfold RedisHealth.health_check, try_except. rewrite bind_run.
    now destruct (RedisHealth.ping w0) as [[b|e] w']. }
  assert (Ha : API.health_check w
    = match RedisHealth.health_check w with
      | (Ok b, w') =>
          (Ok [("status", if b : bool then "healthy" else "degraded");
               ("redis", if b : bool then "connected" else "disconnected")], w')
      | (Raise e, w') => (Raise e, w')
      end).
  { unfold API.health_check. rewrite bind_run.
    now destruct (RedisHealth.health_check w) as [[b|e] w']. }
  split; [|split; [|split; [|split; [|split; [|split]]]]].
  - intros H. rewrite Hc, ping_cases, H. reflexivity.
  - intros H. unfold redis_ready in H. apply andb_true_iff in H as [H1 H2].
    rewrite Hc, ping_cases, H1. unfold pop_fault.
    destruct (redis_faults w) as [|[e|] rest] eqn:E; try discriminate;
      cbn [tl]; [|reflexivity].
    destruct w; cbn in *; now subst.
  - intros e rest H1 H2 H3. rewrite Hc, ping_cases, H1, H2, H3. reflexivity.
  - intros e. rewrite Hc, ping_cases.
    destruct (connected w); [|discriminate].
    destruct (redis_faults w) as [|[e'|] rest]; try discriminate.
    destruct (is_Exception e') eqn:E; [discriminate|].
    cbn [fst]. now intros [= <-].
  - intros body w'. rewrite Ha.
    destruct (RedisHealth.health_check w) as [[[|]|e] w1]; intros [= <- _]; auto.
  - rewrite Ha, Hc, ping_cases.
    destruct (connected w); [|reflexivity].
    destruct (redis_faults w) as [|[e'|] rest]; try reflexivity.
    now destruct (is_Exception e').
  - rewrite Ha, Hc, ping_cases.
    destruct (connected w); [|reflexivity].
    destruct (redis_faults w) as [|[e'|] rest]; try reflexivity.
    now destruct (is_Exception e').
Qed.

Lemma health_check_reports_witness :
  let e := mkExn StdException "ConnectionError" "Error 111 connecting to redis" in
  let down := set_redis_faults [Some e] quiet_world in
  connected (set_connected false quiet_world) = false
  /\ RedisHealth.health_check (set_connected false quiet_world)
     = (Ok false, set_connected false quiet_world)
  /\ redis_ready quiet_world = true
  /\ RedisHealth.health_check quiet_world = (Ok true, pop_fault quiet_world)
  /\ connected down = true /\ redis_faults down = [Some e]
  /\ is_Exception e = true
  /\ RedisHealth.health_check down = (Ok false, set_redis_faults [] down).
Proof.
  cbv zeta.
  assert (H1 : connected (set_connected false quiet_world) = false)
    by reflexivity.
  assert (H2 : redis_ready quiet_world = true) by reflexivity.
  split; [exact H1|].
  split; [exact (proj1 (health_check_reports _) H1)|].
  split; [exact H2|].
  split; [exact (proj1 (proj2 (health_check_reports _)) H2)|].
  split; [reflexivity|]. split; [reflexivity|]. split; [reflexivity|].
  apply (proj1 (proj2 (proj2 (health_check_reports
           (set_redis_faults
              [Some (mkExn StdException "ConnectionError"
                       "Error 111 connecting to redis")] quiet_world))))
           (mkExn StdException "ConnectionError" "Error 111 connecting to redis")
           []); reflexivity.
Defined.

(** X8.  The /stats endpoint has no handler of its own: on a server that
    answers it returns the two lengths and changes nothing, but for a
    client that is not connected, or when the first command fails, the
    error of the client reaches the caller (where the health check would
    answer "degraded"). *)
Theorem queue_stats_reports (settings : Settings.t) (w : World) :
  (redis_healthy w ->
   API.queue_stats settings w
   = (Ok [("queue_length", Z.of_nat (length (main_queue settings w)));
          ("dlq_length", Z.of_nat (length (dead_letters settings w)))], w))
  /\ (connected w = false ->
      API.queue_stats settings w = (Raise not_connected, w))
  /\ (forall e rest,
        connected w = true -> redis_faults w = Some e :: rest ->
        API.queue_stats settings w = (Raise e, set_redis_faults rest w)).
Proof.
  unfold API.queue_stats, RedisClient.get_queue_length,
    RedisClient.get_dlq_length, RedisClient.queue_name, RedisClient.dlq_name.
  split; [|split].
  - intros H. rewrite bind_run, llen_healthy by exact H.
    cbv beta iota. rewrite bind_run, llen_healthy by exact H. reflexivity.
  - intros H. apply bind_raise. now apply command_not_connected.
  - intros e rest H1 H2. apply bind_raise. now apply command_fault.
Qed.

Lemma queue_stats_reports_witness :
  redis_healthy quiet_world
  /\ API.queue_stats Settings.default quiet_world
     = (Ok [("queue_length", 0); ("dlq_length", 0)], quiet_world)
  /\ connected (set_connected false quiet_world) = false
  /\ API.queue_stats Settings.default (set_connected false quiet_world)
     = (Raise not_connected, set_connected false quiet_world).
Proof.
  assert (H1 : redis_healthy quiet_world) by (split; reflexivity).
  assert (H2 : connected (set_connected false quiet_world) = false)
    by reflexivity.
  split; [exact H1|].
  split; [exact (proj1 (queue_stats_reports Settings.default quiet_world) H1)|].
  split; [exact H2|].
  exact (proj1 (proj2 (queue_stats_reports Settings.default _)) H2).
Defined.

(** X9.  [redis_lifespan] runs the body of its block with a connected
    client and disconnects afterwards whatever the body did: the client is
    disconnected at the end whether the body returned or raised, and the
    outcome of the block is the outcome of the body. *)
Theorem redis_lifespan_disconnects {A : Type} (body : M A) (w : World) :
  exists w1,
    connected w1 = true /\ lists w1 = lists w /\ keys w1 = keys w
    /\ fst (RedisHealth.redis_lifespan body w) = fst (body w1)
    /\ connected (snd (RedisHealth.redis_lifespan body w)) = false
    /\ lists (snd (RedisHealth.redis_lifespan body w)) = lists (snd (body w1)).
Proof.
  unfold RedisHealth.redis_lifespan. rewrite bind_run, connect_run.
  cbv beta iota.
  match goal with |- context [EventConsumer.try_finally body _ ?x] =>
    set (w1 := x) end.
  exists w1.
  split. { subst w1. now destruct (connected w) eqn:E. }
  split. { subst w1. now destruct (connected w). }
  split. { subst w1. now destruct (connected w). }
  unfold EventConsumer.try_finally.
  destruct (body w1) as [r w2]. rewrite disconnect_run. cbn [fst snd].
  repeat split; now destruct (connected w2) eqn:E.
Qed.

(** ** src/app/services/email_service.py *)

Lemma log_failure_run (to_email : Json) (e : Exn) (w : World) :
  exists record,
    EmailService.log_failure to_email e w = (Ok tt, set_log (record :: log w) w)
    /\ log_level record = "error"
    /\ log_event record
       = if String.eqb (exn_type e) "SMTPAuthenticationError"
         then "email_auth_failed"
         else if existsb (String.eqb (exn_type e))
                   EmailService.smtp_exception_types
         then "email_send_failed"
         else "email_unexpected_error".
Proof.
  unfold EmailService.log_failure.
  destruct (String.eqb (exn_type e) "SMTPAuthenticationError");
    [|destruct (existsb _ EmailService.smtp_exception_types)];
    eexists; (split; [apply logger_run|]); split; reflexivity.
Qed.

(** X10.  [send_email] makes exactly one attempt and never returns
    [False]: either the message is delivered, "email_sent_successfully" is
    logged and the result is [True], or the exception of the SMTP
    conversation is logged once (as "email_auth_failed" for an
    SMTPAuthenticationError, "email_send_failed" for the other SMTP errors,
    "email_unexpected_error" for anything else) and raised again
    unchanged, with nothing delivered. *)
Theorem send_email_outcomes (to_email subject : Json) (body : string)
    (html_body : option string) (w : World) :
  let email := mkEmail to_email subject body html_body in
  let r := fst (EmailService.send_email to_email subject body html_body w) in
  let w' := snd (EmailService.send_email to_email subject body html_body w) in
  smtp_calls w' = email :: smtp_calls w
  /\ r <> Ok false
  /\ ((r = Ok true /\ outbox w' = email :: outbox w
       /\ log w' = mkLog "info" "email_sent_successfully" [] :: log w)
      \/ (exists e rest,
            smtp_faults w = Some e :: rest /\ r = Raise e
            /\ outbox w' = outbox w
            /\ (is_Exception e = true ->
                exists record,
                  log w' = record :: log w
                  /\ log_level record = "error"
                  /\ log_event record
                     = if String.eqb (exn_type e) "SMTPAuthenticationError"
                       then "email_auth_failed"
                       else if existsb (String.eqb (exn_type e))
                                 EmailService.smtp_exception_types
                       then "email_send_failed"
                       else "email_unexpected_error"))).
Proof.
  cbv zeta. unfold EmailService.send_email, try_except.
  rewrite bind_run. unfold EmailService.smtp_send.
  cbn [smtp_faults set_smtp_calls].
  destruct (smtp_faults w) as [|[e|] rest] eqn:E.
  - cbn. split; [reflexivity|]. split; [discriminate|]. left. auto.
  - cbv beta iota. destruct (is_Exception e) eqn:Ex.
    + rewrite bind_run.
      match goal with |- context [EmailService.log_failure to_email e ?w0] =>
        destruct (log_failure_run to_email e w0) as (record & -> & Hl & Hv) end.
      cbn. split; [reflexivity|]. split; [discriminate|]. right.
      exists e, rest. repeat split. intros _. exists record. auto.
    + cbn. split; [reflexivity|]. split; [discriminate|]. right.
      exists e, rest. repeat split. intros H. congruence.
  - cbn. split; [reflexivity|]. split; [discriminate|]. left. auto.
Qed.

Lemma send_email_outcomes_witness :
  let e :=
    mkExn StdException "SMTPServerDisconnected" "Connection unexpectedly closed" in
  let w := set_smtp_faults [Some e] quiet_world in
  let result :=
    EmailService.send_email (JStr "someone@example.org") (JStr "Hello")
      "Hello" None w in
  is_Exception e = true
  /\ fst result = Raise e
  /\ outbox (snd result) = outbox w
  /\ exists record,
       log (snd result) = record :: log w
       /\ log_event record = "email_send_failed".
Proof.
  cbv zeta.
  destruct (send_email_outcomes (JStr "someone@example.org") (JStr "Hello")
              "Hello" None
              (set_smtp_faults
                 [Some (mkExn StdException "SMTPServerDisconnected"
                          "Connection unexpectedly closed")] quiet_world))
    as (_ & _ & [(H & _)|(e & rest & Hf & Hr & Ho & Hl)]).
  - vm_compute in H. discriminate.
  - injection Hf as <- <-.
    split; [reflexivity|]. split; [exact Hr|]. split; [exact Ho|].
    destruct (Hl eq_refl) as (record & L & _ & V).
    exists record. split; [exact L | exact V].
Defined.

(** ** src/app/api/events.py *)

Lemma new_event_run (event_create : EventCreate) (w : World) :
  EventPublisher.new_event event_create w
  = (Ok (mkEvent (hd (mkUUID 0 0 0 0 0) (uuids w))
           (create_event_type event_create) (create_user_id event_create)
           (create_payload event_create) (utcnow w) 0 "1.0"),
     set_uuids (tl (uuids w)) w).
Proof.
  unfold EventPublisher.new_event. rewrite bind_run. unfold uuid4.
  destruct (uuids w) as [|u rest] eqn:E; cbn; [|reflexivity].
  destruct w; cbn in *; now subst.
Qed.

Lemma publish_ready (settings : Settings.t) (event_create : EventCreate)
    (w : World) :
  redis_ready w = true ->
  let event :=
    mkEvent (hd (mkUUID 0 0 0 0 0) (uuids w))
      (create_event_type event_create) (create_user_id event_create)
      (create_payload event_create) (utcnow w) 0 "1.0" in
  exists w',
    EventPublisher.publish settings event_create w = (Ok event, w')
    /\ main_queue settings w' = model_dump_json event :: main_queue settings w.
Proof.
  intros H. cbv zeta. unfold EventPublisher.publish.
  rewrite bind_run, new_event_run. cbv beta iota.
  rewrite bind_run.
  match goal with |- context [RedisClient.enqueue_event settings ?e ?w1] =>
    destruct (enqueue_event_ready settings e w1 H) as (w2 & E & L & _) end.
  rewrite E. cbv beta iota. rewrite bind_run, logger_run.
  eexists. split; [reflexivity|].
  unfold main_queue. cbn [lists set_log]. rewrite L.
  now rewrite lookup_total_insert_eq.
Qed.

Lemma publish_raise (settings : Settings.t) (event_create : EventCreate)
    (w : World) (e : Exn) :
  (connected w = false /\ e = not_connected)
  \/ (connected w = true /\ is_Exception e = true
      /\ exists rest, redis_faults w = Some e :: rest) ->
  exists w1,
    EventPublisher.publish settings event_create w = (Raise e, w1)
    /\ lists w1 = lists w /\ is_Exception e = true.
Proof.
  intros He. unfold EventPublisher.publish.
  rewrite bind_run, new_event_run. cbv beta iota.
  unfold RedisClient.enqueue_event, RedisClient.lpush.
  destruct He as [[Hc ->]|(Hc & Hx & rest & Hf)].
  - eexists. split; [|split; [|reflexivity]].
    + apply bind_raise. apply bind_raise. now apply command_not_connected.
    + reflexivity.
  - eexists. split; [|split; [|exact Hx]].
    + apply bind_raise. apply bind_raise.
      apply command_fault with (rest := rest); [exact Hc | exact Hf].
    + reflexivity.
Qed.

(** X11.  [create_event] answers a request that reaches the queue with the
    text of the new event's id, the status QUEUED and the time of
    creation, and the record of that event, with [retry_count] 0, is at the
    left end of the main queue.  When the queue cannot be reached (the
    client is not connected, or the push fails with an exception) the
    caller gets an HTTPException 503 with a fixed detail instead of the
    original error, the failure is logged, and no record is written. *)
Theorem create_event_outcomes (settings : Settings.t)
    (event_create : EventCreate) (w : World) :
  let event :=
    mkEvent (hd (mkUUID 0 0 0 0 0) (uuids w))
      (create_event_type event_create) (create_user_id event_create)
      (create_payload event_create) (utcnow w) 0 "1.0" in
  let unavailable :=
    API.HTTPException 503 "Failed to queue event. Please try again." in
  (redis_ready w = true ->
   exists w',
     API.create_event settings event_create w
     = (Ok (mkEventResponse (UUID_str (event_id event)) QUEUED (utcnow w)), w')
     /\ main_queue settings w'
        = model_dump_json event :: main_queue settings w)
  /\ (forall e,
        (connected w = false /\ e = not_connected)
        \/ (connected w = true /\ is_Exception e = true
            /\ exists rest, redis_faults w = Some e :: rest) ->
        exists w',
          API.create_event settings event_create w = (Raise unavailable, w')
          /\ lists w' = lists w
          /\ exists older,
               log w'
               = mkLog "error" "api_event_creation_failed"
                   [("error", exn_msg e);
                    ("user_id", create_user_id event_create)] :: older)
  /\ exn_msg unavailable = "503: Failed to queue event. Please try again.".
Proof.
  cbv zeta. split; [|split; [|reflexivity]].
  - intros H. destruct (publish_ready settings event_create w H) as (w1 & E & Q).
    unfold API.create_event, try_except.
    rewrite (bind_ok _ _ w w1 _ E). rewrite bind_run, logger_run.
    cbn [mret M_ret to_response event_id created_at].
    eexists. split; [reflexivity|]. exact Q.
  - intros e He.
    destruct (publish_raise settings event_create w e He) as (w1 & Hp & Hl & Hx).
    unfold API.create_event, try_except.
    rewrite (bind_raise _ _ w w1 e Hp). rewrite Hx.
    rewrite bind_run, logger_run. cbv beta iota.
    eexists. split; [reflexivity|]. split; [exact Hl|].
    eexists. reflexivity.
Qed.

Lemma create_event_outcomes_witness :
  let event_create :=
    mkEventCreate "user-123" USER_NOTIFICATION [("message", JStr "Hello")] in
  let down := set_connected false quiet_world in
  redis_ready quiet_world = true
  /\ (exists w',
        API.create_event Settings.default event_create quiet_world
        = (Ok (mkEventResponse "00000000-0000-0000-0000-000000000000" QUEUED
                 (utcnow quiet_world)), w')
        /\ length (main_queue Settings.default w') = 1%nat)
  /\ connected down = false
  /\ exists w',
       API.create_event Settings.default event_create down
       = (Raise (API.HTTPException 503
                   "Failed to queue event. Please try again."), w')
       /\ lists w' = lists down.
Proof.
  cbv zeta.
  assert (H1 : redis_ready quiet_world = true) by reflexivity.
  assert (H2 : connected (set_connected false quiet_world) = false)
    by reflexivity.
  split; [exact H1|]. split.
  - destruct (proj1 (create_event_outcomes Settings.default
                       (mkEventCreate "user-123" USER_NOTIFICATION
                          [("message", JStr "Hello")]) quiet_world) H1)
      as (w' & E & Q).
    exists w'. split; [exact E|]. rewrite Q. reflexivity.
  - split; [exact H2|].
    destruct (proj1 (proj2 (create_event_outcomes Settings.default
                       (mkEventCreate "user-123" USER_NOTIFICATION
                          [("message", JStr "Hello")])
                       (set_connected false quiet_world)))
                not_connected (or_introl (conj H2 eq_refl)))
      as (w' & E & L & _).
    exists w'. split; [exact E | exact L].
Defined.

(** ** src/app/models/event.py *)

Lemma field_ok_inv {A : Type} (d : list (string * Json)) (name : string)
    (default : option A) (convert : Json -> option A) (a : A) :
  field d name default convert = Ok a ->
  (dict_get name d = None /\ default = Some a)
  \/ (exists v, dict_get name d = Some v /\ convert v = Some a).
Proof.
  unfold field. destruct (dict_get name d) as [v|].
  - destruct (convert v) as [a'|] eqn:E; [|discriminate].
    intros [= <-]. right. now exists v.
  - destruct default as [a'|]; [|discriminate]. intros [= <-]. now left.
Qed.

Lemma EventType_parse_value (s : string) (t : EventType) :
  EventType_parse s = Some t -> s = EventType_value t.
Proof.
  unfold EventType_parse.
  repeat match goal with
         | |- context [String.eqb s ?x] =>
             destruct (String.eqb_spec s x) as [->|_];
             [now intros [= <-]|]
         end.
  discriminate.
Qed.



(** ** src/app/services/rate_limiter.py *)

Lemma records_S (n : nat) (w : World) :
  records (S n) w = records n (snd (EmailRateLimiter.record_email_sent w)).
Proof. reflexivity. Qed.

Lemma record_email_sent_step (w : World) (n : Z) :
  redis_healthy w -> counter_reads w n -> n + 1 < 2 ^ 63 - 1 ->
  let w' := snd (EmailRateLimiter.record_email_sent w) in
  fst (EmailRateLimiter.record_email_sent w) = Ok (n + 1)
  /\ redis_healthy w' /\ counter_reads w' (n + 1)
  /\ count_key w' = count_key w
  /\ expiry w' !! count_key w = Some 172800
  /\ outbox w' = outbox w /\ lists w' = lists w.
Proof.
  intros Hh Hc Hn. cbv zeta. rewrite (record_email_sent_reads w n Hh Hc).
  cbn [fst snd]. split; [reflexivity|]. split; [exact Hh|]. split.
  - right. unfold count_key. cbn [keys today set_expiry set_keys].
    rewrite lookup_insert_eq. split; [reflexivity|].
    destruct Hc as [[_ ->]|[_ Hr]]; lia.
  - split; [reflexivity|]. split; [|split; reflexivity].
    cbn [expiry set_expiry]. now rewrite lookup_insert_eq.
Qed.

Lemma records_reads (k : nat) (n : Z) (w : World) :
  redis_healthy w -> counter_reads w n -> n + Z.of_nat k < 2 ^ 63 - 1 ->
  redis_healthy (records k w)
  /\ counter_reads (records k w) (n + Z.of_nat k)
  /\ count_key (records k w) = count_key w
  /\ (k <> 0%nat -> expiry (records k w) !! count_key w = Some 172800)
  /\ outbox (records k w) = outbox w /\ lists (records k w) = lists w.
Proof.
  revert n w. induction k as [|k IH]; intros n w Hh Hc Hn.
  - cbn [records]. rewrite Z.add_0_r. repeat split; try apply Hh; try exact Hc.
    intros H. contradiction.
  - rewrite records_S.
    destruct (record_email_sent_step w n Hh Hc) as (_ & Hh1 & Hc1 & Hk1 & He1 & Ho1 & Hl1);
      [lia|].
    destruct (IH (n + 1) _ Hh1 Hc1) as (Hh2 & Hc2 & Hk2 & He2 & Ho2 & Hl2); [lia|].
    split; [exact Hh2|]. split.
    { replace (n + Z.of_nat (S k)) with (n + 1 + Z.of_nat k) by lia. exact Hc2. }
    split; [congruence|]. split; [|split; congruence].
    intros _. destruct k as [|k]; [exact He1|].
    rewrite <- Hk1. now apply He2.
Qed.

(** X13.  The counter counts: on a server that answers, after [k] calls of
    [record_email_sent] on a counter that read [n] (0 when today's key is
    absent), [get_today_count] returns [n + k] and changes nothing, the
    first of the calls returns [n + 1], and the key of the day expires
    after 48 hours (172800 seconds). *)
Theorem counter_counts (k : nat) (n : Z) (w : World) :
  redis_healthy w -> counter_reads w n -> n + Z.of_nat k < 2 ^ 63 - 1 ->
  EmailRateLimiter.get_today_count (records k w)
  = (Ok (n + Z.of_nat k), records k w)
  /\ (k <> 0%nat ->
      fst (EmailRateLimiter.record_email_sent w) = Ok (n + 1)
      /\ expiry (records k w) !! count_key w = Some (60 * 60 * 48)).
Proof.
  intros Hh Hc Hn.
  destruct (records_reads k n w Hh Hc Hn) as (Hh' & Hc' & _ & He & _).
  split; [now apply counter_reads_get|].
  intros Hk. split; [|now apply He].
  apply (record_email_sent_step w n Hh Hc). lia.
Qed.

Lemma counter_counts_witness :
  redis_healthy quiet_world /\ counter_reads quiet_world 0
  /\ 0 + Z.of_nat 3 < 2 ^ 63 - 1
  /\ EmailRateLimiter.get_today_count (records 3 quiet_world)
     = (Ok (0 + Z.of_nat 3), records 3 quiet_world)
  /\ fst (EmailRateLimiter.record_email_sent quiet_world) = Ok (0 + 1).
Proof.
  assert (H1 : redis_healthy quiet_world) by (split; reflexivity).
  assert (H2 : counter_reads quiet_world 0) by (left; split; reflexivity).
  assert (H3 : 0 + Z.of_nat 3 < 2 ^ 63 - 1) by (cbn; lia).
  split; [exact H1|]. split; [exact H2|]. split; [exact H3|].
  destruct (counter_counts 3 0 quiet_world H1 H2 H3) as [A B].
  split; [exact A|]. apply B. discriminate.
Defined.

(** ** src/worker/consumer.py: the loop *)

Lemma consume_iteration_idle (settings : Settings.t) (w : World) :
  redis_healthy w -> main_queue settings w = [] ->
  EventConsumer._consume_iteration settings w = (Ok Continue, w).
Proof.
  intros Hh Hq. unfold EventConsumer._consume_iteration, try_except.
  rewrite bind_run, dequeue_event_empty by assumption. reflexivity.
Qed.

(** X14.  An idle worker does nothing: on a server that answers, a pass of
    the loop over an empty main queue (the pop times out) returns to the
    loop without a log line, a sleep, a send or a write, and so does any
    number of passes. *)
Theorem idle_worker_is_silent (settings : Settings.t) (w : World) :
  redis_healthy w -> main_queue settings w = [] ->
  EventConsumer._consume_iteration settings w = (Ok Continue, w)
  /\ (running w = true ->
      forall fuel,
        EventConsumer._consume_loop settings fuel w = (Ok StillLooping, w)).
Proof.
  intros Hh Hq. split; [now apply consume_iteration_idle|].
  intros Hr fuel. induction fuel as [|fuel IH]; [reflexivity|].
  rewrite (consume_loop_step settings fuel w w Hr); [exact IH|].
  now apply consume_iteration_idle.
Qed.

Lemma idle_worker_is_silent_witness :
  redis_healthy quiet_world /\ main_queue Settings.default quiet_world = []
  /\ running quiet_world = true
  /\ EventConsumer._consume_loop Settings.default 5 quiet_world
     = (Ok StillLooping, quiet_world).
Proof.
  assert (H1 : redis_healthy quiet_world) by (split; reflexivity).
  assert (H2 : main_queue Settings.default quiet_world = []) by reflexivity.
  assert (H3 : running quiet_world = true) by reflexivity.
  split; [exact H1|]. split; [exact H2|]. split; [exact H3|].
  exact (proj2 (idle_worker_is_silent Settings.default quiet_world H1 H2) H3 5%nat).
Defined.

(** X15.  [stop] ends the loop before the next pop: once [_running] is
    false the loop returns without calling [dequeue_event], so whatever is
    in the queues stays there; [stop] itself only logs the request and
    clears the flag. *)
Theorem stop_ends_loop (settings : Settings.t) (fuel : nat) (w : World) :
  (running w = false ->
   EventConsumer._consume_loop settings (S fuel) w = (Ok Exited, w))
  /\ (_ ← EventConsumer.stop; EventConsumer._consume_loop settings (S fuel)) w
     = (Ok Exited,
        set_running false
          (set_log (mkLog "info" "worker_shutdown_requested" [] :: log w) w))
  /\ lists (snd (EventConsumer.stop w)) = lists w
  /\ running (snd (EventConsumer.stop w)) = false.
Proof.
  split; [|split; [|split; reflexivity]].
  - intros H. cbn [EventConsumer._consume_loop].
    rewrite bind_run, gets_run, H. reflexivity.
  - reflexivity.
Qed.

Lemma stop_ends_loop_witness :
  let w := set_running false
             (set_lists {[ "events:queue" := [model_dump_json sample_event] ]}
                quiet_world) in
  running w = false
  /\ EventConsumer._consume_loop Settings.default 1 w = (Ok Exited, w).
Proof.
  cbv zeta.
  assert (H : running
                (set_running false
                   (set_lists {[ "events:queue" := [model_dump_json sample_event] ]}
                      quiet_world)) = false) by reflexivity.
  split; [exact H|].
  exact (proj1 (stop_ends_loop Settings.default 0 _) H).
Defined.

Lemma consume_iteration_dequeue_raise (settings : Settings.t) (w w1 : World)
    (e : Exn) :
  RedisClient.dequeue_event settings 1 w = (Raise e, w1) ->
  EventConsumer._consume_iteration settings w
  = if is_CancelledError e then
      (Ok Break, set_log (mkLog "info" "worker_cancelled" [] :: log w1) w1)
    else if is_Exception e then
      (Ok Continue,
       set_sleeps (1 :: sleeps w1)
         (set_log (mkLog "error" "worker_consume_error"
                     [("error", exn_msg e); ("error_type", exn_type e)]
                   :: log w1) w1))
    else (Raise e, w1).
Proof.
  intros H. unfold EventConsumer._consume_iteration, try_except.
  rewrite (bind_raise _ _ w w1 e H).
  destruct e as [[| |] ty msg]; reflexivity.
Qed.

(** X16.  What ends the loop from inside.  A CancelledError raised by the
    pop is logged as "worker_cancelled" and breaks the loop, without the
    one-second pause; any other error that is not an [Exception] (a
    KeyboardInterrupt, say) is not caught and leaves the loop as it is. *)
Theorem cancellation_breaks_loop (settings : Settings.t) (fuel : nat)
    (w : World) (e : Exn) (rest : list (option Exn)) :
  running w = true -> connected w = true ->
  redis_faults w = Some e :: rest -> is_Exception e = false ->
  EventConsumer._consume_loop settings (S fuel) w
  = if is_CancelledError e then
      (Ok Exited,
       set_log (mkLog "info" "worker_cancelled" [] :: log w)
         (set_redis_faults rest w))
    else (Raise e, set_redis_faults rest w).
Proof.
  intros Hr Hc Hf Hx. cbn [EventConsumer._consume_loop].
  rewrite bind_run, gets_run, Hr. cbv beta iota. rewrite bind_run.
  rewrite (consume_iteration_dequeue_raise settings w _ e
             (dequeue_event_fault settings 1 w e rest Hc Hf)).
  rewrite Hx. now destruct (is_CancelledError e).
Qed.

Lemma cancellation_breaks_loop_witness :
  let e := mkExn CancelledError "CancelledError" EmptyString in
  let w := set_redis_faults [Some e] quiet_world in
  running w = true /\ connected w = true /\ redis_faults w = [Some e]
  /\ is_Exception e = false
  /\ EventConsumer._consume_loop Settings.default 3 w
     = (Ok Exited,
        set_log [mkLog "info" "worker_cancelled" []]
          (set_redis_faults [] w)).
Proof.
  cbv zeta. repeat (split; [reflexivity|]).
  exact (cancellation_breaks_loop Settings.default 2
           (set_redis_faults
              [Some (mkExn CancelledError "CancelledError" EmptyString)]
              quiet_world)
           (mkExn CancelledError "CancelledError" EmptyString) []
           eq_refl eq_refl eq_refl eq_refl).
Defined.

Lemma connect_disconnect_facts (w : World) :
  exists w0,
    RedisClient.connect w = (Ok tt, w0)
    /\ connected w0 = true /\ lists w0 = lists w.
Proof.
  unfold RedisClient.connect. destruct (connected w) eqn:E.
  - exists w. auto.
  - rewrite logger_run. eexists. split; [reflexivity|]. split; reflexivity.
Qed.

Lemma disconnect_facts (w : World) :
  exists w0,
    RedisClient.disconnect w = (Ok tt, w0)
    /\ connected w0 = false /\ lists w0 = lists w.
Proof.
  unfold RedisClient.disconnect. destruct (connected w) eqn:E.
  - rewrite logger_run. eexists. split; [reflexivity|]. split; reflexivity.
  - exists w. auto.
Qed.

Lemma start_run (settings : Settings.t) (fuel : nat) (w : World) :
  exists w1 w3,
    connected w1 = true /\ running w1 = true /\ processor w1 = true
    /\ lists w1 = lists w /\ connected w3 = false
    /\ EventConsumer.start settings fuel w
       = (fst (EventConsumer._consume_loop settings fuel w1),
          set_log (mkLog "info" "worker_stopped" [] :: log w3) w3).
Proof.
  unfold EventConsumer.start. rewrite bind_run.
  destruct (connect_disconnect_facts w) as (w0 & -> & C1 & C2).
  cbv beta iota. rewrite bind_run. unfold modify at 1. cbv beta iota.
  rewrite bind_run. unfold modify at 1. cbv beta iota.
  rewrite bind_run, logger_run. cbv beta iota.
  unfold EventConsumer.try_finally.
  match goal with |- context [EventConsumer._consume_loop settings fuel ?x] =>
    set (w1 := x) end.
  destruct (EventConsumer._consume_loop settings fuel w1) as [r w2] eqn:E.
  rewrite bind_run.
  destruct (disconnect_facts w2) as (w3 & -> & D1 & D2).
  cbv beta iota. rewrite logger_run.
  exists w1, w3. rewrite E. subst w1.
  cbn [fst connected running processor lists set_log
       set_running set_alert_sent_today set_processor].
  repeat split; assumption.
Qed.

(** X17.  [start] always releases the connection: whenever the loop has
    ended, by a break or by an error that was not caught, the [finally]
    clause has disconnected the client and "worker_stopped" is the last
    line of the log; an error of the loop is still raised to the caller. *)
Theorem start_releases_connection (settings : Settings.t) (fuel : nat)
    (w : World) :
  fst (EventConsumer.start settings fuel w) <> Ok StillLooping ->
  connected (snd (EventConsumer.start settings fuel w)) = false
  /\ (exists older,
        log (snd (EventConsumer.start settings fuel w))
        = mkLog "info" "worker_stopped" [] :: older)
  /\ exists w1,
       connected w1 = true /\ running w1 = true /\ processor w1 = true
       /\ lists w1 = lists w
       /\ fst (EventConsumer.start settings fuel w)
          = fst (EventConsumer._consume_loop settings fuel w1).
Proof.
  intros _. destruct (start_run settings fuel w)
    as (w1 & w3 & H1 & H2 & H3 & H4 & H5 & ->).
  cbn [fst snd connected log set_log].
  split; [exact H5|]. split; [eexists; reflexivity|].
  exists w1. auto.
Qed.

Lemma start_releases_connection_witness :
  let e := mkExn CancelledError "CancelledError" EmptyString in
  let w := set_connected false (set_redis_faults [Some e] quiet_world) in
  fst (EventConsumer.start Settings.default 1 w) <> Ok StillLooping
  /\ connected (snd (EventConsumer.start Settings.default 1 w)) = false.
Proof.
  cbv zeta.
  assert (H : fst (EventConsumer.start Settings.default 1
                     (set_connected false
                        (set_redis_faults
                           [Some (mkExn CancelledError "CancelledError"
                                    EmptyString)] quiet_world)))
              <> Ok StillLooping) by (vm_compute; discriminate).
  split; [exact H|].
  exact (proj1 (start_releases_connection Settings.default 1 _ H)).
Defined.

(** ** src/worker/consumer.py: one pass over an event *)

Lemma send_email_fails (to_email subject : Json) (body : string)
    (html_body : option string) (w : World) (e : Exn)
    (rest : list (option Exn)) :
  smtp_faults w = Some e :: rest ->
  exists l,
    EmailService.send_email to_email subject body html_body w
    = (Raise e,
       set_log l
         (set_smtp_faults rest
            (set_smtp_calls
               (mkEmail to_email subject body html_body :: smtp_calls w) w))).
Proof.
  intros H. unfold EmailService.send_email, try_except.
  rewrite bind_run. unfold EmailService.smtp_send.
  cbn [smtp_faults set_smtp_calls]. rewrite H. cbv beta iota.
  destruct (is_Exception e).
  - rewrite bind_run.
    match goal with |- context [EmailService.log_failure to_email e ?w0] =>
      destruct (log_failure_run to_email e w0) as (record & -> & _) end.
    eexists. reflexivity.
  - exists (log w). reflexivity.
Qed.

Lemma process_send_fails (settings : Settings.t) (event : Event) (w : World)
    (n : Z) (e : Exn) (rest : list (option Exn)) :
  truthy (NotificationProcessor.destination event) = true ->
  smtp_configured settings = true ->
  redis_healthy w -> counter_reads w n ->
  n < Settings.daily_email_limit settings ->
  smtp_faults w = Some e :: rest ->
  exists l,
    NotificationProcessor.process settings event w
    = (Raise e,
       set_log l
         (set_smtp_faults rest
            (set_smtp_calls
               (NotificationProcessor.notification event (utcnow w)
                :: smtp_calls w) w))).
Proof.
  intros Ht Hs Hh Hc Hn Hf.
  unfold smtp_configured in Hs. apply negb_true_iff in Hs.
  unfold NotificationProcessor.process. cbv zeta.
  rewrite bind_run, logger_run, Ht, Hs. cbn [negb].
  rewrite bind_run.
  rewrite (can_send_email_reads settings _ n) by assumption.
  destruct (Z.ltb_spec n (Settings.daily_email_limit settings)); [|lia].
  cbn [negb]. rewrite bind_run, gets_run. cbv beta iota. cbn [utcnow set_log].
  rewrite bind_run.
  match goal with
  | |- context [EmailService.send_email ?a ?b ?c ?d ?x] =>
      destruct (send_email_fails a b c d x e rest Hf) as (l & ->)
  end.
  exists l. reflexivity.
Qed.

Lemma handle_failure_healthy (settings : Settings.t) (event : Event)
    (error : Exn) (w : World) :
  redis_healthy w ->
  let decision :=
    RetryHandler.should_retry (EventConsumer.retry_handler settings) event error in
  exists l,
    EventConsumer._handle_failure settings event error w
    = (Ok tt,
       set_log l
         (set_lists
            (if RetryDecision.should_retry decision then
               <[Settings.redis_queue_name settings
                 := model_dump_json (increment_retry event)
                    :: main_queue settings w]> (lists w)
             else
               <[Settings.redis_dlq_name settings
                 := dlq_entry_text event (RetryDecision.reason decision)
                    :: dead_letters settings w]> (lists w)) w)).
Proof.
  intros Hh. cbv zeta. unfold EventConsumer._handle_failure. rewrite bind_run.
  destruct (log_retry_decision_run (EventConsumer.retry_handler settings) event
              (RetryHandler.should_retry (EventConsumer.retry_handler settings)
                 event error) error w) as (record & -> & _).
  cbv beta iota.
  destruct (RetryDecision.should_retry _).
  - unfold RedisClient.requeue_event. rewrite bind_run.
    rewrite enqueue_event_healthy by exact Hh.
    rewrite logger_run. eexists. reflexivity.
  - rewrite send_to_dlq_healthy by exact Hh. eexists. reflexivity.
Qed.

Lemma process_event_raise (settings : Settings.t) (event : Event)
    (w w2 : World) (e : Exn) :
  processor w = true ->
  NotificationProcessor.process settings event w = (Raise e, w2) ->
  is_Exception e = true ->
  EventConsumer._process_event settings event w
  = EventConsumer._handle_failure settings event e w2.
Proof.
  intros Hp H Hx. unfold EventConsumer._process_event, try_except.
  rewrite bind_run, gets_run, Hp. cbv beta iota.
  rewrite (bind_raise _ _ w w2 e H). now rewrite Hx.
Qed.

Lemma process_event_ok (settings : Settings.t) (event : Event) (w w2 : World) :
  processor w = true ->
  NotificationProcessor.process settings event w = (Ok tt, w2) ->
  EventConsumer._process_event settings event w
  = (Ok tt,
     set_log (mkLog "info" "event_processed"
                [("event_id", UUID_str (event_id event));
                 ("event_type", EventType_value (event_type event))] :: log w2)
       w2).
Proof.
  intros Hp H. unfold EventConsumer._process_event, try_except.
  rewrite bind_run, gets_run, Hp. cbv beta iota.
  rewrite (bind_ok _ _ w w2 tt H). now rewrite logger_run.
Qed.

Lemma consume_iteration_event (settings : Settings.t) (w w1 w2 : World)
    (event : Event) (r : Result unit) :
  RedisClient.dequeue_event settings 1 w = (Ok (Some event), w1) ->
  EventConsumer._process_event settings event w1 = (r, w2) ->
  EventConsumer._consume_iteration settings w
  = match r with
    | Ok _ => (Ok Continue, w2)
    | Raise e =>
        if is_CancelledError e then
          (Ok Break, set_log (mkLog "info" "worker_cancelled" [] :: log w2) w2)
        else if is_Exception e then
          (Ok Continue,
           set_sleeps (1 :: sleeps w2)
             (set_log (mkLog "error" "worker_consume_error"
                         [("error", exn_msg e); ("error_type", exn_type e)]
                       :: log w2) w2))
        else (Raise e, w2)
    end.
Proof.
  intros Hd Hp. unfold EventConsumer._consume_iteration, try_except.
  rewrite (bind_ok _ _ w w1 _ Hd). rewrite bind_run, Hp.
  destruct r as [[]|[[| |] ty msg]]; reflexivity.
Qed.

(** ** src/worker/consumer.py: what a pass does with an event *)

Lemma failed_pass (settings : Settings.t) (event : Event) (rest : list string)
    (error : Exn) (faults : list (option Exn)) (n : Z) (w : World) :
  redis_healthy w -> counter_reads w n ->
  n < Settings.daily_email_limit settings ->
  smtp_configured settings = true -> processor w = true ->
  Event_ok event = true ->
  truthy (NotificationProcessor.destination event) = true ->
  main_queue settings w = rest ++ [model_dump_json event] ->
  smtp_faults w = Some error :: faults -> is_Exception error = true ->
  let decision :=
    RetryHandler.should_retry (EventConsumer.retry_handler settings) event error in
  let popped := <[Settings.redis_queue_name settings := rest]> (lists w) in
  exists l,
    EventConsumer._consume_iteration settings w
    = (Ok Continue,
       set_log l
         (set_lists
            (if RetryDecision.should_retry decision then
               <[Settings.redis_queue_name settings
                 := model_dump_json (increment_retry event)
                    :: popped !!! Settings.redis_queue_name settings]> popped
             else
               <[Settings.redis_dlq_name settings
                 := dlq_entry_text event (RetryDecision.reason decision)
                    :: popped !!! Settings.redis_dlq_name settings]> popped)
            (set_smtp_faults faults
               (set_smtp_calls
                  (NotificationProcessor.notification event (utcnow w)
                   :: smtp_calls w) w)))).
Proof.
  intros Hh Hc Hn Hs Hp Hok Ht Hq Hf Hx. cbv zeta.
  pose proof (dequeue_event_healthy settings 1 event rest w Hh Hok Hq) as Hd.
  match type of Hd with _ = (_, ?x) => set (w1 := x) in * end.
  destruct (process_send_fails settings event w1 n error faults Ht Hs Hh Hc Hn Hf)
    as (l2 & H2).
  match type of H2 with _ = (_, ?x) => set (w2 := x) in * end.
  destruct (handle_failure_healthy settings event error w2 Hh) as (l3 & H3).
  rewrite <- (process_event_raise settings event w1 w2 error Hp H2 Hx) in H3.
  rewrite (consume_iteration_event settings w w1 _ event (Ok tt) Hd H3).
  eexists. reflexivity.
Qed.

(** X18.  A send that fails costs the event one pass and nothing else: on a
    server that answers, the pass takes the event from the right end of
    the main queue, tries the send once, and writes the event back exactly
    once: at the left end of the main queue with its count raised by 1
    when the decision is to retry, at the left end of the dead-letter queue
    with the reason of the decision otherwise.  Nothing is delivered, the
    loop does not pause, and the pass returns to the loop. *)
Theorem failed_send_moves_event (settings : Settings.t) (event : Event)
    (rest : list string) (error : Exn) (faults : list (option Exn)) (n : Z)
    (w : World) :
  Settings.redis_dlq_name settings <> Settings.redis_queue_name settings ->
  redis_healthy w -> counter_reads w n ->
  n < Settings.daily_email_limit settings ->
  smtp_configured settings = true -> processor w = true ->
  Event_ok event = true ->
  truthy (NotificationProcessor.destination event) = true ->
  main_queue settings w = rest ++ [model_dump_json event] ->
  smtp_faults w = Some error :: faults -> is_Exception error = true ->
  let decision :=
    RetryHandler.should_retry (EventConsumer.retry_handler settings) event error in
  exists w',
    EventConsumer._consume_iteration settings w = (Ok Continue, w')
    /\ smtp_calls w'
       = NotificationProcessor.notification event (utcnow w) :: smtp_calls w
    /\ outbox w' = outbox w /\ sleeps w' = sleeps w
    /\ if RetryDecision.should_retry decision then
         main_queue settings w' = model_dump_json (increment_retry event) :: rest
         /\ dead_letters settings w' = dead_letters settings w
       else
         main_queue settings w' = rest
         /\ dead_letters settings w'
            = dlq_entry_text event (RetryDecision.reason decision)
              :: dead_letters settings w.
Proof.
  intros Hne Hh Hc Hn Hs Hp Hok Ht Hq Hf Hx. cbv zeta.
  destruct (failed_pass settings event rest error faults n w
              Hh Hc Hn Hs Hp Hok Ht Hq Hf Hx) as (l & ->).
  eexists. split; [reflexivity|].
  unfold main_queue, dead_letters. cbn [smtp_calls outbox sleeps lists set_log
    set_lists set_smtp_faults set_smtp_calls].
  split; [reflexivity|]. split; [reflexivity|]. split; [reflexivity|].
  assert (Hne' : Settings.redis_queue_name settings
                 <> Settings.redis_dlq_name settings) by congruence.
  destruct (RetryDecision.should_retry _);
    repeat first [ rewrite lookup_total_insert_eq
                 | rewrite lookup_total_insert_ne by assumption ];
    split; reflexivity.
Qed.

Lemma failed_send_moves_event_witness :
  let error :=
    mkExn StdException "SMTPServerDisconnected" "Connection unexpectedly closed" in
  let w := set_smtp_faults [Some error]
             (set_lists {[ "events:queue" := [model_dump_json sample_event] ]}
                quiet_world) in
  Settings.redis_dlq_name configured_settings
  <> Settings.redis_queue_name configured_settings
  /\ redis_healthy w /\ counter_reads w 0
  /\ 0 < Settings.daily_email_limit configured_settings
  /\ smtp_configured configured_settings = true /\ processor w = true
  /\ Event_ok sample_event = true
  /\ truthy (NotificationProcessor.destination sample_event) = true
  /\ main_queue configured_settings w = [] ++ [model_dump_json sample_event]
  /\ smtp_faults w = [Some error] /\ is_Exception error = true
  /\ exists w',
       EventConsumer._consume_iteration configured_settings w = (Ok Continue, w')
       /\ outbox w' = []
       /\ main_queue configured_settings w'
          = [model_dump_json (increment_retry sample_event)]
       /\ dead_letters configured_settings w' = [].
Proof.
  cbv zeta.
  set (error := mkExn StdException "SMTPServerDisconnected"
                  "Connection unexpectedly closed").
  set (w := set_smtp_faults [Some error]
              (set_lists {[ "events:queue" := [model_dump_json sample_event] ]}
                 quiet_world)).
  assert (H0 : Settings.redis_dlq_name configured_settings
               <> Settings.redis_queue_name configured_settings) by discriminate.
  assert (H1 : redis_healthy w) by (split; reflexivity).
  assert (H2 : counter_reads w 0) by (left; split; reflexivity).
  assert (H3 : 0 < Settings.daily_email_limit configured_settings)
    by (cbn; lia).
  assert (H4 : smtp_configured configured_settings = true) by reflexivity.
  assert (H5 : processor w = true) by reflexivity.
  assert (H6 : Event_ok sample_event = true) by reflexivity.
  assert (H7 : truthy (NotificationProcessor.destination sample_event) = true)
    by reflexivity.
  assert (H8 : main_queue configured_settings w
               = [] ++ [model_dump_json sample_event]) by reflexivity.
  assert (H9 : smtp_faults w = Some error :: []) by reflexivity.
  assert (H10 : is_Exception error = true) by reflexivity.
  repeat (split; [assumption|]).
  destruct (failed_send_moves_event configured_settings sample_event [] error
              [] 0 w H0 H1 H2 H3 H4 H5 H6 H7 H8 H9 H10)
    as (w' & E & _ & O & _ & R).
  assert (D : RetryDecision.should_retry
                (RetryHandler.should_retry
                   (EventConsumer.retry_handler configured_settings)
                   sample_event error) = true) by reflexivity.
  rewrite D in R. destruct R as [R1 R2].
  exists w'. split; [exact E|]. split; [exact O|]. split; [exact R1 | exact R2].
Defined.

Lemma delivered_pass_ready (settings : Settings.t) (event : Event)
    (rest : list string) (n : Z) (w : World) :
  redis_healthy w -> counter_reads w n ->
  n < Settings.daily_email_limit settings ->
  smtp_configured settings = true -> processor w = true ->
  Event_ok event = true ->
  truthy (NotificationProcessor.destination event) = true ->
  main_queue settings w = rest ++ [model_dump_json event] ->
  smtp_ready w = true ->
  exists w',
    EventConsumer._consume_iteration settings w = (Ok Continue, w')
    /\ lists w' = <[Settings.redis_queue_name settings := rest]> (lists w)
    /\ main_queue settings w' = rest
    /\ outbox w'
       = NotificationProcessor.notification event (utcnow w) :: outbox w
    /\ keys w' = <[count_key w := Str.of_int (n + 1)]> (keys w)
    /\ sleeps w' = sleeps w.
Proof.
  intros Hh Hc Hn Hs Hp Hok Ht Hq Hr.
  pose proof (dequeue_event_healthy settings 1 event rest w Hh Hok Hq) as Hd.
  match type of Hd with _ = (_, ?x) => set (w1 := x) in * end.
  destruct (process_sends settings event w1 n Ht Hs Hh Hc Hn) as (w2 & _ & H2).
  assert (Hf : smtp_faults w1 = smtp_faults w) by reflexivity.
  assert (H3 : NotificationProcessor.process settings event w1 = (Ok tt, w2)
               /\ outbox w2
                  = NotificationProcessor.notification event (utcnow w1)
                    :: outbox w1
               /\ keys w2 = <[count_key w1 := Str.of_int (n + 1)]> (keys w1)).
  { unfold smtp_ready in Hr. rewrite Hf in H2.
    destruct (smtp_faults w) as [|[e|] fs]; [exact H2 | discriminate | exact H2]. }
  destruct H3 as (E2 & O2 & K2).
  pose proof (keeps_process settings event w1) as Hk. rewrite E2 in Hk.
  cbn [snd] in Hk. destruct Hk as (L & _ & _ & _ & _ & _ & _ & S).
  rewrite (consume_iteration_event settings w w1 _ event (Ok tt) Hd
             (process_event_ok settings event w1 w2 Hp E2)).
  eexists. split; [reflexivity|].
  unfold main_queue. cbn [lists outbox keys sleeps set_log].
  rewrite L, O2, K2, S. subst w1. cbn [lists set_log set_lists].
  rewrite lookup_total_insert_eq. repeat split.
Qed.



Lemma decision_at_max (self : RetryHandler.t) (event : Event) (error : Exn) :
  RetryHandler.classify_failure error <> PERMANENT ->
  RetryHandler.max_retries self <= retry_count event ->
  RetryHandler.should_retry self event error
  = RetryDecision.mk false
      ("Max retries (" +:+ Str.of_int (RetryHandler.max_retries self)
       +:+ ") exceeded").
Proof.
  intros Hc Hr. unfold RetryHandler.should_retry.
  destruct (decide (RetryHandler.classify_failure error = PERMANENT));
    [contradiction|].
  destruct (Z.geb_spec (retry_count event) (RetryHandler.max_retries self));
    [reflexivity | lia].
Qed.

Lemma run_cons (settings : Settings.t) (a : Action) (actions : list Action)
    (w : World) :
  run settings (a :: actions) w = run settings actions (step settings a w).
Proof. reflexivity. Qed.

Lemma retried_S (n : nat) (e : Event) :
  retried (S n) e = retried n (increment_retry e).
Proof. unfold retried. apply Nat.iter_succ_r. Qed.

Lemma retried_ok (n : nat) (e : Event) :
  Event_ok e = true -> Event_ok (retried n e) = true.
Proof.
  intros H. induction n as [|n IH]; [exact H|].
  unfold retried in *. rewrite Nat.iter_succ. now apply increment_retry_ok.
Qed.

Lemma retried_count (n : nat) (e : Event) :
  retry_count (retried n e) = retry_count e + Z.of_nat n.
Proof.
  induction n as [|n IH]; [cbn; lia|].
  unfold retried in *. rewrite Nat.iter_succ.
  cbn [increment_retry retry_count]. rewrite IH. lia.
Qed.

Section failing_event.

Variable settings : Settings.t.
Variable error : Exn.

Hypothesis names_differ :
  Settings.redis_dlq_name settings <> Settings.redis_queue_name settings.
Hypothesis configured : smtp_configured settings = true.
Hypothesis not_permanent : RetryHandler.classify_failure error <> PERMANENT.
Hypothesis caught : is_Exception error = true.

Lemma failing_event_run (k : nat) :
  forall (event : Event) (w : World) (n : Z) (faults : list (option Exn)),
    Event_ok event = true ->
    truthy (NotificationProcessor.destination event) = true ->
    retry_count event + Z.of_nat k = Settings.max_retries settings ->
    redis_healthy w -> counter_reads w n ->
    n < Settings.daily_email_limit settings ->
    processor w = true -> running w = true ->
    main_queue settings w = [model_dump_json event] ->
    smtp_faults w = repeat (Some error) (S k) ++ faults ->
    let w' := run settings (repeat Iterate (S k)) w in
    main_queue settings w' = []
    /\ dead_letters settings w'
       = dlq_entry_text (retried k event)
           ("Max retries (" +:+ Str.of_int (Settings.max_retries settings)
            +:+ ") exceeded")
         :: dead_letters settings w
    /\ smtp_calls w'
       = repeat (NotificationProcessor.notification event (utcnow w)) (S k)
         ++ smtp_calls w
    /\ outbox w' = outbox w /\ smtp_faults w' = faults.
Proof.
  assert (Hne' : Settings.redis_queue_name settings
                 <> Settings.redis_dlq_name settings) by congruence.
  induction k as [|k IH];
    intros event w n faults Hok Ht Hrc Hh Hc Hn Hp Hr Hq Hf; cbv zeta.
  - cbn [repeat]. rewrite run_cons. cbn [run fold_left step]. rewrite Hr.
    destruct (failed_pass settings event [] error faults n w
                Hh Hc Hn configured Hp Hok Ht Hq Hf caught) as (l & ->).
    rewrite decision_at_max by (try exact not_permanent; cbn; lia).
    unfold main_queue, dead_letters.
    cbn [snd lists smtp_calls outbox smtp_faults set_log set_lists
         set_smtp_faults set_smtp_calls RetryDecision.should_retry
         RetryDecision.reason repeat app].
    repeat first [ rewrite lookup_total_insert_eq
                 | rewrite lookup_total_insert_ne by assumption ].
    repeat split.
  - cbn [repeat]. rewrite run_cons. cbn [step]. rewrite Hr.
    cbn [repeat app] in Hf.
    destruct (failed_pass settings event [] error _ n w
                Hh Hc Hn configured Hp Hok Ht Hq Hf caught) as (l & ->).
    assert (Hd : RetryDecision.should_retry
                   (RetryHandler.should_retry
                      (EventConsumer.retry_handler settings) event error) = true).
    { apply should_retry_true_iff. split; [exact not_permanent|]. cbn. lia. }
    rewrite Hd. cbn [snd].
    match goal with |- context [run settings _ ?x] => set (w1 := x) end.
    assert (Hq1 : main_queue settings w1
                  = [model_dump_json (increment_retry event)]).
    { unfold main_queue, w1. cbn [lists set_log set_lists].
      now rewrite !lookup_total_insert_eq. }
    assert (Hd1 : dead_letters settings w1 = dead_letters settings w).
    { unfold dead_letters, w1. cbn [lists set_log set_lists].
      now rewrite !lookup_total_insert_ne by assumption. }
    destruct (IH (increment_retry event) w1 n faults) as (A & B & C & D & E);
      try assumption; try reflexivity.
    + now apply increment_retry_ok.
    + cbn [increment_retry retry_count]. lia.
    + cbv zeta in A, B, C, D, E. cbn [repeat] in A, B, C, D, E |- *.
      rewrite A, B, C, D, E, Hd1, retried_S.
      repeat split.
      change (smtp_calls w1)
        with (NotificationProcessor.notification event (utcnow w)
              :: smtp_calls w).
      change (utcnow w1) with (utcnow w).
      change (NotificationProcessor.notification (increment_retry event)
                (utcnow w))
        with (NotificationProcessor.notification event (utcnow w)).
      cbn [app]. f_equal. apply repeat_middle.
Qed.

End failing_event.

(** X20.  Retries end.  An event whose send keeps failing with an error
    that is not permanent goes round the main queue once per attempt, its
    count one higher each time, and after [max_retries - retry_count + 1]
    attempts in all it is in the dead-letter queue, with
    [retry_count = max_retries] and the reason "Max retries (N) exceeded";
    the main queue is empty, and nothing was delivered. *)
Theorem failing_event_is_dead_lettered (settings : Settings.t) (error : Exn)
    (k : nat) (event : Event) (w : World) (n : Z)
    (faults : list (option Exn)) :
  Settings.redis_dlq_name settings <> Settings.redis_queue_name settings ->
  smtp_configured settings = true ->
  RetryHandler.classify_failure error <> PERMANENT ->
  is_Exception error = true ->
  Event_ok event = true ->
  truthy (NotificationProcessor.destination event) = true ->
  retry_count event + Z.of_nat k = Settings.max_retries settings ->
  redis_healthy w -> counter_reads w n ->
  n < Settings.daily_email_limit settings ->
  processor w = true -> running w = true ->
  main_queue settings w = [model_dump_json event] ->
  smtp_faults w = repeat (Some error) (S k) ++ faults ->
  let w' := run settings (repeat Iterate (S k)) w in
  main_queue settings w' = []
  /\ dead_letters settings w'
     = dlq_entry_text (retried k event)
         ("Max retries (" +:+ Str.of_int (Settings.max_retries settings)
          +:+ ") exceeded")
       :: dead_letters settings w
  /\ retry_count (retried k event) = Settings.max_retries settings
  /\ length (smtp_calls w') = (S k + length (smtp_calls w))%nat
  /\ outbox w' = outbox w.
Proof.
  intros H1 H2 H3 H4 H5 H6 H7 H8 H9 H10 H11 H12 H13 H14. cbv zeta.
  destruct (failing_event_run settings error H1 H2 H3 H4 k event w n faults
              H5 H6 H7 H8 H9 H10 H11 H12 H13 H14) as (A & B & C & D & _).
  split; [exact A|]. split; [exact B|].
  split; [rewrite retried_count; lia|].
  split; [|exact D].
  rewrite C, length_app, repeat_length. reflexivity.
Qed.

Lemma failing_event_is_dead_lettered_witness :
  let error :=
    mkExn StdException "SMTPServerDisconnected" "Connection unexpectedly closed" in
  let w := set_smtp_faults (repeat (Some error) 4 ++ [])
             (set_lists {[ "events:queue" := [model_dump_json sample_event] ]}
                quiet_world) in
  let w' := run configured_settings (repeat Iterate 4) w in
  Settings.redis_dlq_name configured_settings
  <> Settings.redis_queue_name configured_settings
  /\ smtp_configured configured_settings = true
  /\ RetryHandler.classify_failure error <> PERMANENT
  /\ is_Exception error = true
  /\ Event_ok sample_event = true
  /\ truthy (NotificationProcessor.destination sample_event) = true
  /\ retry_count sample_event + Z.of_nat 3
     = Settings.max_retries configured_settings
  /\ redis_healthy w /\ counter_reads w 0
  /\ 0 < Settings.daily_email_limit configured_settings
  /\ processor w = true /\ running w = true
  /\ main_queue configured_settings w = [model_dump_json sample_event]
  /\ smtp_faults w = repeat (Some error) 4 ++ []
  /\ main_queue configured_settings w' = []
  /\ dead_letters configured_settings w'
     = [dlq_entry_text (retried 3 sample_event) "Max retries (3) exceeded"]
  /\ retry_count (retried 3 sample_event) = 3
  /\ length (smtp_calls w') = 4%nat
  /\ outbox w' = [].
Proof.
  cbv zeta.
  set (error := mkExn StdException "SMTPServerDisconnected"
                  "Connection unexpectedly closed").
  set (w := set_smtp_faults (repeat (Some error) 4 ++ [])
              (set_lists {[ "events:queue" := [model_dump_json sample_event] ]}
                 quiet_world)).
  assert (H1 : Settings.redis_dlq_name configured_settings
               <> Settings.redis_queue_name configured_settings) by discriminate.
  assert (H2 : smtp_configured configured_settings = true) by reflexivity.
  assert (H3 : RetryHandler.classify_failure error <> PERMANENT)
    by (vm_compute; discriminate).
  assert (H4 : is_Exception error = true) by reflexivity.
  assert (H5 : Event_ok sample_event = true) by reflexivity.
  assert (H6 : truthy (NotificationProcessor.destination sample_event) = true)
    by reflexivity.
  assert (H7 : retry_count sample_event + Z.of_nat 3
               = Settings.max_retries configured_settings) by reflexivity.
  assert (H8 : redis_healthy w) by (split; reflexivity).
  assert (H9 : counter_reads w 0) by (left; split; reflexivity).
  assert (H10 : 0 < Settings.daily_email_limit configured_settings)
    by (cbn; lia).
  assert (H11 : processor w = true) by reflexivity.
  assert (H12 : running w = true) by reflexivity.
  assert (H13 : main_queue configured_settings w
                = [model_dump_json sample_event]) by reflexivity.
  assert (H14 : smtp_faults w = repeat (Some error) 4 ++ []) by reflexivity.
  repeat (split; [assumption|]).
  exact (failing_event_is_dead_lettered configured_settings error 3
           sample_event w 0 [] H1 H2 H3 H4 H5 H6 H7 H8 H9 H10 H11 H12 H13 H14).
Defined.

Lemma handle_failure_fault (settings : Settings.t) (event : Event)
    (error e2 : Exn) (rest : list (option Exn)) (w : World) :
  connected w = true -> redis_faults w = Some e2 :: rest ->
  exists l,
    EventConsumer._handle_failure settings event error w
    = (Raise e2, set_log l (set_redis_faults rest w)).
Proof.
  intros Hc Hf. unfold EventConsumer._handle_failure. rewrite bind_run.
  destruct (log_retry_decision_run (EventConsumer.retry_handler settings) event
              (RetryHandler.should_retry (EventConsumer.retry_handler settings)
                 event error) error w) as (record & -> & _).
  cbv beta iota. exists (record :: log w).
  destruct (RetryDecision.should_retry _).
  - unfold RedisClient.requeue_event, RedisClient.enqueue_event, RedisClient.lpush.
    apply bind_raise. apply bind_raise.
    now apply command_fault with (rest := rest).
  - unfold RedisClient.send_to_dlq, RedisClient.lpush.
    apply bind_raise. now apply command_fault with (rest := rest).
Qed.

(** X21.  An event can be lost.  When the send has failed and the push that
    should write the event back (to the main queue or to the dead-letter
    queue) fails as well, the error of the push is caught by the loop: it
    is logged as "worker_consume_error", the loop pauses for a second and
    goes on, and the queues stay as the pop left them, so the event that
    was taken is in neither of them. *)
Theorem failed_push_drops_event (settings : Settings.t) (event : Event)
    (error e2 : Exn) (rest : list (option Exn)) (w w1 w2 : World) :
  RedisClient.dequeue_event settings 1 w = (Ok (Some event), w1) ->
  processor w1 = true ->
  NotificationProcessor.process settings event w1 = (Raise error, w2) ->
  is_Exception error = true ->
  connected w2 = true -> redis_faults w2 = Some e2 :: rest ->
  is_Exception e2 = true ->
  exists w',
    EventConsumer._consume_iteration settings w = (Ok Continue, w')
    /\ lists w' = lists w1
    /\ sleeps w' = 1 :: sleeps w1
    /\ exists older,
         log w'
         = mkLog "error" "worker_consume_error"
             [("error", exn_msg e2); ("error_type", exn_type e2)] :: older.
Proof.
  intros Hd Hp He Hx Hc Hf Hx2.
  destruct (handle_failure_fault settings event error e2 rest w2 Hc Hf)
    as (l & Hh).
  rewrite <- (process_event_raise settings event w1 w2 error Hp He Hx) in Hh.
  rewrite (consume_iteration_event settings w w1 _ event _ Hd Hh).
  rewrite (exception_not_cancelled e2 Hx2), Hx2.
  pose proof (keeps_process settings event w1) as Hk. rewrite He in Hk.
  cbn [snd] in Hk. destruct Hk as (L & _ & _ & _ & _ & _ & _ & S).
  eexists. split; [reflexivity|].
  cbn [lists sleeps log set_sleeps set_log set_redis_faults].
  split; [exact L|]. split; [now rewrite S|]. eexists. reflexivity.
Qed.

Lemma failed_push_drops_event_witness :
  let error :=
    mkExn StdException "SMTPServerDisconnected" "Connection unexpectedly closed" in
  let e2 := mkExn StdException "ConnectionError" "Error 111 connecting to redis" in
  let w := set_redis_faults [None; None; Some e2]
             (set_smtp_faults [Some error]
                (set_lists {[ "events:queue" := [model_dump_json sample_event] ]}
                   quiet_world)) in
  let w1 := snd (RedisClient.dequeue_event configured_settings 1 w) in
  let w2 := snd (NotificationProcessor.process configured_settings
                   sample_event w1) in
  RedisClient.dequeue_event configured_settings 1 w
  = (Ok (Some sample_event), w1)
  /\ processor w1 = true
  /\ NotificationProcessor.process configured_settings sample_event w1
     = (Raise error, w2)
  /\ is_Exception error = true /\ connected w2 = true
  /\ redis_faults w2 = [Some e2] /\ is_Exception e2 = true
  /\ exists w',
       EventConsumer._consume_iteration configured_settings w = (Ok Continue, w')
       /\ main_queue configured_settings w' = []
       /\ dead_letters configured_settings w' = []
       /\ sleeps w' = [1].
Proof.
  cbv zeta.
  set (error := mkExn StdException "SMTPServerDisconnected"
                  "Connection unexpectedly closed").
  set (e2 := mkExn StdException "ConnectionError"
               "Error 111 connecting to redis").
  set (w := set_redis_faults [None; None; Some e2]
              (set_smtp_faults [Some error]
                 (set_lists {[ "events:queue" := [model_dump_json sample_event] ]}
                    quiet_world))).
  set (w1 := snd (RedisClient.dequeue_event configured_settings 1 w)).
  set (w2 := snd (NotificationProcessor.process configured_settings
                    sample_event w1)).
  assert (H1 : RedisClient.dequeue_event configured_settings 1 w
               = (Ok (Some sample_event), w1)) by (vm_compute; reflexivity).
  assert (H2 : processor w1 = true) by (vm_compute; reflexivity).
  assert (H3 : NotificationProcessor.process configured_settings sample_event w1
               = (Raise error, w2)) by (vm_compute; reflexivity).
  assert (H4 : is_Exception error = true) by reflexivity.
  assert (H5 : connected w2 = true) by (vm_compute; reflexivity).
  assert (H6 : redis_faults w2 = Some e2 :: []) by (vm_compute; reflexivity).
  assert (H7 : is_Exception e2 = true) by reflexivity.
  repeat (split; [assumption|]).
  destruct (failed_push_drops_event configured_settings sample_event error e2
              [] w w1 w2 H1 H2 H3 H4 H5 H6 H7) as (w' & E & L & S & _).
  exists w'. split; [exact E|].
  unfold main_queue, dead_letters. rewrite L, S.
  repeat split; vm_compute; reflexivity.
Defined.

(** ** The processor and the counter of the day *)



(** *** What the processor leaves alone *)

#[global] Instance store_steady_preorder : PreOrder store_steady.
Proof.
  split.
  - intros w. repeat split. auto.
  - intros a b c (H1 & H2 & H3) (G1 & G2 & G3).
    repeat split; [congruence | congruence | auto].
Qed.

#[global] Instance same_keys_preorder : PreOrder same_keys.
Proof.
  split; [intros w; reflexivity|].
  intros a b c H1 H2. unfold same_keys in *. congruence.
Qed.

Lemma steady_command {A : Type} (run : M A) :
  keeps store_steady run -> keeps store_steady (RedisClient.command run).
Proof.
  intros Hr. unfold RedisClient.command. apply keeps_bind; [typeclasses eauto | |].
  - intros w. unfold RedisClient.client. destruct (connected w); reflexivity.
  - intros _ w. unfold RedisClient.transport.
    destruct (redis_faults w) as [|[e|] rest] eqn:E.
    + apply Hr.
    + repeat split. rewrite E. discriminate.
    + destruct (Hr (set_redis_faults rest w)) as (H1 & H2 & _).
      repeat split; [exact H1 | exact H2 |]. rewrite E. discriminate.
Qed.

Lemma steady_logger (level name : string) (fields : list (string * string)) :
  keeps store_steady (logger level name fields).
Proof. intros w. repeat split. auto. Qed.

Lemma steady_get (key : string) : keeps store_steady (RedisClient.get key).
Proof. apply steady_command. apply keeps_gets. typeclasses eauto. Qed.

Lemma steady_incr (key : string) : keeps store_steady (RedisClient.incr key).
Proof.
  apply steady_command. intros w. unfold store_steady.
  repeat match goal with
         | |- context [match ?x with _ => _ end] => destruct x
         end; repeat split; auto.
Qed.

Lemma steady_expire (key : string) (seconds : Z) :
  keeps store_steady (RedisClient.expire key seconds).
Proof.
  apply steady_command. intros w. destruct (keys w !! key); repeat split; auto.
Qed.

Lemma steady_smtp_send (email : Email) :
  keeps store_steady (EmailService.smtp_send email).
Proof.
  intros w. unfold EmailService.smtp_send.
  destruct (smtp_faults _) as [|[e|] rest]; repeat split; auto.
Qed.

Lemma steady_log_failure (to_email : Json) (e : Exn) :
  keeps store_steady (EmailService.log_failure to_email e).
Proof.
  unfold EmailService.log_failure.
  repeat match goal with
         | |- keeps _ (if ?b then _ else _) => destruct b
         end; apply steady_logger.
Qed.

Lemma steady_send_email (to_email subject : Json) (body : string)
    (html_body : option string) :
  keeps store_steady (EmailService.send_email to_email subject body html_body).
Proof.
  unfold EmailService.send_email.
  repeat first [ keeps_step | simple apply steady_smtp_send
               | simple apply steady_log_failure | simple apply steady_logger ].
Qed.

Lemma steady_get_today_count :
  keeps store_steady EmailRateLimiter.get_today_count.
Proof.
  unfold EmailRateLimiter.get_today_count, EmailRateLimiter._get_today_key.
  repeat first [ keeps_step | simple apply steady_get ].
Qed.

Lemma steady_check_and_alert (settings : Settings.t) :
  keeps store_steady (EmailRateLimiter.check_and_alert settings).
Proof.
  unfold EmailRateLimiter.check_and_alert.
  repeat first [ keeps_step | simple apply steady_get_today_count
               | simple apply steady_send_email | simple apply steady_logger ];
    auto.
Qed.

Lemma steady_process (settings : Settings.t) (event : Event) :
  keeps store_steady (NotificationProcessor.process settings event).
Proof.
  unfold NotificationProcessor.process, EmailRateLimiter.can_send_email,
    EmailRateLimiter.record_email_sent, EmailRateLimiter.increment_count,
    EmailRateLimiter._get_today_key. cbv zeta.
  repeat first [ keeps_step | simple apply steady_logger
               | simple apply steady_get_today_count
               | simple apply steady_check_and_alert
               | simple apply steady_send_email
               | simple apply steady_incr | simple apply steady_expire ].
Qed.

Lemma steady_healthy (w w' : World) :
  store_steady w w' -> redis_healthy w -> redis_healthy w'.
Proof. intros (H1 & _ & H3) [Hc Hf]. split; [congruence | auto]. Qed.

Lemma process_event_body (settings : Settings.t) (event : Event) (w : World) :
  let body :=
    (has_processor ← gets processor;
     _ ← (if has_processor : bool
          then NotificationProcessor.process settings event
          else mret tt);
     logger "info" "event_processed"
       [("event_id", UUID_str (event_id event));
        ("event_type", EventType_value (event_type event))]) in
  outside_queues w (snd (body w)) /\ store_steady w (snd (body w)).
Proof.
  cbv zeta. split.
  - revert w. change (keeps outside_queues
      (has_processor ← gets processor;
       _ ← (if has_processor : bool
            then NotificationProcessor.process settings event
            else mret tt);
       logger "info" "event_processed"
         [("event_id", UUID_str (event_id event));
          ("event_type", EventType_value (event_type event))])).
    repeat first [ keeps_step | simple apply keeps_logger
                 | simple apply keeps_process ].
  - revert w. change (keeps store_steady
      (has_processor ← gets processor;
       _ ← (if has_processor : bool
            then NotificationProcessor.process settings event
            else mret tt);
       logger "info" "event_processed"
         [("event_id", UUID_str (event_id event));
          ("event_type", EventType_value (event_type event))])).
    repeat first [ keeps_step | simple apply steady_logger
                 | simple apply steady_process ].
Qed.

(** X23.  While the server answers, processing never loses an event and
    never fails: [_process_event] ends well whatever exception the
    processor raised (a failed send, a counter that does not hold a
    number), and it has then either left the queues alone or written the
    event to exactly one of them, the main queue with its count raised or
    the dead-letter queue, as the retry decision for that exception says.
    Only an error that is not an [Exception] gets through, and then the
    queues are untouched. *)
Theorem process_event_conserves (settings : Settings.t) (event : Event)
    (w w' : World) (r : Result unit) :
  redis_healthy w ->
  EventConsumer._process_event settings event w = (r, w') ->
  (r = Ok tt
   /\ (lists w' = lists w
       \/ exists error,
            let decision :=
              RetryHandler.should_retry (EventConsumer.retry_handler settings)
                event error in
            is_Exception error = true
            /\ lists w'
               = if RetryDecision.should_retry decision then
                   <[Settings.redis_queue_name settings
                     := model_dump_json (increment_retry event)
                        :: main_queue settings w]> (lists w)
                 else
                   <[Settings.redis_dlq_name settings
                     := dlq_entry_text event (RetryDecision.reason decision)
                        :: dead_letters settings w]> (lists w)))
  \/ (exists error,
        r = Raise error /\ is_Exception error = false /\ lists w' = lists w).
Proof.
  intros Hh. unfold EventConsumer._process_event, try_except.
  destruct (process_event_body settings event w) as [Ho Hs]. cbv zeta in Ho, Hs.
  match goal with |- context [match ?b w with _ => _ end] =>
    destruct (b w) as [[[]|error] wb] end; cbn [snd] in Ho, Hs.
  - intros [= <- <-]. left. split; [reflexivity|]. left. apply Ho.
  - destruct Ho as (L & _).
    destruct (is_Exception error) eqn:Ex.
    + destruct (handle_failure_healthy settings event error wb
                  (steady_healthy w wb Hs Hh)) as (l & ->).
      intros [= <- <-]. left. split; [reflexivity|]. right. exists error.
      cbv zeta. split; [exact Ex|].
      unfold main_queue, dead_letters. cbn [lists set_log set_lists].
      now rewrite L.
    + intros [= <- <-]. right. exists error. auto.
Qed.

Lemma process_event_conserves_witness :
  let error :=
    mkExn StdException "SMTPAuthenticationError" "535 Invalid credentials" in
  let w := set_smtp_faults [Some error] quiet_world in
  let w' := snd (EventConsumer._process_event configured_settings
                   sample_event w) in
  redis_healthy w
  /\ EventConsumer._process_event configured_settings sample_event w
     = (Ok tt, w')
  /\ dead_letters configured_settings w'
     = [dlq_entry_text sample_event
          "Permanent failure: SMTPAuthenticationError: 535 Invalid credentials"]
  /\ ((Ok tt = Ok tt
       /\ (lists w' = lists w
           \/ exists error,
                is_Exception error = true
                /\ lists w'
                   = if RetryDecision.should_retry
                          (RetryHandler.should_retry
                             (EventConsumer.retry_handler configured_settings)
                             sample_event error)
                     then
                       <[Settings.redis_queue_name configured_settings
                         := model_dump_json (increment_retry sample_event)
                            :: main_queue configured_settings w]> (lists w)
                     else
                       <[Settings.redis_dlq_name configured_settings
                         := dlq_entry_text sample_event
                              (RetryDecision.reason
                                 (RetryHandler.should_retry
                                    (EventConsumer.retry_handler
                                       configured_settings)
                                    sample_event error))
                            :: dead_letters configured_settings w]> (lists w)))
      \/ (exists error,
            Ok tt = Raise error /\ is_Exception error = false
            /\ lists w' = lists w)).
Proof.
  cbv zeta.
  set (error := mkExn StdException "SMTPAuthenticationError"
                  "535 Invalid credentials").
  set (w := set_smtp_faults [Some error] quiet_world).
  assert (H : redis_healthy w) by (split; reflexivity).
  assert (E : EventConsumer._process_event configured_settings sample_event w
              = (Ok tt,
                 snd (EventConsumer._process_event configured_settings
                        sample_event w))) by (vm_compute; reflexivity).
  split; [exact H|]. split; [exact E|].
  split; [vm_compute; reflexivity|].
  exact (process_event_conserves configured_settings sample_event w _ _ H E).
Defined.

(** *** The daily limit *)

Lemma send_email_ok (to_email subject : Json) (body : string)
    (html_body : option string) (w : World) :
  smtp_ready w = true ->
  EmailService.send_email to_email subject body html_body w
  = (Ok true,
     set_log (mkLog "info" "email_sent_successfully" [] :: log w)
       (set_outbox (mkEmail to_email subject body html_body :: outbox w)
          (set_smtp_faults (tl (smtp_faults w))
             (set_smtp_calls
                (mkEmail to_email subject body html_body :: smtp_calls w) w)))).
Proof.
  intros H. unfold EmailService.send_email, try_except.
  rewrite bind_run. unfold EmailService.smtp_send, smtp_ready in *.
  cbn [smtp_faults set_smtp_calls].
  destruct (smtp_faults w) as [|[e|] rest] eqn:E; [|discriminate|];
    rewrite bind_run, logger_run; cbn [tl]; [|reflexivity].
  destruct w; cbn in *; subst; reflexivity.
Qed.

Lemma process_send_ok (settings : Settings.t) (event : Event) (w : World)
    (n : Z) :
  truthy (NotificationProcessor.destination event) = true ->
  smtp_configured settings = true ->
  redis_healthy w -> counter_reads w n ->
  n < Settings.daily_email_limit settings ->
  smtp_ready w = true ->
  exists l,
    NotificationProcessor.process settings event w
    = (Ok tt,
       set_log l
         (set_expiry (<[count_key w := 172800]> (expiry w))
            (set_keys (<[count_key w := Str.of_int (n + 1)]> (keys w))
               (set_outbox
                  (NotificationProcessor.notification event (utcnow w)
                   :: outbox w)
                  (set_smtp_faults (tl (smtp_faults w))
                     (set_smtp_calls
                        (NotificationProcessor.notification event (utcnow w)
                         :: smtp_calls w) w)))))).
Proof.
  intros Ht Hs Hh Hc Hn Hr.
  unfold smtp_configured in Hs. apply negb_true_iff in Hs.
  unfold NotificationProcessor.process. cbv zeta.
  rewrite bind_run, logger_run, Ht, Hs. cbn [negb].
  rewrite bind_run.
  rewrite (can_send_email_reads settings _ n) by assumption.
  destruct (Z.ltb_spec n (Settings.daily_email_limit settings)); [|lia].
  cbn [negb]. rewrite bind_run, gets_run. cbv beta iota. cbn [utcnow set_log].
  rewrite bind_run, send_email_ok by exact Hr.
  cbv beta iota. rewrite bind_run.
  match goal with |- context [EmailRateLimiter.record_email_sent ?x] =>
    rewrite (record_email_sent_reads x n Hh Hc) end.
  cbv beta iota. rewrite bind_run, gets_run. cbv beta iota.
  rewrite logger_run. eexists. reflexivity.
Qed.

Lemma keys_logger (level name : string) (fields : list (string * string)) :
  keeps same_keys (logger level name fields).
Proof. intros w. reflexivity. Qed.

Lemma keys_get (key : string) : keeps same_keys (RedisClient.get key).
Proof.
  apply keeps_command; [typeclasses eauto | |].
  - intros w x. reflexivity.
  - apply keeps_gets; typeclasses eauto.
Qed.

Lemma keys_send_email (to_email subject : Json) (body : string)
    (html_body : option string) :
  keeps same_keys (EmailService.send_email to_email subject body html_body).
Proof.
  unfold EmailService.send_email, EmailService.log_failure.
  repeat first [ keeps_step | simple apply keys_logger ].
  intros w. unfold EmailService.smtp_send.
  destruct (smtp_faults _) as [|[e|] rest]; reflexivity.
Qed.

Lemma keys_check_and_alert (settings : Settings.t) :
  keeps same_keys (EmailRateLimiter.check_and_alert settings).
Proof.
  unfold EmailRateLimiter.check_and_alert, EmailRateLimiter.get_today_count,
    EmailRateLimiter._get_today_key.
  repeat first [ keeps_step | simple apply keys_get
               | simple apply keys_send_email | simple apply keys_logger ].
Qed.

Lemma check_and_alert_balance (settings : Settings.t) (w : World) (n : Z) :
  redis_healthy w -> counter_reads w n ->
  let w' := snd (EmailRateLimiter.check_and_alert settings w) in
  redis_healthy w' /\ counter_reads w' n
  /\ mail_balance w' n = mail_balance w n.
Proof.
  intros Hh Hc. cbv zeta.
  pose proof (steady_check_and_alert settings w) as Hs.
  pose proof (keys_check_and_alert settings w) as Hk.
  split; [exact (steady_healthy _ _ Hs Hh)|]. split.
  - destruct Hs as (_ & Ht & _). unfold counter_reads in *.
    unfold same_keys in Hk. now rewrite Hk, Ht.
  - unfold mail_balance.
    destruct (alert_sent_today w) eqn:Ef.
    + rewrite check_and_alert_flag by exact Ef. cbn [snd]. now rewrite Ef.
    + destruct (EmailRateLimiter.check_and_alert settings w) as [r w'] eqn:E.
      cbn [snd].
      destruct (check_and_alert_cases settings w w' r Ef E)
        as [(_ & O & F & _)|[(c & _ & O & F & _)|(c & e & rest & _ & O & F & _)]];
        rewrite O, F; cbn [length]; lia.
Qed.

Lemma process_balance (settings : Settings.t) (event : Event) (w : World)
    (n : Z) :
  redis_healthy w -> counter_reads w n ->
  n <= Settings.daily_email_limit settings ->
  Settings.daily_email_limit settings < 2 ^ 63 - 1 ->
  let w' := snd (NotificationProcessor.process settings event w) in
  redis_healthy w'
  /\ exists n',
       counter_reads w' n'
       /\ n <= n' <= Settings.daily_email_limit settings
       /\ mail_balance w' n' = mail_balance w n.
Proof.
  intros Hh Hc Hn Hl. cbv zeta.
  destruct (truthy (NotificationProcessor.destination event)) eqn:Ht.
  2:{ destruct (process_no_destination settings event w Ht) as (l & ->).
      split; [exact Hh|]. exists n. split; [exact Hc|]. split; [lia|reflexivity]. }
  destruct (smtp_configured settings) eqn:Hs.
  2:{ destruct (process_not_configured settings event w Hs) as (l & ->).
      split; [exact Hh|]. exists n. split; [exact Hc|]. split; [lia|reflexivity]. }
  destruct (Z.ltb_spec n (Settings.daily_email_limit settings)) as [Hlt|Hge].
  - destruct (smtp_faults w) as [|[e|] rest] eqn:Ef.
    + destruct (process_send_ok settings event w n Ht Hs Hh Hc Hlt) as (l & ->);
        [unfold smtp_ready; now rewrite Ef|].
      split; [exact Hh|]. exists (n + 1). split; [|split; [lia|]].
      * right. unfold count_key.
        cbn [snd keys today set_log set_expiry set_keys set_outbox
             set_smtp_faults set_smtp_calls].
        rewrite lookup_insert_eq. split; [reflexivity|].
        destruct Hc as [[_ ->]|[_ Hr]]; lia.
      * unfold mail_balance.
        cbn [outbox alert_sent_today snd set_log set_expiry set_keys set_outbox
             set_smtp_faults set_smtp_calls length]. lia.
    + destruct (process_send_fails settings event w n e rest Ht Hs Hh Hc Hlt Ef)
        as (l & ->).
      split; [exact Hh|]. exists n. split; [exact Hc|]. split; [lia|reflexivity].
    + destruct (process_send_ok settings event w n Ht Hs Hh Hc Hlt) as (l & ->);
        [unfold smtp_ready; now rewrite Ef|].
      split; [exact Hh|]. exists (n + 1). split; [|split; [lia|]].
      * right. unfold count_key.
        cbn [snd keys today set_log set_expiry set_keys set_outbox
             set_smtp_faults set_smtp_calls].
        rewrite lookup_insert_eq. split; [reflexivity|].
        destruct Hc as [[_ ->]|[_ Hr]]; lia.
      * unfold mail_balance.
        cbn [outbox alert_sent_today snd set_log set_expiry set_keys set_outbox
             set_smtp_faults set_smtp_calls length]. lia.
  - destruct (process_rate_limited settings event w n Ht Hs Hh Hc Hge) as (l & ->).
    destruct (check_and_alert_balance settings (set_log l w) n Hh Hc)
      as (A & B & C).
    split; [exact A|]. exists n. split; [exact B|]. split; [lia | exact C].
Qed.

Lemma process_each_balance (settings : Settings.t) (events : list Event) :
  Settings.daily_email_limit settings < 2 ^ 63 - 1 ->
  forall (w : World) (n : Z),
    redis_healthy w -> counter_reads w n ->
    n <= Settings.daily_email_limit settings ->
    let w' := process_each settings events w in
    redis_healthy w'
    /\ exists n',
         counter_reads w' n'
         /\ n <= n' <= Settings.daily_email_limit settings
         /\ mail_balance w' n' = mail_balance w n.
Proof.
  intros Hl. induction events as [|e events IH]; intros w n Hh Hc Hn; cbv zeta.
  - split; [exact Hh|]. exists n. split; [exact Hc|]. split; [lia|reflexivity].
  - unfold process_each. cbn [fold_left].
    destruct (process_balance settings e w n Hh Hc Hn Hl) as (Hh1 & n1 & Hc1 & Hn1 & B1).
    destruct (IH _ n1 Hh1 Hc1) as (Hh2 & n2 & Hc2 & Hn2 & B2); [lia|].
    split; [exact Hh2|]. exists n2. split; [exact Hc2|]. split; [lia|].
    unfold process_each in B2. rewrite B2. exact B1.
Qed.

(** X24.  The daily limit holds.  While the counter store answers, however
    many events the processor is given and however the SMTP server
    behaves, the counter of the day never passes [daily_email_limit], and
    the mail that is delivered is at most one message for each step of the
    counter plus the one alert: from a counter that read [n], at most
    [daily_email_limit - n] notifications and one alert. *)
Theorem daily_limit_holds (settings : Settings.t) (events : list Event)
    (w : World) (n : Z) :
  redis_healthy w -> counter_reads w n ->
  n <= Settings.daily_email_limit settings ->
  Settings.daily_email_limit settings < 2 ^ 63 - 1 ->
  let w' := process_each settings events w in
  exists n',
    counter_reads w' n'
    /\ n <= n' <= Settings.daily_email_limit settings
    /\ Z.of_nat (length (outbox w'))
       <= Z.of_nat (length (outbox w)) + (n' - n) + 1
    /\ Z.of_nat (length (outbox w'))
       <= Z.of_nat (length (outbox w))
          + (Settings.daily_email_limit settings - n) + 1.
Proof.
  intros Hh Hc Hn Hl. cbv zeta.
  destruct (process_each_balance settings events Hl w n Hh Hc Hn)
    as (_ & n' & Hc' & Hn' & B).
  exists n'. split; [exact Hc'|]. split; [exact Hn'|].
  unfold mail_balance in B.
  destruct (alert_sent_today (process_each settings events w));
    destruct (alert_sent_today w); lia.
Qed.

Lemma daily_limit_holds_witness :
  let w := set_keys {[ "email:count:2024-01-01" := "19" ]} quiet_world in
  let events := [sample_event; sample_event; sample_event] in
  let w' := process_each configured_settings events w in
  redis_healthy w /\ counter_reads w 19
  /\ 19 <= Settings.daily_email_limit configured_settings
  /\ Settings.daily_email_limit configured_settings < 2 ^ 63 - 1
  /\ exists n',
       counter_reads w' n'
       /\ 19 <= n' <= Settings.daily_email_limit configured_settings
       /\ Z.of_nat (length (outbox w'))
          <= Z.of_nat (length (outbox w)) + (n' - 19) + 1
       /\ Z.of_nat (length (outbox w'))
          <= Z.of_nat (length (outbox w))
             + (Settings.daily_email_limit configured_settings - 19) + 1.
Proof.
  cbv zeta.
  set (w := set_keys {[ "email:count:2024-01-01" := "19" ]} quiet_world).
  assert (H1 : redis_healthy w) by (split; reflexivity).
  assert (H2 : counter_reads w 19).
  { right. split; [reflexivity | cbn; lia]. }
  assert (H3 : 19 <= Settings.daily_email_limit configured_settings)
    by (cbn; lia).
  assert (H4 : Settings.daily_email_limit configured_settings < 2 ^ 63 - 1)
    by (cbn; lia).
  repeat (split; [assumption|]).
  exact (daily_limit_holds configured_settings
           [sample_event; sample_event; sample_event] w 19 H1 H2 H3 H4).
Defined.

(** ** From the queue to the mailbox *)



Lemma delivered_pass (settings : Settings.t) (event : Event)
    (rest : list string) (n : Z) (w : World) :
  redis_healthy w -> counter_reads w n ->
  n < Settings.daily_email_limit settings ->
  smtp_configured settings = true -> processor w = true ->
  Event_ok event = true ->
  truthy (NotificationProcessor.destination event) = true ->
  main_queue settings w = rest ++ [model_dump_json event] ->
  smtp_faults w = [] ->
  exists l,
    EventConsumer._consume_iteration settings w
    = (Ok Continue,
       set_log l
         (set_expiry (<[count_key w := 172800]> (expiry w))
            (set_keys (<[count_key w := Str.of_int (n + 1)]> (keys w))
               (set_outbox
                  (NotificationProcessor.notification event (utcnow w)
                   :: outbox w)
                  (set_smtp_faults []
                     (set_smtp_calls
                        (NotificationProcessor.notification event (utcnow w)
                         :: smtp_calls w)
                        (set_lists
                           (<[Settings.redis_queue_name settings := rest]>
                              (lists w)) w))))))).
Proof.
  intros Hh Hc Hn Hs Hp Hok Ht Hq Hf.
  pose proof (dequeue_event_healthy settings 1 event rest w Hh Hok Hq) as Hd.
  match type of Hd with _ = (_, ?x) => set (w1 := x) in * end.
  assert (Hr : smtp_ready w1 = true).
  { unfold smtp_ready. change (smtp_faults w1) with (smtp_faults w).
    now rewrite Hf. }
  destruct (process_send_ok settings event w1 n Ht Hs Hh Hc Hn Hr) as (l & H2).
  change (smtp_faults w1) with (smtp_faults w) in H2. rewrite Hf in H2.
  cbn [tl] in H2.
  rewrite (consume_iteration_event settings w w1 _ event (Ok tt) Hd
             (process_event_ok settings event w1 _ Hp H2)).
  eexists. reflexivity.
Qed.

Lemma deliver_all (settings : Settings.t) :
  smtp_configured settings = true ->
  Settings.daily_email_limit settings < 2 ^ 63 - 1 ->
  forall (events : list Event) (w : World) (n : Z),
    redis_healthy w -> counter_reads w n ->
    n + Z.of_nat (length events) <= Settings.daily_email_limit settings ->
    processor w = true -> running w = true ->
    forallb (fun e => Event_ok e
                      && truthy (NotificationProcessor.destination e)) events
    = true ->
    main_queue settings w = rev (map model_dump_json events) ->
    smtp_faults w = [] ->
    let w' := run settings (repeat Iterate (length events)) w in
    main_queue settings w' = []
    /\ outbox w'
       = rev (map (fun e => NotificationProcessor.notification e (utcnow w))
                events) ++ outbox w
    /\ counter_reads w' (n + Z.of_nat (length events))
    /\ (forall key, key <> Settings.redis_queue_name settings ->
                    lists w' !!! key = lists w !!! key)
    /\ sleeps w' = sleeps w.
Proof.
  intros Hs Hl. induction events as [|e events IH];
    intros w n Hh Hc Hn Hp Hr Hok Hq Hf; cbv zeta.
  - cbn [length repeat run fold_left map rev app]. rewrite Z.add_0_r.
    repeat split; auto.
  - cbn [forallb] in Hok. apply andb_true_iff in Hok as [Hoke Hok].
    apply andb_true_iff in Hoke as [Hoke Hte].
    cbn [map rev] in Hq. cbn [length] in Hn. rewrite Nat2Z.inj_succ in Hn.
    cbn [length repeat]. rewrite run_cons.
    cbn [step]. rewrite Hr.
    assert (Hn0 : 0 <= n) by (destruct Hc as [[_ ->]|[_ Hc]]; lia).
    destruct (delivered_pass settings e (rev (map model_dump_json events))
                n w Hh Hc) as (l & ->);
      try assumption; [lia|].
    cbn [snd].
    match goal with |- context [run settings _ ?x] => set (w1 := x) end.
    assert (Hq1 : main_queue settings w1 = rev (map model_dump_json events)).
    { unfold main_queue, w1.
      cbn [lists set_log set_expiry set_keys set_outbox set_smtp_faults
           set_smtp_calls set_lists].
      now rewrite lookup_total_insert_eq. }
    assert (Hc1 : counter_reads w1 (n + 1)).
    { right. unfold count_key, w1.
      cbn [keys today set_log set_expiry set_keys set_outbox set_smtp_faults
           set_smtp_calls set_lists].
      rewrite lookup_insert_eq. split; [reflexivity|]. lia. }
    destruct (IH w1 (n + 1)) as (A & B & C & D & E); try assumption;
      try reflexivity.
    + lia.
    + cbv zeta in A, B, C, D, E.
      split; [exact A|]. split.
      { rewrite B. cbn [map rev]. rewrite <- app_assoc. reflexivity. }
      split.
      { replace (n + Z.of_nat (S (length events)))
          with (n + 1 + Z.of_nat (length events)) by lia. exact C. }
      split; [|exact E].
      intros key Hkey. rewrite (D key Hkey). unfold w1.
      cbn [lists set_log set_expiry set_keys set_outbox set_smtp_faults
           set_smtp_calls set_lists].
      now rewrite lookup_total_insert_ne by congruence.
Qed.



Lemma publish_healthy (settings : Settings.t) (event_create : EventCreate)
    (w : World) :
  redis_healthy w ->
  let event :=
    mkEvent (hd (mkUUID 0 0 0 0 0) (uuids w))
      (create_event_type event_create) (create_user_id event_create)
      (create_payload event_create) (utcnow w) 0 "1.0" in
  exists l,
    EventPublisher.publish settings event_create w
    = (Ok event,
       set_log l
         (set_lists (<[Settings.redis_queue_name settings
                       := model_dump_json event :: main_queue settings w]>
                       (lists w))
            (set_uuids (tl (uuids w)) w))).
Proof.
  intros Hh. cbv zeta. unfold EventPublisher.publish.
  rewrite bind_run, new_event_run. cbv beta iota.
  rewrite bind_run, enqueue_event_healthy by exact Hh.
  cbv beta iota. rewrite bind_run, logger_run.
  eexists. reflexivity.
Qed.

Lemma fresh_event_ok (event_create : EventCreate) (w : World) :
  World_ok w = true -> Json_ok (JObj (create_payload event_create)) = true ->
  Event_ok
    (mkEvent (hd (mkUUID 0 0 0 0 0) (uuids w))
       (create_event_type event_create) (create_user_id event_create)
       (create_payload event_create) (utcnow w) 0 "1.0") = true.
Proof.
  intros Hw Hp. unfold World_ok in Hw. apply andb_true_iff in Hw as [Hu Hn].
  unfold Event_ok. cbn [event_id payload created_at retry_count].
  rewrite Hp, Hn.
  destruct (uuids w) as [|u rest]; cbn [hd]; [reflexivity|].
  cbn [forallb] in Hu. apply andb_true_iff in Hu as [Hu _]. now rewrite Hu.
Qed.


